(** * gen-meta-app: upload / delete controllers and the upload form

    A shallow embedding of

    - [server/src/controllers/single-image.controller.js]
      ([uploadSingleImage], [deleteImage]), in [Module Server];
    - [src/components/main/upload-formv2 test.tsx] (the [UploadForm]
      component: [uploadStatus], [handleFileChange], [handleDrop],
      [cancelUpload], [handleFileUpload], [regenerateFailedFiles],
      [handleSubmit]), in [Module UploadForm];
    - the [Home] page ([onDrop], [handleFileSelect]), in [Module Home], and
      its keyword editor ([startEditing], [saveEdit]), in [Module Keywords];
    - the [Dashboard] page ([fetchDashboardData]), in [Module Dashboard].

    The handlers of the server are written in a small state-and-exception
    monad over the persistent stores they touch (the [UserActivity] and
    [ImagesModel] collections, the S3 bucket and the local file system).
    What an external call answers (the generator, S3, the database driver)
    is read from an environment record, so that every failure the
    JavaScript can observe is an input of the model. *)

From stdpp Require Import base gmap strings list pretty.
From Stdlib Require Import ZArith Lia.

(** JavaScript truthiness of an optional string: [undefined] and the empty
    string are falsy. *)
Definition truthy (s : option string) : bool :=
  match s with
  | Some s => negb (String.eqb s EmptyString)
  | None => false
  end.

(** [a || b] on strings. *)
Definition js_or (a : option string) (b : string) : string :=
  match a with
  | Some s => if String.eqb s EmptyString then b else s
  | None => b
  end.

Module Server.

Local Open Scope Z_scope.

(** ** Data *)

(** [req.file], as multer fills it. *)
Record File := {
  filename : string;
  mimetype : string;
}.

Record Metadata := {
  title : string;
  description : string;
  keywords : list string;
}.

(** What [processImage] resolves to, with the bytes of the staged file it
    leaves at [imagePath]. *)
Record MetaResult := {
  imagePath : string;
  metadata : Metadata;
  staged : string;
}.

Record ImageDetails := {
  imageName : string;
  imageUrl : string;
  image_metadata : Metadata;
}.

(** An element of [images] as stored: the database gives each one an [_id]. *)
Record ImageDoc := {
  image_id : string;
  details : ImageDetails;
}.

Record BatchDoc := {
  _id : string;
  batch_userId : string;
  batch_batchId : string;
  images : list ImageDoc;
}.

Record TokenEntry := {
  delta : Z;
  reason : string;
  entry_batchId : string;
}.

Record UserActivityDoc := {
  availableTokens : Z;
  totalImageProcessed : Z;
  tokenHistory : list TokenEntry;
}.

Record S3Object := {
  Body : string;
  ContentType : string;
}.

(** The stores the controller reads and writes. *)
Record World := {
  UserActivity : gmap string UserActivityDoc;
  ImagesModel : list BatchDoc;
  bucket : gmap string S3Object;
  fs : gmap string string;
}.

Inductive Error :=
| ApiError (statusCode : Z) (message : string)
| JsError (message : string).

Definition error_message (e : Error) : string :=
  match e with
  | ApiError _ m => m
  | JsError m => m
  end.

(** External calls, in the order they were made. *)
Inductive Event :=
| EvFindUser (userId : string)
| EvProcessImage (name : string) (ok : bool)
| EvReadFile (path : string) (ok : bool)
| EvPutObject (key : string) (ok : bool)
| EvUnlink (path : string) (ok : bool)
| EvPushImage (userId batchId : string) (ok : bool)
| EvUseTokens (amount : Z) (ok : bool)
| EvSaveUser (userId : string) (ok : bool)
| EvFindBatch (userId batchId : string)
| EvPullImage (userId batchId imageId : string) (ok : bool)
| EvDeleteObject (key : string) (ok : bool)
| EvDeleteBatch (id : string) (ok : bool).

(** ** The monad of a request handler *)

Record Srv := {
  world : World;
  log : list Event;
  metaResult : option MetaResult;   (* [let metaResult;] of the upload handler *)
}.

Definition M (A : Type) : Type := Srv -> (Error + A) * Srv.

Definition ret {A} (a : A) : M A := fun s => (inr a, s).
Definition throw {A} (e : Error) : M A := fun s => (inl e, s).
Definition bind {A B} (c : M A) (k : A -> M B) : M B :=
  fun s => match c s with
           | (inl e, s') => (inl e, s')
           | (inr a, s') => k a s'
           end.
Definition try_catch {A} (body : M A) (handler : Error -> M A) : M A :=
  fun s => match body s with
           | (inl e, s') => handler e s'
           | r => r
           end.

Notation "'let*' x ':=' c 'in' k" := (bind c (fun x => k))
  (at level 10, x pattern, c at level 100, k at level 200).
Notation "'do' c 'in' k" := (bind c (fun _ => k))
  (at level 10, c at level 100, k at level 200).

Definition get_world : M World := fun s => (inr (world s), s).
Definition set_world (w : World) : M unit :=
  fun s => (inr tt, {| world := w; log := log s; metaResult := metaResult s |}).
Definition emit (e : Event) : M unit :=
  fun s => (inr tt, {| world := world s; log := log s ++ [e]; metaResult := metaResult s |}).
Definition get_metaResult : M (option MetaResult) := fun s => (inr (metaResult s), s).
Definition set_metaResult (m : MetaResult) : M unit :=
  fun s => (inr tt, {| world := world s; log := log s; metaResult := Some m |}).

(** An awaited call that the environment lets fail: [Some msg] rejects. *)
Definition rejects (o : option string) : M unit :=
  match o with
  | Some msg => throw (JsError msg)
  | None => ret tt
  end.

(** ** The request environment

    Everything a request gets from outside the controller: the identifiers
    that [uuidv4] and the database hand out, the configuration, and for each
    awaited call whether it rejects ([Some msg]) or goes through. *)
Record Env := {
  urlEndpoint : string;
  uuidv4 : string;
  new_batch_id : string;
  new_image_id : string;
  findUser_rejects : option string;
  processImage_result : string + MetaResult;
  put_rejects : option string;
  pushImage_rejects : option string;
  save_rejects : option string;
  findBatch_rejects : option string;
  pullImage_rejects : option string;
  deleteObject_rejects : option string;
  deleteBatch_rejects : option string;
}.

(** ** The calls the controller makes *)

(** [UserActivity.findOne({ userId })]. *)
Definition UserActivity_findOne (env : Env) (userId : string)
  : M (option UserActivityDoc) :=
  do emit (EvFindUser userId) in
  do rejects (findUser_rejects env) in
  let* w := get_world in
  ret (UserActivity w !! userId).

(** Modelled from the spec: [processImage(image, requestDir, {...})] of
    [services/image/image-processing.service.js], which is not among the
    sources. It is the metadata generator, a black box over one image that
    yields the metadata or fails; the local staging artifact it creates to
    produce the storable bytes is the file at [imagePath], which the
    controller then reads and unlinks. Whether it fails, and what it yields,
    is the environment's. *)
Definition processImage (env : Env) (image : File) : M MetaResult :=
  match processImage_result env with
  | inl msg =>
      do emit (EvProcessImage (filename image) false) in
      throw (JsError msg)
  | inr m =>
      do emit (EvProcessImage (filename image) true) in
      let* w := get_world in
      do set_world {| UserActivity := UserActivity w;
                      ImagesModel := ImagesModel w;
                      bucket := bucket w;
                      fs := <[imagePath m := staged m]> (fs w) |} in
      ret m
  end.

Definition fs_existsSync (path : string) : M bool :=
  let* w := get_world in
  ret (bool_decide (is_Some (fs w !! path))).

Definition fs_readFileSync (path : string) : M string :=
  let* w := get_world in
  match fs w !! path with
  | Some content => do emit (EvReadFile path true) in ret content
  | None =>
      do emit (EvReadFile path false) in
      throw (JsError ("ENOENT: no such file or directory, open " +:+ path))
  end.

Definition fs_unlinkSync (path : string) : M unit :=
  let* w := get_world in
  match fs w !! path with
  | Some _ =>
      do emit (EvUnlink path true) in
      set_world {| UserActivity := UserActivity w;
                   ImagesModel := ImagesModel w;
                   bucket := bucket w;
                   fs := delete path (fs w) |}
  | None =>
      do emit (EvUnlink path false) in
      throw (JsError ("ENOENT: no such file or directory, unlink " +:+ path))
  end.

(** [s3.send(new PutObjectCommand(uploadParams))]. *)
Definition s3_PutObject (env : Env) (key : string) (obj : S3Object) : M unit :=
  match put_rejects env with
  | Some msg => do emit (EvPutObject key false) in throw (JsError msg)
  | None =>
      do emit (EvPutObject key true) in
      let* w := get_world in
      set_world {| UserActivity := UserActivity w;
                   ImagesModel := ImagesModel w;
                   bucket := <[key := obj]> (bucket w);
                   fs := fs w |}
  end.

(** [s3.send(new DeleteObjectCommand({ Bucket, Key }))]. *)
Definition s3_DeleteObject (env : Env) (key : string) : M unit :=
  match deleteObject_rejects env with
  | Some msg => do emit (EvDeleteObject key false) in throw (JsError msg)
  | None =>
      do emit (EvDeleteObject key true) in
      let* w := get_world in
      set_world {| UserActivity := UserActivity w;
                   ImagesModel := ImagesModel w;
                   bucket := delete key (bucket w);
                   fs := fs w |}
  end.

Definition batch_matches (userId batchId : string) (b : BatchDoc) : bool :=
  String.eqb (batch_userId b) userId && String.eqb (batch_batchId b) batchId.

(** Update the first document of a collection that satisfies [p]. *)
Fixpoint update_first (p : BatchDoc -> bool) (f : BatchDoc -> BatchDoc)
    (l : list BatchDoc) : option (BatchDoc * list BatchDoc) :=
  match l with
  | [] => None
  | b :: l' =>
      if p b then Some (f b, f b :: l')
      else match update_first p f l' with
           | Some (b', l'') => Some (b', b :: l'')
           | None => None
           end
  end.

(** Remove the first document of a collection that satisfies [p]. *)
Fixpoint remove_first (p : BatchDoc -> bool) (l : list BatchDoc) : list BatchDoc :=
  match l with
  | [] => []
  | b :: l' => if p b then l' else b :: remove_first p l'
  end.

Definition push_image (i : ImageDoc) (b : BatchDoc) : BatchDoc :=
  {| _id := _id b; batch_userId := batch_userId b;
     batch_batchId := batch_batchId b; images := images b ++ [i] |}.

Definition pull_image (imageId : string) (b : BatchDoc) : BatchDoc :=
  {| _id := _id b; batch_userId := batch_userId b;
     batch_batchId := batch_batchId b;
     images := filter (fun i => image_id i ≠ imageId) (images b) |}.

Definition set_ImagesModel (w : World) (c : list BatchDoc) : World :=
  {| UserActivity := UserActivity w; ImagesModel := c;
     bucket := bucket w; fs := fs w |}.

(** [ImagesModel.findOneAndUpdate({userId, batchId},
      {$setOnInsert: {userId, batchId}, $push: {images}},
      {upsert: true, new: true})]. *)
Definition ImagesModel_pushImage (env : Env) (userId batchId : string)
    (d : ImageDetails) : M BatchDoc :=
  match pushImage_rejects env with
  | Some msg => do emit (EvPushImage userId batchId false) in throw (JsError msg)
  | None =>
      do emit (EvPushImage userId batchId true) in
      let* w := get_world in
      let i := {| image_id := new_image_id env; details := d |} in
      match update_first (batch_matches userId batchId) (push_image i) (ImagesModel w) with
      | Some (b, c) => do set_world (set_ImagesModel w c) in ret b
      | None =>
          let b := {| _id := new_batch_id env; batch_userId := userId;
                      batch_batchId := batchId; images := [i] |} in
          do set_world (set_ImagesModel w (ImagesModel w ++ [b])) in ret b
      end
  end.

(** [ImagesModel.findOne({ userId, batchId })]. *)
Definition ImagesModel_findOne (env : Env) (userId batchId : string)
  : M (option BatchDoc) :=
  do emit (EvFindBatch userId batchId) in
  do rejects (findBatch_rejects env) in
  let* w := get_world in
  ret (List.find (batch_matches userId batchId) (ImagesModel w)).

(** [ImagesModel.findOneAndUpdate({userId, batchId},
      {$pull: {images: {_id: imageId}}}, {new: true})]. *)
Definition ImagesModel_pullImage (env : Env) (userId batchId imageId : string)
  : M (option BatchDoc) :=
  match pullImage_rejects env with
  | Some msg =>
      do emit (EvPullImage userId batchId imageId false) in throw (JsError msg)
  | None =>
      do emit (EvPullImage userId batchId imageId true) in
      let* w := get_world in
      match update_first (batch_matches userId batchId) (pull_image imageId) (ImagesModel w) with
      | Some (b, c) => do set_world (set_ImagesModel w c) in ret (Some b)
      | None => ret None
      end
  end.

(** [ImagesModel.deleteOne({ _id })]. *)
Definition ImagesModel_deleteOne (env : Env) (id : string) : M unit :=
  match deleteBatch_rejects env with
  | Some msg => do emit (EvDeleteBatch id false) in throw (JsError msg)
  | None =>
      do emit (EvDeleteBatch id true) in
      let* w := get_world in
      set_world (set_ImagesModel w (remove_first (fun b => String.eqb (_id b) id) (ImagesModel w)))
  end.

(** Modelled from the spec: [userActivity.useTokens(amount, reason, batchId)]
    of [models/activity.model.js], which is not among the sources. The
    ledger's debit takes [amount] off the balance and appends an entry
    with the signed delta, the reason and the batch id; it refuses when the
    balance does not cover the amount, so that the balance never goes
    negative. It works on the document in memory; [save] persists it. *)
Definition useTokens (ua : UserActivityDoc) (amount : Z) (why batchId : string)
  : M UserActivityDoc :=
  if (availableTokens ua <? amount)%Z then
    do emit (EvUseTokens amount false) in
    throw (JsError "Insufficient tokens")
  else
    do emit (EvUseTokens amount true) in
    ret {| availableTokens := availableTokens ua - amount;
           totalImageProcessed := totalImageProcessed ua;
           tokenHistory := tokenHistory ua ++
             [{| delta := - amount; reason := why; entry_batchId := batchId |}] |}.

(** [userActivity.save()]: the document in memory is written back. The
    handler opens no session or transaction and passes no condition on the
    stored balance. *)
Definition save (env : Env) (userId : string) (ua : UserActivityDoc) : M unit :=
  match save_rejects env with
  | Some msg => do emit (EvSaveUser userId false) in throw (JsError msg)
  | None =>
      do emit (EvSaveUser userId true) in
      let* w := get_world in
      set_world {| UserActivity := <[userId := ua]> (UserActivity w);
                   ImagesModel := ImagesModel w;
                   bucket := bucket w;
                   fs := fs w |}
  end.

(** ** [uploadSingleImage] *)

Record UploadRequest := {
  file : option File;
  titleLength : option string;
  descriptionLength : option string;
  keywordCount : option string;
  body_batchId : option string;
  user_id : string;
}.

Record UploadData := {
  data_id : string;
  data_userId : string;
  data_batchId : string;
  data_image : ImageDetails;
  remainingTokens : Z;
}.

(** What [new ApiResponse(...).send(res)] sends. *)
Record Response := {
  statusCode : Z;
  success : bool;
  message : string;
  data : option UploadData;
}.

Definition objectKey (userId batchId name : string) : string :=
  "uploads/" +:+ userId +:+ "/" +:+ batchId +:+ "/" +:+ name.

(** Lines 31-43: the request is checked and the user's activity record is
    read; the handler goes on with the image, the batch id and the record it
    holds in memory. *)
Definition upload_check (env : Env) (req : UploadRequest)
  : M (File * string * UserActivityDoc) :=
  match file req with
  | None => throw (ApiError 400 "No image uploaded")
  | Some image =>
      let newBatchId := js_or (body_batchId req) (uuidv4 env) in
      let userId := user_id req in
      let* userActivity := UserActivity_findOne env userId in
      match userActivity with
      | None => throw (ApiError 404 "User activity record not found")
      | Some userActivity =>
          if (availableTokens userActivity <? 1)%Z then
            throw (ApiError 400 "Insufficient tokens to upload an image")
          else ret (image, newBatchId, userActivity)
      end
  end.

(** Lines 46-103: the body of the [try]. *)
Definition upload_try (env : Env) (req : UploadRequest) (image : File)
    (newBatchId : string) (userActivity : UserActivityDoc) : M Response :=
  let userId := user_id req in
  let* m := processImage env image in
  do set_metaResult m in
  let* fileContent := fs_readFileSync (imagePath m) in
  let key := objectKey userId newBatchId (filename image) in
  do s3_PutObject env key {| Body := fileContent; ContentType := mimetype image |} in
  do fs_unlinkSync (imagePath m) in
  let imageDetails :=
    {| imageName := filename image;
       imageUrl := urlEndpoint env +:+ "/" +:+ key;
       image_metadata := metadata m |} in
  let* dbResult := ImagesModel_pushImage env userId newBatchId imageDetails in
  let* debited :=
    useTokens userActivity 1 ("Processed images in batch: " +:+ newBatchId) newBatchId in
  let userActivity' :=
    {| availableTokens := availableTokens debited;
       totalImageProcessed := totalImageProcessed debited + 1;
       tokenHistory := tokenHistory debited |} in
  do save env userId userActivity' in
  ret {| statusCode := 200;
         success := true;
         message := "Image processed, stored successfully, and token deducted";
         data := Some {| data_id := _id dbResult;
                         data_userId := userId;
                         data_batchId := newBatchId;
                         data_image := imageDetails;
                         remainingTokens := availableTokens userActivity' |} |}.

(** Lines 104-109: the [catch]. *)
Definition upload_catch (error : Error) : M Response :=
  let* m := get_metaResult in
  do match m with
     | Some m =>
         let* there := fs_existsSync (imagePath m) in
         if there then fs_unlinkSync (imagePath m) else ret tt
     | None => ret tt
     end in
  throw (ApiError 500 ("Failed to upload image: " +:+ error_message error)).

Definition upload_store_and_debit (env : Env) (req : UploadRequest) (image : File)
    (newBatchId : string) (userActivity : UserActivityDoc) : M Response :=
  try_catch (upload_try env req image newBatchId userActivity) upload_catch.

Definition uploadSingleImage (env : Env) (req : UploadRequest) : M Response :=
  let* (image, newBatchId, userActivity) := upload_check env req in
  upload_store_and_debit env req image newBatchId userActivity.

(** ** [deleteImage] *)

Record DeleteRequest := {
  query_imageId : option string;
  query_batchId : option string;
  delete_user_id : string;
}.

Definition deleteImage (env : Env) (req : DeleteRequest) : M Response :=
  if negb (truthy (query_imageId req)) || negb (truthy (query_batchId req)) then
    throw (ApiError 400 "ImageId and BatchId are required")
  else
    let imageId := default EmptyString (query_imageId req) in
    let batchId := default EmptyString (query_batchId req) in
    let userId := delete_user_id req in
    let* batchBeforeUpdate := ImagesModel_findOne env userId batchId in
    match batchBeforeUpdate with
    | None => throw (ApiError 404 "Batch not found")
    | Some batchBeforeUpdate =>
        match List.find (fun img => String.eqb (image_id img) imageId)
                        (images batchBeforeUpdate) with
        | None => throw (ApiError 404 "Image not found")
        | Some deletedImage =>
            let* updatedBatch := ImagesModel_pullImage env userId batchId imageId in
            let key := objectKey userId batchId (imageName (details deletedImage)) in
            try_catch
              (do s3_DeleteObject env key in
               let* updatedBatch :=
                 match updatedBatch with
                 | Some b => ret b
                 | None => throw (JsError "Cannot read properties of null (reading 'images')")
                 end in
               do match images updatedBatch with
                  | [] => ImagesModel_deleteOne env (_id updatedBatch)
                  | _ :: _ => ret tt
                  end in
               ret {| statusCode := 200; success := true;
                      message := "Image deleted successfully"; data := None |})
              (fun error =>
                 throw (ApiError 500 ("Failed to delete image: " +:+ error_message error)))
        end
    end.

(** ** Running a handler on a store *)

Definition run {A} (c : M A) (w : World) : (Error + A) * World * list Event :=
  let '(r, s) := c {| world := w; log := []; metaResult := None |} in
  (r, world s, log s).

Definition outcome {A} (x : (Error + A) * World * list Event) : Error + A := x.1.1.
Definition final {A} (x : (Error + A) * World * list Event) : World := x.1.2.
Definition calls {A} (x : (Error + A) * World * list Event) : list Event := x.2.

(** The persisted balance of a user; [None] when there is no record. *)
Definition balance (w : World) (userId : string) : option Z :=
  availableTokens <$> UserActivity w !! userId.

(** ** Notions the statements use *)

(** The record of a user after one token was debited for [batchId] and the
    image counted. *)
Definition debit1 (ua : UserActivityDoc) (batchId : string) : UserActivityDoc :=
  {| availableTokens := availableTokens ua - 1;
     totalImageProcessed := totalImageProcessed ua + 1;
     tokenHistory := tokenHistory ua ++
       [{| delta := -1; reason := "Processed images in batch: " +:+ batchId;
           entry_batchId := batchId |}] |}.

(** The object store accepted a put during the request. *)
Definition storage_succeeded {A} (x : (Error + A) * World * list Event) : Prop :=
  ∃ key, EvPutObject key true ∈ calls x.

(** The persisted balance of [userId] is one less after the request. *)
Definition debited {A} (w : World) (x : (Error + A) * World * list Event)
    (userId : string) : Prop :=
  ∃ n, balance w userId = Some n ∧ balance (final x) userId = Some (n - 1).

(** Why the guarded part of [uploadSingleImage] can fail. *)
Definition failure_cause (env : Env) (ua : UserActivityDoc) : Prop :=
  (∃ msg, processImage_result env = inl msg) ∨
  (∃ msg, put_rejects env = Some msg) ∨
  (∃ msg, pushImage_rejects env = Some msg) ∨
  availableTokens ua < 1 ∨
  (∃ msg, save_rejects env = Some msg).

(** How the guarded part of [uploadSingleImage] can end, started in [s]:
    with an error, the activity records as they were and no successful save
    among the calls; or with a response, after a successful put and a save
    of the debited record. *)
Inductive upload_result (env : Env) (req : UploadRequest) (image : File)
    (bid : string) (ua : UserActivityDoc) (s : Srv) : (Error + Response) * Srv -> Prop :=
| upload_failed e s' pre :
    UserActivity (world s') = UserActivity (world s) ->
    log s' = log s ++ pre ->
    (forall u, EvSaveUser u true ∉ pre) ->
    failure_cause env ua ->
    upload_result env req image bid ua s (inl e, s')
| upload_done r s' m mid :
    processImage_result env = inr m ->
    put_rejects env = None ->
    pushImage_rejects env = None ->
    save_rejects env = None ->
    UserActivity (world s') = <[user_id req := debit1 ua bid]> (UserActivity (world s)) ->
    log s' = log s ++
      [EvProcessImage (filename image) true; EvReadFile (imagePath m) true;
       EvPutObject (objectKey (user_id req) bid (filename image)) true] ++ mid ++
      [EvUseTokens 1 true; EvSaveUser (user_id req) true] ->
    is_Some (bucket (world s') !! objectKey (user_id req) bid (filename image)) ->
    statusCode r = 200 ->
    success r = true ->
    upload_result env req image bid ua s (inr r, s').

(** ** Requests that overlap

    Node runs a handler until it awaits. The balance is read by the first
    await of [uploadSingleImage] and written by its last one; in between the
    handler is suspended at least once, holding the record it has read. A
    request in flight is therefore in one of three states, and two requests
    are served by letting them take turns. *)
Inductive Task :=
| Pending
| Checked (image : File) (newBatchId : string) (userActivity : UserActivityDoc)
| Finished (r : Error + Response).

(** One turn of a request: from the start through the check of the balance
    (lines 31-43), after which the handler awaits [processImage], or from
    there to the end. *)
Definition advance (env : Env) (req : UploadRequest) (t : Task) (w : World)
  : Task * World :=
  match t with
  | Pending =>
      let x := run (upload_check env req) w in
      match outcome x with
      | inr (image, newBatchId, userActivity) =>
          (Checked image newBatchId userActivity, final x)
      | inl e => (Finished (inl e), final x)
      end
  | Checked image newBatchId userActivity =>
      let x := run (upload_store_and_debit env req image newBatchId userActivity) w in
      (Finished (outcome x), final x)
  | Finished r => (Finished r, w)
  end.

Inductive Turn := first | second.

Fixpoint interleave (turns : list Turn) (envA : Env) (reqA : UploadRequest)
    (envB : Env) (reqB : UploadRequest) (a b : Task) (w : World)
  : Task * Task * World :=
  match turns with
  | [] => (a, b, w)
  | first :: turns =>
      let (a', w') := advance envA reqA a w in
      interleave turns envA reqA envB reqB a' b w'
  | second :: turns =>
      let (b', w') := advance envB reqB b w in
      interleave turns envA reqA envB reqB a b' w'
  end.

(** A response that reports success to the caller. *)
Definition succeeded (r : Error + Response) : bool :=
  match r with
  | inr resp => success resp
  | inl _ => false
  end.

Definition task_succeeded (t : Task) : bool :=
  match t with
  | Finished r => succeeded r
  | _ => false
  end.

(** Both requests have read the balance and neither has written it. *)
Definition both_checked (a b : Task) : bool :=
  match a, b with
  | Checked _ _ _, Checked _ _ _ => true
  | _, _ => false
  end.

(** The turns let the two requests overlap: at some point both hold a
    record they have read and not yet saved. *)
Definition overlap_from (turns : list Turn) (envA : Env) (reqA : UploadRequest)
    (envB : Env) (reqB : UploadRequest) (a b : Task) (w : World) : Prop :=
  ∃ pre post,
    turns = pre ++ post ∧
    both_checked (interleave pre envA reqA envB reqB a b w).1.1
                 (interleave pre envA reqA envB reqB a b w).1.2 = true.

Definition overlap (turns : list Turn) (envA : Env) (reqA : UploadRequest)
    (envB : Env) (reqB : UploadRequest) (w : World) : Prop :=
  overlap_from turns envA reqA envB reqB Pending Pending w.

(** The balance a finished request reports to the caller. *)
Definition reported_balance (t : Task) : option Z :=
  match t with
  | Finished (inr resp) => remainingTokens <$> data resp
  | _ => None
  end.

(** What the proofs about two requests keep track of: a request suspended
    after the check holds a record with exactly one token, a request has
    ended in failure, and the states from which at most one request can
    still succeed. *)
Definition holds_one (t : Task) : Prop :=
  match t with
  | Checked _ _ ua => availableTokens ua = 1
  | _ => True
  end.

Definition balance_0_or_1 (userId : string) (w : World) : Prop :=
  balance w userId = Some 1 ∨ balance w userId = Some 0.

Definition failed (t : Task) : Prop :=
  ∃ r, t = Finished r ∧ succeeded r = false.

Definition decided (userId : string) (a b : Task) (w : World) : Prop :=
  failed a ∨ failed b ∨
  (a = Pending ∧ balance w userId = Some 0) ∨
  (b = Pending ∧ balance w userId = Some 0).

Definition unfinished (t : Task) : Prop :=
  match t with
  | Finished _ => False
  | _ => True
  end.

(** ** Sample data *)

Definition sample_metadata : Metadata :=
  {| title := "Sunset"; description := "Sunset over a lake"; keywords := ["sunset"; "lake"] |}.

Definition sample_meta : MetaResult :=
  {| imagePath := "public/temp/exiftool/a.jpg"; metadata := sample_metadata;
     staged := "jpeg bytes" |}.

(** An environment in which every call goes through. *)
Definition env_ok : Env :=
  {| urlEndpoint := "https://s3.example/bucket"; uuidv4 := "batch-1";
     new_batch_id := "doc-1"; new_image_id := "img-1";
     findUser_rejects := None; processImage_result := inr sample_meta;
     put_rejects := None; pushImage_rejects := None; save_rejects := None;
     findBatch_rejects := None; pullImage_rejects := None;
     deleteObject_rejects := None; deleteBatch_rejects := None |}.

Definition with_processImage (r : string + MetaResult) (env : Env) : Env :=
  {| urlEndpoint := urlEndpoint env; uuidv4 := uuidv4 env;
     new_batch_id := new_batch_id env; new_image_id := new_image_id env;
     findUser_rejects := findUser_rejects env; processImage_result := r;
     put_rejects := put_rejects env; pushImage_rejects := pushImage_rejects env;
     save_rejects := save_rejects env; findBatch_rejects := findBatch_rejects env;
     pullImage_rejects := pullImage_rejects env;
     deleteObject_rejects := deleteObject_rejects env;
     deleteBatch_rejects := deleteBatch_rejects env |}.

Definition with_pushImage_rejects (r : option string) (env : Env) : Env :=
  {| urlEndpoint := urlEndpoint env; uuidv4 := uuidv4 env;
     new_batch_id := new_batch_id env; new_image_id := new_image_id env;
     findUser_rejects := findUser_rejects env;
     processImage_result := processImage_result env;
     put_rejects := put_rejects env; pushImage_rejects := r;
     save_rejects := save_rejects env; findBatch_rejects := findBatch_rejects env;
     pullImage_rejects := pullImage_rejects env;
     deleteObject_rejects := deleteObject_rejects env;
     deleteBatch_rejects := deleteBatch_rejects env |}.

Definition with_save_rejects (r : option string) (env : Env) : Env :=
  {| urlEndpoint := urlEndpoint env; uuidv4 := uuidv4 env;
     new_batch_id := new_batch_id env; new_image_id := new_image_id env;
     findUser_rejects := findUser_rejects env;
     processImage_result := processImage_result env;
     put_rejects := put_rejects env; pushImage_rejects := pushImage_rejects env;
     save_rejects := r; findBatch_rejects := findBatch_rejects env;
     pullImage_rejects := pullImage_rejects env;
     deleteObject_rejects := deleteObject_rejects env;
     deleteBatch_rejects := deleteBatch_rejects env |}.

Definition with_deleteObject_rejects (r : option string) (env : Env) : Env :=
  {| urlEndpoint := urlEndpoint env; uuidv4 := uuidv4 env;
     new_batch_id := new_batch_id env; new_image_id := new_image_id env;
     findUser_rejects := findUser_rejects env;
     processImage_result := processImage_result env;
     put_rejects := put_rejects env; pushImage_rejects := pushImage_rejects env;
     save_rejects := save_rejects env; findBatch_rejects := findBatch_rejects env;
     pullImage_rejects := pullImage_rejects env;
     deleteObject_rejects := r;
     deleteBatch_rejects := deleteBatch_rejects env |}.

Definition user_with (n : Z) : UserActivityDoc :=
  {| availableTokens := n; totalImageProcessed := 0; tokenHistory := [] |}.

(** A store where user [u1] holds [n] tokens and nothing else is recorded. *)
Definition world_with (n : Z) : World :=
  {| UserActivity := {[ "u1" := user_with n ]}; ImagesModel := [];
     bucket := ∅; fs := ∅ |}.

Definition upload_of (name : string) : UploadRequest :=
  {| file := Some {| filename := name; mimetype := "image/jpeg" |};
     titleLength := Some "80"; descriptionLength := Some "120";
     keywordCount := Some "45"; body_batchId := None; user_id := "u1" |}.

Definition sample_details : ImageDetails :=
  {| imageName := "a.jpg";
     imageUrl := "https://s3.example/bucket/uploads/u1/batch-1/a.jpg";
     image_metadata := sample_metadata |}.

(** A store with one batch of one stored image. *)
Definition world_one_image : World :=
  {| UserActivity := {[ "u1" := user_with 0 ]};
     ImagesModel :=
       [{| _id := "doc-1"; batch_userId := "u1"; batch_batchId := "batch-1";
           images := [{| image_id := "img-1"; details := sample_details |}] |}];
     bucket := {[ "uploads/u1/batch-1/a.jpg" :=
                  {| Body := "jpeg bytes"; ContentType := "image/jpeg" |} ]};
     fs := ∅ |}.

Definition delete_of (imageId batchId : string) : DeleteRequest :=
  {| query_imageId := Some imageId; query_batchId := Some batchId;
     delete_user_id := "u1" |}.

(** A second environment, for a request served next to one in [env_ok]. *)
Definition env_ok' : Env :=
  {| urlEndpoint := "https://s3.example/bucket"; uuidv4 := "batch-2";
     new_batch_id := "doc-2"; new_image_id := "img-2";
     findUser_rejects := None;
     processImage_result :=
       inr {| imagePath := "public/temp/exiftool/b.jpg"; metadata := sample_metadata;
              staged := "more jpeg bytes" |};
     put_rejects := None; pushImage_rejects := None; save_rejects := None;
     findBatch_rejects := None; pullImage_rejects := None;
     deleteObject_rejects := None; deleteBatch_rejects := None |}.

End Server.

Module UploadForm.

(** ** Data *)

(** A browser [File]: what the form reads of it. *)
Record File := {
  name : string;
  type : string;
}.

Record FailedImage := {
  filename : string;
  error : string;
}.

Record ProcessedImage := {
  imageName : string;
  imageUrl : string;
}.

(** Modelled from the spec: the types [UploadResponse] and [UserPlanData] of
    [@/types/metadata], which is not among the sources. The response is JSON
    with [success], [message] and [data: { batchId, successfulImages,
    failedImages: [{filename, error}], remainingTokens }]; the form tests
    [failedImages] before reading it, so it may be absent. *)
Record UploadData := {
  batchId : string;
  successfulImages : list ProcessedImage;
  failedImages : option (list FailedImage);
  remainingTokens : Z;
}.

Record UploadResponse := {
  success : bool;
  message : string;
  data : UploadData;
}.

Record UserPlanData := {
  availableTokens : Z;
}.

Inductive ToastKind := toast_error | toast_info | toast_success.

Record Toast := {
  kind : ToastKind;
  text : string;
}.

(** The body of an error response, as far as the form reads it. *)
Record ErrorResponse := {
  error_status : option string;
  error_message : option string;
}.

(** The body of an answer with a status from 200 to 299 that parses, but to
    a value that is no [UploadResponse]: [null], or another value from which
    [data] reads as [undefined] or [null] (a number, a string, a boolean, an
    array, an object without [data]). The promise resolves with it all the
    same, and the handler runs into a [TypeError] where it reads
    [response.data.successfulImages]; [typeError] is the message of that
    error, in the wording of the engine. A body whose [data] is an object
    is taken to hold an [UploadData]. *)
Inductive Malformed :=
| null (typeError : string)
| other (typeError : string).

Definition typeError_of (v : Malformed) : string :=
  match v with
  | null e | other e => e
  end.

(** What [uploadPromise] resolves with. Its TypeScript type is
    [UploadResponse]; at run time it is whatever [JSON.parse] gives. *)
Inductive Parsed :=
| wellformed (response : UploadResponse)
| malformed (v : Malformed).

(** The [XMLHttpRequest] when one of its handlers fires. [JSON.parse] of
    [responseText] is given as each branch reads it.
    - In the branch of a status from 200 to 299: [parsedResponse] when the
      body parses to an [UploadResponse], [parsedOther] when it parses to
      another value; both are [None] where [JSON.parse] throws.
    - In the other branches: [parsedError] holds what the reads of [status]
      and [message] give; it is [None] where [JSON.parse] throws or gives
      [null] (the read from [null] throws, and the same [catch] answers). *)
Record Xhr := {
  status : Z;
  statusText : string;
  responseText : string;
  parsedResponse : option UploadResponse;
  parsedOther : option Malformed;
  parsedError : option ErrorResponse;
}.

(** The events that end a request. The code sets [xhr.timeout = 3600000]
    and registers [onload], [onerror] and [onabort], but no handler for the
    [timeout] event: [timed_out] is that event. *)
Inductive XhrEvent :=
| onload (xhr : Xhr)
| onerror (xhr : Xhr)
| onabort
| timed_out.

(** How the exchange with the server ends: [getBaseApi] or [getAccessToken]
    rejects before a request exists, or the request ends with an event. *)
Inductive Transport :=
| SetupFailed (msg : string)
| Settled (ev : XhrEvent).

(** How [uploadPromise] ends; [pending]: it never settles. *)
Inductive Settlement :=
| resolved (value : Parsed)
| rejected (errorMessage : string)
| pending.

Record State := {
  (** Core states *)
  files : list File;
  tokens : option UserPlanData;
  (** UI states *)
  isDragging : bool;
  (** Processing states *)
  loading : bool;
  uploadingStarted : bool;
  uploadInProgress : bool;
  isRegenerating : bool;
  progress : Z;
  processedCount : nat;
  (** Dialog states *)
  showModal : bool;
  showConfirmDialog : bool;
  inSufficientTokenModal : bool;
  (** Result states *)
  uploadResponse : option UploadResponse;
  failedUploads : list FailedImage;
  failedFiles : list File;
  (** [xhrRef.current], the requests [abort()] was called on, the toasts shown *)
  xhrRef : option nat;
  aborted : list nat;
  toasts : list Toast;
  (** Set once [setUploadResponse] was given a value of the kind [other]:
      the state then holds a value without [data], and every render from
      then on throws a [TypeError] where the component reads
      [uploadResponse?.data.batchId] for the dependencies of
      [regenerateFailedFiles] (line 611), so that no render goes through
      any more and no handler is made from this state. [uploadResponse]
      above stays the value of the last render that went through. *)
  renderThrows : bool;
}.

(** The state setters of [useState], one per field the handlers write. *)
Definition setFiles (v : list File) (s : State) : State :=
  {| files := v; tokens := tokens s; isDragging := isDragging s;
     loading := loading s; uploadingStarted := uploadingStarted s;
     uploadInProgress := uploadInProgress s; isRegenerating := isRegenerating s;
     progress := progress s; processedCount := processedCount s;
     showModal := showModal s; showConfirmDialog := showConfirmDialog s;
     inSufficientTokenModal := inSufficientTokenModal s;
     uploadResponse := uploadResponse s; failedUploads := failedUploads s;
     failedFiles := failedFiles s; xhrRef := xhrRef s; aborted := aborted s;
     toasts := toasts s; renderThrows := renderThrows s |}.
Definition setIsDragging (v : bool) (s : State) : State :=
  {| files := files s; tokens := tokens s; isDragging := v; loading := loading s;
     uploadingStarted := uploadingStarted s; uploadInProgress := uploadInProgress s;
     isRegenerating := isRegenerating s; progress := progress s;
     processedCount := processedCount s; showModal := showModal s;
     showConfirmDialog := showConfirmDialog s;
     inSufficientTokenModal := inSufficientTokenModal s;
     uploadResponse := uploadResponse s; failedUploads := failedUploads s;
     failedFiles := failedFiles s; xhrRef := xhrRef s; aborted := aborted s;
     toasts := toasts s; renderThrows := renderThrows s |}.
Definition setLoading (v : bool) (s : State) : State :=
  {| files := files s; tokens := tokens s; isDragging := isDragging s; loading := v;
     uploadingStarted := uploadingStarted s; uploadInProgress := uploadInProgress s;
     isRegenerating := isRegenerating s; progress := progress s;
     processedCount := processedCount s; showModal := showModal s;
     showConfirmDialog := showConfirmDialog s;
     inSufficientTokenModal := inSufficientTokenModal s;
     uploadResponse := uploadResponse s; failedUploads := failedUploads s;
     failedFiles := failedFiles s; xhrRef := xhrRef s; aborted := aborted s;
     toasts := toasts s; renderThrows := renderThrows s |}.
Definition setUploadingStarted (v : bool) (s : State) : State :=
  {| files := files s; tokens := tokens s; isDragging := isDragging s;
     loading := loading s; uploadingStarted := v;
     uploadInProgress := uploadInProgress s; isRegenerating := isRegenerating s;
     progress := progress s; processedCount := processedCount s;
     showModal := showModal s; showConfirmDialog := showConfirmDialog s;
     inSufficientTokenModal := inSufficientTokenModal s;
     uploadResponse := uploadResponse s; failedUploads := failedUploads s;
     failedFiles := failedFiles s; xhrRef := xhrRef s; aborted := aborted s;
     toasts := toasts s; renderThrows := renderThrows s |}.
Definition setUploadInProgress (v : bool) (s : State) : State :=
  {| files := files s; tokens := tokens s; isDragging := isDragging s;
     loading := loading s; uploadingStarted := uploadingStarted s;
     uploadInProgress := v; isRegenerating := isRegenerating s;
     progress := progress s; processedCount := processedCount s;
     showModal := showModal s; showConfirmDialog := showConfirmDialog s;
     inSufficientTokenModal := inSufficientTokenModal s;
     uploadResponse := uploadResponse s; failedUploads := failedUploads s;
     failedFiles := failedFiles s; xhrRef := xhrRef s; aborted := aborted s;
     toasts := toasts s; renderThrows := renderThrows s |}.
Definition setIsRegenerating (v : bool) (s : State) : State :=
  {| files := files s; tokens := tokens s; isDragging := isDragging s;
     loading := loading s; uploadingStarted := uploadingStarted s;
     uploadInProgress := uploadInProgress s; isRegenerating := v;
     progress := progress s; processedCount := processedCount s;
     showModal := showModal s; showConfirmDialog := showConfirmDialog s;
     inSufficientTokenModal := inSufficientTokenModal s;
     uploadResponse := uploadResponse s; failedUploads := failedUploads s;
     failedFiles := failedFiles s; xhrRef := xhrRef s; aborted := aborted s;
     toasts := toasts s; renderThrows := renderThrows s |}.
Definition setProgress (v : Z) (s : State) : State :=
  {| files := files s; tokens := tokens s; isDragging := isDragging s;
     loading := loading s; uploadingStarted := uploadingStarted s;
     uploadInProgress := uploadInProgress s; isRegenerating := isRegenerating s;
     progress := v; processedCount := processedCount s; showModal := showModal s;
     showConfirmDialog := showConfirmDialog s;
     inSufficientTokenModal := inSufficientTokenModal s;
     uploadResponse := uploadResponse s; failedUploads := failedUploads s;
     failedFiles := failedFiles s; xhrRef := xhrRef s; aborted := aborted s;
     toasts := toasts s; renderThrows := renderThrows s |}.
Definition setProcessedCount (v : nat) (s : State) : State :=
  {| files := files s; tokens := tokens s; isDragging := isDragging s;
     loading := loading s; uploadingStarted := uploadingStarted s;
     uploadInProgress := uploadInProgress s; isRegenerating := isRegenerating s;
     progress := progress s; processedCount := v; showModal := showModal s;
     showConfirmDialog := showConfirmDialog s;
     inSufficientTokenModal := inSufficientTokenModal s;
     uploadResponse := uploadResponse s; failedUploads := failedUploads s;
     failedFiles := failedFiles s; xhrRef := xhrRef s; aborted := aborted s;
     toasts := toasts s; renderThrows := renderThrows s |}.
Definition setShowModal (v : bool) (s : State) : State :=
  {| files := files s; tokens := tokens s; isDragging := isDragging s;
     loading := loading s; uploadingStarted := uploadingStarted s;
     uploadInProgress := uploadInProgress s; isRegenerating := isRegenerating s;
     progress := progress s; processedCount := processedCount s; showModal := v;
     showConfirmDialog := showConfirmDialog s;
     inSufficientTokenModal := inSufficientTokenModal s;
     uploadResponse := uploadResponse s; failedUploads := failedUploads s;
     failedFiles := failedFiles s; xhrRef := xhrRef s; aborted := aborted s;
     toasts := toasts s; renderThrows := renderThrows s |}.
Definition setShowConfirmDialog (v : bool) (s : State) : State :=
  {| files := files s; tokens := tokens s; isDragging := isDragging s;
     loading := loading s; uploadingStarted := uploadingStarted s;
     uploadInProgress := uploadInProgress s; isRegenerating := isRegenerating s;
     progress := progress s; processedCount := processedCount s;
     showModal := showModal s; showConfirmDialog := v;
     inSufficientTokenModal := inSufficientTokenModal s;
     uploadResponse := uploadResponse s; failedUploads := failedUploads s;
     failedFiles := failedFiles s; xhrRef := xhrRef s; aborted := aborted s;
     toasts := toasts s; renderThrows := renderThrows s |}.
Definition setInSufficientTokenModal (v : bool) (s : State) : State :=
  {| files := files s; tokens := tokens s; isDragging := isDragging s;
     loading := loading s; uploadingStarted := uploadingStarted s;
     uploadInProgress := uploadInProgress s; isRegenerating := isRegenerating s;
     progress := progress s; processedCount := processedCount s;
     showModal := showModal s; showConfirmDialog := showConfirmDialog s;
     inSufficientTokenModal := v; uploadResponse := uploadResponse s;
     failedUploads := failedUploads s; failedFiles := failedFiles s;
     xhrRef := xhrRef s; aborted := aborted s; toasts := toasts s; renderThrows := renderThrows s |}.
Definition setUploadResponse (v : option UploadResponse) (s : State) : State :=
  {| files := files s; tokens := tokens s; isDragging := isDragging s;
     loading := loading s; uploadingStarted := uploadingStarted s;
     uploadInProgress := uploadInProgress s; isRegenerating := isRegenerating s;
     progress := progress s; processedCount := processedCount s;
     showModal := showModal s; showConfirmDialog := showConfirmDialog s;
     inSufficientTokenModal := inSufficientTokenModal s; uploadResponse := v;
     failedUploads := failedUploads s; failedFiles := failedFiles s;
     xhrRef := xhrRef s; aborted := aborted s; toasts := toasts s; renderThrows := renderThrows s |}.
Definition setFailedUploads (v : list FailedImage) (s : State) : State :=
  {| files := files s; tokens := tokens s; isDragging := isDragging s;
     loading := loading s; uploadingStarted := uploadingStarted s;
     uploadInProgress := uploadInProgress s; isRegenerating := isRegenerating s;
     progress := progress s; processedCount := processedCount s;
     showModal := showModal s; showConfirmDialog := showConfirmDialog s;
     inSufficientTokenModal := inSufficientTokenModal s;
     uploadResponse := uploadResponse s; failedUploads := v;
     failedFiles := failedFiles s; xhrRef := xhrRef s; aborted := aborted s;
     toasts := toasts s; renderThrows := renderThrows s |}.
Definition setFailedFiles (v : list File) (s : State) : State :=
  {| files := files s; tokens := tokens s; isDragging := isDragging s;
     loading := loading s; uploadingStarted := uploadingStarted s;
     uploadInProgress := uploadInProgress s; isRegenerating := isRegenerating s;
     progress := progress s; processedCount := processedCount s;
     showModal := showModal s; showConfirmDialog := showConfirmDialog s;
     inSufficientTokenModal := inSufficientTokenModal s;
     uploadResponse := uploadResponse s; failedUploads := failedUploads s;
     failedFiles := v; xhrRef := xhrRef s; aborted := aborted s;
     toasts := toasts s; renderThrows := renderThrows s |}.

(** [xhrRef.current = v]. *)
Definition setXhrRef (v : option nat) (s : State) : State :=
  {| files := files s; tokens := tokens s; isDragging := isDragging s;
     loading := loading s; uploadingStarted := uploadingStarted s;
     uploadInProgress := uploadInProgress s; isRegenerating := isRegenerating s;
     progress := progress s; processedCount := processedCount s;
     showModal := showModal s; showConfirmDialog := showConfirmDialog s;
     inSufficientTokenModal := inSufficientTokenModal s;
     uploadResponse := uploadResponse s; failedUploads := failedUploads s;
     failedFiles := failedFiles s; xhrRef := v; aborted := aborted s;
     toasts := toasts s; renderThrows := renderThrows s |}.

(** [xhr.abort()]. *)
Definition abort (xhr : nat) (s : State) : State :=
  {| files := files s; tokens := tokens s; isDragging := isDragging s;
     loading := loading s; uploadingStarted := uploadingStarted s;
     uploadInProgress := uploadInProgress s; isRegenerating := isRegenerating s;
     progress := progress s; processedCount := processedCount s;
     showModal := showModal s; showConfirmDialog := showConfirmDialog s;
     inSufficientTokenModal := inSufficientTokenModal s;
     uploadResponse := uploadResponse s; failedUploads := failedUploads s;
     failedFiles := failedFiles s; xhrRef := xhrRef s; aborted := aborted s ++ [xhr];
     toasts := toasts s; renderThrows := renderThrows s |}.

(** [toast.error(..)], [toast.info(..)], [toast.success(..)]. *)
Definition toast (t : Toast) (s : State) : State :=
  {| files := files s; tokens := tokens s; isDragging := isDragging s;
     loading := loading s; uploadingStarted := uploadingStarted s;
     uploadInProgress := uploadInProgress s; isRegenerating := isRegenerating s;
     progress := progress s; processedCount := processedCount s;
     showModal := showModal s; showConfirmDialog := showConfirmDialog s;
     inSufficientTokenModal := inSufficientTokenModal s;
     uploadResponse := uploadResponse s; failedUploads := failedUploads s;
     failedFiles := failedFiles s; xhrRef := xhrRef s; aborted := aborted s;
     toasts := toasts s ++ [t]; renderThrows := renderThrows s |}.

(** [setUploadResponse(v)] for a value [v] of the kind [other]. *)
Definition setUploadResponse_other (s : State) : State :=
  {| files := files s; tokens := tokens s; isDragging := isDragging s;
     loading := loading s; uploadingStarted := uploadingStarted s;
     uploadInProgress := uploadInProgress s; isRegenerating := isRegenerating s;
     progress := progress s; processedCount := processedCount s;
     showModal := showModal s; showConfirmDialog := showConfirmDialog s;
     inSufficientTokenModal := inSufficientTokenModal s;
     uploadResponse := uploadResponse s; failedUploads := failedUploads s;
     failedFiles := failedFiles s; xhrRef := xhrRef s; aborted := aborted s;
     toasts := toasts s; renderThrows := true |}.

Definition initial : State :=
  {| files := []; tokens := None; isDragging := false; loading := false;
     uploadingStarted := false; uploadInProgress := false; isRegenerating := false;
     progress := 0; processedCount := 0; showModal := false;
     showConfirmDialog := false; inSufficientTokenModal := false;
     uploadResponse := None; failedUploads := []; failedFiles := [];
     xhrRef := None; aborted := []; toasts := []; renderThrows := false |}.

(** ** Derived state *)

Definition hasInsufficientTokens (s : State) : bool :=
  match tokens s, files s with
  | None, _ => false
  | _, [] => false
  | Some t, _ => (availableTokens t <? Z.of_nat (length (files s)))%Z
  end.

Inductive UploadStatus := none | allSuccess | partialSuccess | allFailed.

Definition uploadStatus (s : State) : UploadStatus :=
  match uploadResponse s with
  | None => none
  | Some _ =>
      let totalFiles := length (files s) in
      let failedCount := length (failedUploads s) in
      if failedCount =? totalFiles then allFailed
      else if 0 <? failedCount then partialSuccess
      else allSuccess
  end.

(** ** File management handlers *)

(** [file.type.startsWith("image/")]. *)
Definition isImage (file : File) : bool := String.prefix "image/" (type file).

Definition too_many : Toast :=
  {| kind := toast_error;
     text := "Maximum 100 images allowed. Please remove some files before adding more." |}.

(** [e.target.files] is [null] for an input that is not a file input. The
    callback is recreated whenever [files.length] changes, so the length it
    compares is the one of the current state. *)
Definition handleFileChange (target_files : option (list File)) (s : State) : State :=
  match target_files with
  | Some fl =>
      let newFiles := List.filter isImage fl in
      if 100 <? length (files s) + length newFiles then toast too_many s
      else setFiles (files s ++ newFiles) s
  | None => s
  end.

(** [files.filter((_, i) => i !== index)]. *)
Fixpoint filter_index {A} (p : nat -> bool) (i : nat) (l : list A) : list A :=
  match l with
  | [] => []
  | x :: l' => if p i then x :: filter_index p (S i) l' else filter_index p (S i) l'
  end.

Definition removeFile (index : nat) (s : State) : State :=
  setFiles (filter_index (fun i => negb (i =? index)) 0 (files s)) s.

Definition clearAllFiles (s : State) : State := setFiles [] s.

Definition handleDragOver (s : State) : State := setIsDragging true s.

Definition handleDragLeave (s : State) : State := setIsDragging false s.

Definition handleDrop (dataTransfer_files : option (list File)) (s : State) : State :=
  let s := setIsDragging false s in
  match dataTransfer_files with
  | Some fl =>
      let newFiles := List.filter isImage fl in
      if 100 <? length (files s) + length newFiles then toast too_many s
      else setFiles (files s ++ newFiles) s
  | None => s
  end.

(** ** Upload handlers *)

Definition handleGenerateMore (s : State) : State :=
  setFailedFiles [] (setFailedUploads [] (setProgress 0 (setProcessedCount 0
    (setUploadResponse None (setShowModal false (setFiles [] s)))))).

Definition cancelled : string := "Upload cancelled by user".

Definition cancelUpload (s : State) : State :=
  let s := match xhrRef s with
           | Some xhr => setXhrRef None (abort xhr s)
           | None => s
           end in
  toast {| kind := toast_info; text := "Upload process cancelled" |}
    (setUploadInProgress false (setUploadingStarted false (setLoading false
      (setShowModal false (setShowConfirmDialog false s))))).

(** [`Server error: ${xhr.status} ${xhr.statusText}`]. *)
Definition server_error (xhr : Xhr) : string :=
  "Server error: " +:+ pretty (status xhr) +:+ " " +:+ statusText xhr.

(** [`Server error: ${xhr.status || "unknown"} ${xhr.statusText || "error"}`]. *)
Definition server_error_unknown (xhr : Xhr) : string :=
  "Server error: " +:+ (if (status xhr =? 0)%Z then "unknown" else pretty (status xhr))
    +:+ " " +:+ js_or (Some (statusText xhr)) "error".

(** How [uploadPromise] ends with the event [ev]: [rejected msg] is a
    rejection with [new Error(msg)]. On [onload] with a status from 200 to
    299 it resolves with whatever [JSON.parse] gives, and rejects only where
    [JSON.parse] throws. No handler settles it on [timed_out]. *)
Definition uploadPromise (ev : XhrEvent) : Settlement :=
  match ev with
  | onload xhr =>
      if (200 <=? status xhr)%Z && (status xhr <? 300)%Z then
        match parsedResponse xhr with
        | Some response => resolved (wellformed response)
        | None =>
            match parsedOther xhr with
            | Some v => resolved (malformed v)
            | None =>
                if negb (String.eqb (responseText xhr) EmptyString) then
                  rejected "Invalid response format from server. The response was received but could not be processed."
                else rejected "Failed to parse server response"
            end
        end
      else
        match parsedError xhr with
        | Some errorResponse =>
            if bool_decide (error_status errorResponse = Some "error") &&
               bool_decide (error_message errorResponse = Some "invalid token")
            then rejected "Authentication failed: Your session has expired. Please log in again."
            else rejected (js_or (error_message errorResponse) (server_error xhr))
        | None => rejected (server_error_unknown xhr)
        end
  | onerror xhr =>
      if (status xhr =? 0)%Z && String.eqb (responseText xhr) EmptyString then
        rejected "Server unavailable. Please check your internet connection and try again later."
      else
        match parsedError xhr with
        | Some errorResponse => rejected (js_or (error_message errorResponse) (server_error xhr))
        | None => rejected (server_error_unknown xhr)
        end
  | onabort => rejected cancelled
  | timed_out => pending
  end.

(** [xhrRef.current = xhr] and [xhr.send(formData)]. *)
Definition handleFileUpload_send (xhr : nat) (s : State) : State :=
  setXhrRef (Some xhr) s.

(** [uploadResponse?.data.successfulImages || []]. *)
Definition previousSuccessfulImages (closure : State) : list ProcessedImage :=
  match uploadResponse closure with
  | Some r => successfulImages (data r)
  | None => []
  end.

(** The [catch] of [handleFileUpload]; [errorMessage] is the message of
    the error caught, which it throws again. *)
Definition handleFileUpload_catch (isRegeneration : bool) (errorMessage : string)
    (s : State) : State :=
  let s :=
    if negb (String.eqb errorMessage cancelled) then
      setFailedUploads
        [{| filename := if isRegeneration then "Batch regeneration" else "Batch upload";
            error := errorMessage |}] s
    else s in
  setXhrRef None s.

(** [handleFileUpload] from the point where [uploadPromise] (or one of the
    awaits before it) ends. [closure] is the state the callback was
    created in: it reads [files], [failedFiles] and [uploadResponse] from
    there; the setters act on the current state. The second component is
    what the call resolves to, or the message of the error it rethrows;
    it is [None] when the promise stays pending, for then the call never
    gets past its [await].

    With a value that is no [UploadResponse] the handler sets the progress,
    a submission also puts the value into [uploadResponse] (line 510), and
    the next read, [response.data.successfulImages], throws the
    [TypeError] that the [catch] then treats like any other error. *)
Definition handleFileUpload_settle (closure : State) (isRegeneration : bool)
    (settled : Settlement) (s : State)
  : State * option (string + UploadResponse) :=
  match settled with
  | pending => (s, None)
  | rejected errorMessage =>
      (handleFileUpload_catch isRegeneration errorMessage s, Some (inl errorMessage))
  | resolved (malformed v) =>
      let s := setProgress 100 s in
      let s :=
        if isRegeneration then s
        else match v with
             | null _ => setUploadResponse None s
             | other _ => setUploadResponse_other s
             end in
      (handleFileUpload_catch isRegeneration (typeError_of v) s,
       Some (inl (typeError_of v)))
  | resolved (wellformed response) =>
      let s := setProgress 100 s in
      let s :=
        if isRegeneration then
          let newSuccessfulImages := successfulImages (data response) in
          let mergedResponse :=
            {| success := success response;
               message := message response;
               data := {| batchId := batchId (data response);
                          successfulImages :=
                            previousSuccessfulImages closure ++ newSuccessfulImages;
                          failedImages := failedImages (data response);
                          remainingTokens := remainingTokens (data response) |} |} in
          let previousSuccessCount := length (previousSuccessfulImages closure) in
          let newSuccessCount := length (successfulImages (data response)) in
          setProcessedCount (previousSuccessCount + newSuccessCount)
            (setUploadResponse (Some mergedResponse) s)
        else
          setProcessedCount (length (successfulImages (data response)))
            (setUploadResponse (Some response) s) in
      let s :=
        match failedImages (data response) with
        | Some ((_ :: _) as failed) =>
            let filesToRegenerate :=
              if isRegeneration then failedFiles closure else files closure in
            let newFailedFiles :=
              List.filter
                (fun file =>
                   existsb (fun f => String.eqb (filename f) (name file)) failed)
                filesToRegenerate in
            setFailedFiles newFailedFiles (setFailedUploads failed s)
        | _ => setFailedFiles [] (setFailedUploads [] s)
        end in
      (setXhrRef None s, Some (inr response))
  end.

Definition handleFileUpload (closure : State) (isRegeneration : bool) (xhr : nat)
    (t : Transport) (s : State) : State * option (string + UploadResponse) :=
  match t with
  | SetupFailed msg => handleFileUpload_settle closure isRegeneration (rejected msg) s
  | Settled ev =>
      handleFileUpload_settle closure isRegeneration (uploadPromise ev)
        (handleFileUpload_send xhr s)
  end.

(** How the awaits of [handleFileUpload] end. *)
Definition transport_result (t : Transport) : Settlement :=
  match t with
  | SetupFailed msg => rejected msg
  | Settled ev => uploadPromise ev
  end.

(** [handleSubmit] up to the call of [handleFileUpload]; [false] when it
    returns early. *)
Definition handleSubmit_begin (s : State) : State * bool :=
  match files s with
  | [] => (toast {| kind := toast_error; text := "Please upload at least one image" |} s, false)
  | _ :: _ =>
      if hasInsufficientTokens s then (setInSufficientTokenModal true s, false)
      else
        (setUploadInProgress true (setFailedFiles [] (setFailedUploads []
           (setProgress 0 (setProcessedCount 0 (setShowModal true
             (setUploadingStarted true (setLoading true s))))))), true)
  end.

(** The [catch] and [finally] of [handleSubmit]. *)
Definition handleSubmit_end (r : string + UploadResponse) (s : State) : State :=
  let s :=
    match r with
    | inl msg =>
        if negb (String.eqb msg cancelled) then
          toast {| kind := toast_error; text := "Upload failed. Please try again." |} s
        else s
    | inr _ => s
    end in
  setUploadInProgress false (setUploadingStarted false (setLoading false s)).

(** When [handleFileUpload] never gets past its [await], neither the
    [catch] nor the [finally] of [handleSubmit] runs. *)
Definition handleSubmit (xhr : nat) (t : Transport) (s : State) : State :=
  let (s1, started) := handleSubmit_begin s in
  if started then
    let (s2, r) := handleFileUpload s false xhr t s1 in
    match r with
    | Some r => handleSubmit_end r s2
    | None => s2
    end
  else s1.

(** [regenerateFailedFiles] up to the call of [handleFileUpload]. *)
Definition regenerateFailedFiles_begin (s : State) : State * bool :=
  match failedFiles s with
  | [] => (s, false)
  | _ :: _ =>
      (setProgress 0 (setUploadInProgress true (setUploadingStarted true
         (setLoading true (setIsRegenerating true s)))), true)
  end.

(** The rest of [regenerateFailedFiles]. The success toast counts with the
    [failedFiles] of the closure, which is [regenerateFiles]. *)
Definition regenerateFailedFiles_end (closure : State) (r : string + UploadResponse)
    (s : State) : State :=
  let regenerateFiles := failedFiles closure in
  let s :=
    match r with
    | inr _ =>
        toast {| kind := toast_success;
                 text := "Successfully regenerated " +:+
                         pretty (length regenerateFiles - length (failedFiles closure)) +:+
                         " files" |} s
    | inl msg =>
        if negb (String.eqb msg cancelled) then
          setFailedFiles regenerateFiles
            (toast {| kind := toast_error; text := "Failed to regenerate files" |} s)
        else s
    end in
  setIsRegenerating false (setUploadInProgress false (setUploadingStarted false
    (setLoading false s))).

Definition regenerateFailedFiles (xhr : nat) (t : Transport) (s : State) : State :=
  let (s1, started) := regenerateFailedFiles_begin s in
  if started then
    let (s2, r) := handleFileUpload s true xhr t s1 in
    match r with
    | Some r => regenerateFailedFiles_end s r s2
    | None => s2
    end
  else s1.

(** The user confirms [Yes, cancel upload] while the request of a submission
    (or of a regeneration) is in flight: [cancelUpload] runs, the request
    fires [onabort], and the pending [handleFileUpload] and its caller run
    to their end. *)
Definition handleSubmit_cancelled (xhr : nat) (s : State) : State :=
  let (s1, started) := handleSubmit_begin s in
  if started then
    let s2 := cancelUpload (handleFileUpload_send xhr s1) in
    let (s3, r) := handleFileUpload_settle s false (uploadPromise onabort) s2 in
    match r with
    | Some r => handleSubmit_end r s3
    | None => s3
    end
  else s1.

Definition regenerateFailedFiles_cancelled (xhr : nat) (s : State) : State :=
  let (s1, started) := regenerateFailedFiles_begin s in
  if started then
    let s2 := cancelUpload (handleFileUpload_send xhr s1) in
    let (s3, r) := handleFileUpload_settle s true (uploadPromise onabort) s2 in
    match r with
    | Some r => regenerateFailedFiles_end s r s3
    | None => s3
    end
  else s1.

(** ** The form as a transition system *)

Inductive Action :=
| FileChange (target_files : option (list File))
| Drop (dataTransfer_files : option (list File))
| DragOver
| DragLeave
| RemoveFile (index : nat)
| ClearAllFiles
| GenerateMore
| Submit (xhr : nat) (t : Transport)
| SubmitCancelled (xhr : nat)
| Regenerate (xhr : nat) (t : Transport)
| RegenerateCancelled (xhr : nat)
| Cancel
| TokensFetched (t : option UserPlanData).

Definition setTokens (v : option UserPlanData) (s : State) : State :=
  {| files := files s; tokens := v; isDragging := isDragging s; loading := loading s;
     uploadingStarted := uploadingStarted s; uploadInProgress := uploadInProgress s;
     isRegenerating := isRegenerating s; progress := progress s;
     processedCount := processedCount s; showModal := showModal s;
     showConfirmDialog := showConfirmDialog s;
     inSufficientTokenModal := inSufficientTokenModal s;
     uploadResponse := uploadResponse s; failedUploads := failedUploads s;
     failedFiles := failedFiles s; xhrRef := xhrRef s; aborted := aborted s;
     toasts := toasts s; renderThrows := renderThrows s |}.

(** One event of the form. [Cancel] is [cancelUpload] on its own, as after
    a request that has timed out. Once the render throws there is no
    handler left to take an event. *)
Definition step (a : Action) (s : State) : State :=
  if renderThrows s then s else
  match a with
  | FileChange fl => handleFileChange fl s
  | Drop fl => handleDrop fl s
  | DragOver => handleDragOver s
  | DragLeave => handleDragLeave s
  | RemoveFile i => removeFile i s
  | ClearAllFiles => clearAllFiles s
  | GenerateMore => handleGenerateMore s
  | Submit xhr t => handleSubmit xhr t s
  | SubmitCancelled xhr => handleSubmit_cancelled xhr s
  | Regenerate xhr t => regenerateFailedFiles xhr t s
  | RegenerateCancelled xhr => regenerateFailedFiles_cancelled xhr s
  | Cancel => cancelUpload s
  | TokensFetched t => setTokens t s
  end.

Inductive reachable : State -> Prop :=
| reachable_initial : reachable initial
| reachable_step a s : reachable s -> reachable (step a s).

(** ** Sample data *)

Definition jpg (n : string) : File := {| name := n; type := "image/jpeg" |}.

Definition gif : File := {| name := "anim.gif"; type := "image/gif" |}.

Definition processed (n : string) : ProcessedImage :=
  {| imageName := n; imageUrl := "https://s3.example/bucket/uploads/u1/batch-1/" +:+ n |}.

(** A first pass over [a.jpg], [b.jpg], [c.jpg] in which only [a.jpg] went
    through. *)
Definition first_pass : UploadResponse :=
  {| success := true; message := "Batch processed";
     data := {| batchId := "batch-1"; successfulImages := [processed "a.jpg"];
                failedImages :=
                  Some [{| filename := "b.jpg"; error := "generation timeout" |};
                        {| filename := "c.jpg"; error := "storage failed" |}];
                remainingTokens := 4 |} |}.

(** The regeneration of [b.jpg] and [c.jpg] in which [b.jpg] went through. *)
Definition second_pass : UploadResponse :=
  {| success := true; message := "Batch processed";
     data := {| batchId := "batch-1"; successfulImages := [processed "b.jpg"];
                failedImages := Some [{| filename := "c.jpg"; error := "storage failed" |}];
                remainingTokens := 3 |} |}.

Definition three_files : State :=
  setTokens (Some {| availableTokens := 5 |})
    (setFiles [jpg "a.jpg"; jpg "b.jpg"; jpg "c.jpg"] initial).

Definition dquote : string := String (Ascii.ascii_of_nat 34) EmptyString.

Definition ok_with (r : UploadResponse) : Xhr :=
  {| status := 200; statusText := "OK"; responseText := "{...}";
     parsedResponse := Some r; parsedOther := None; parsedError := None |}.

(** A response with status 500 whose body is
    [{"status":"error","message":"Upload cancelled by user"}]. *)
Definition error_500_with_the_cancel_message : Xhr :=
  {| status := 500; statusText := "Internal Server Error";
     responseText :=
       "{" +:+ dquote +:+ "status" +:+ dquote +:+ ":" +:+ dquote +:+ "error" +:+ dquote +:+
       "," +:+ dquote +:+ "message" +:+ dquote +:+ ":" +:+ dquote +:+ cancelled +:+ dquote +:+ "}";
     parsedResponse := None; parsedOther := None;
     parsedError := Some {| error_status := Some "error"; error_message := Some cancelled |} |}.

(** An answer 200 whose body is [null]; the message is the one of V8. *)
Definition ok_with_null : Xhr :=
  {| status := 200; statusText := "OK"; responseText := "null";
     parsedResponse := None;
     parsedOther := Some (null "Cannot read properties of null (reading 'data')");
     parsedError := None |}.

(** An answer 200 whose body is [{}]. *)
Definition ok_with_empty_object : Xhr :=
  {| status := 200; statusText := "OK"; responseText := "{}";
     parsedResponse := None;
     parsedOther :=
       Some (other "Cannot read properties of undefined (reading 'successfulImages')");
     parsedError := None |}.

Definition after_first_pass : State := handleSubmit 1 (Settled (onload (ok_with first_pass))) three_files.

End UploadForm.

Module Home.

Record File := {
  name : string;
  type : string;
}.

Record State := {
  files : list File;
  error : option string;
}.

(** [["image/jpeg", "image/png", "image/webp"].includes(file.type)]. *)
Definition allowed (file : File) : bool :=
  bool_decide (type file ∈ ["image/jpeg"; "image/png"; "image/webp"]).

Definition onDrop (dataTransfer_files : list File) (s : State) : State :=
  let droppedFiles := List.filter allowed dataTransfer_files in
  {| files := files s ++ droppedFiles; error := None |}.

Definition handleFileSelect (target_files : option (list File)) (s : State) : State :=
  match target_files with
  | Some fl =>
      let selectedFiles := List.filter allowed fl in
      {| files := files s ++ selectedFiles; error := None |}
  | None => s
  end.

End Home.

(** * The effects of the controllers on the stores *)

Module ServerEffects.

Import Server.
Local Open Scope Z_scope.

(** The collection after [ImagesModel_pushImage]: the image is appended to
    the first record of the user's batch, or a record is inserted for it. *)
Definition pushed (env : Env) (userId batchId : string) (d : ImageDetails)
    (c : list BatchDoc) : list BatchDoc :=
  let i := {| image_id := new_image_id env; details := d |} in
  match update_first (batch_matches userId batchId) (push_image i) c with
  | Some (_, c') => c'
  | None =>
      c ++ [{| _id := new_batch_id env; batch_userId := userId;
               batch_batchId := batchId; images := [i] |}]
  end.

(** What the image details of a request are, once the generator has
    answered [m]. *)
Definition details_of (env : Env) (req : UploadRequest) (image : File)
    (batchId : string) (m : MetaResult) : ImageDetails :=
  {| imageName := filename image;
     imageUrl := urlEndpoint env +:+ "/" +:+
                 objectKey (user_id req) batchId (filename image);
     image_metadata := metadata m |}.

(** How far the guarded part of [uploadSingleImage] gets. *)
Definition put_done (env : Env) : bool :=
  bool_decide (put_rejects env = None).

Definition push_done (env : Env) : bool :=
  put_done env && bool_decide (pushImage_rejects env = None).

Definition save_done (env : Env) (ua : UserActivityDoc) : bool :=
  push_done env && bool_decide (1 <= availableTokens ua) &&
  bool_decide (save_rejects env = None).

(** The stores after the guarded part of [uploadSingleImage], read off the
    order of its steps. *)
Definition stores_after (env : Env) (req : UploadRequest) (image : File)
    (batchId : string) (ua : UserActivityDoc) (w : World) : World :=
  match processImage_result env with
  | inl _ => w
  | inr m =>
      let key := objectKey (user_id req) batchId (filename image) in
      {| UserActivity :=
           if save_done env ua
           then <[user_id req := debit1 ua batchId]> (UserActivity w)
           else UserActivity w;
         ImagesModel :=
           if push_done env
           then pushed env (user_id req) batchId (details_of env req image batchId m)
                  (ImagesModel w)
           else ImagesModel w;
         bucket :=
           if put_done env
           then <[key := {| Body := staged m; ContentType := mimetype image |}]> (bucket w)
           else bucket w;
         fs := delete (imagePath m) (<[imagePath m := staged m]> (fs w)) |}
  end.

(** The request gets past the checks of lines 31-43 with [image] and [ua]. *)
Definition admitted (env : Env) (req : UploadRequest) (w : World) (image : File)
    (ua : UserActivityDoc) : Prop :=
  file req = Some image ∧ findUser_rejects env = None ∧
  UserActivity w !! user_id req = Some ua ∧ 1 <= availableTokens ua.

(** The record of the batch that [ImagesModel_pushImage] returns. *)
Definition pushed_record (env : Env) (userId batchId : string) (d : ImageDetails)
    (c : list BatchDoc) : BatchDoc :=
  let i := {| image_id := new_image_id env; details := d |} in
  match update_first (batch_matches userId batchId) (push_image i) c with
  | Some (b, _) => b
  | None =>
      {| _id := new_batch_id env; batch_userId := userId;
         batch_batchId := batchId; images := [i] |}
  end.

(** The other records of a collection: those of other users or batches. *)
Definition others (userId batchId : string) (c : list BatchDoc) : list BatchDoc :=
  List.filter (fun b => negb (batch_matches userId batchId b)) c.

(** A store where user [u1] holds one token and a local file lies around. *)
Definition world_with_local_file : World :=
  {| UserActivity := {[ "u1" := user_with 1 ]}; ImagesModel := [];
     bucket := ∅; fs := {[ "notes.txt" := "keep" ]} |}.

(** A store where user [u1] holds three tokens and has one record, for the
    batch [batch-2], with one image. *)
Definition world_one_image_paid : World :=
  {| UserActivity := {[ "u1" := user_with 3 ]};
     ImagesModel :=
       [{| _id := "doc-1"; batch_userId := "u1"; batch_batchId := "batch-2";
           images := [{| image_id := "img-1"; details := sample_details |}] |}];
     bucket := ∅; fs := ∅ |}.

(** Two images of one batch that carry the same file name, and so the same
    object key. *)
Definition world_namesakes : World :=
  {| UserActivity := {[ "u1" := user_with 3 ]};
     ImagesModel := [{| _id := "doc-1"; batch_userId := "u1"; batch_batchId := "batch-2";
                        images := [{| image_id := "img-1"; details := sample_details |};
                                   {| image_id := "img-2"; details := sample_details |}] |}];
     bucket := {[ objectKey "u1" "batch-2" (imageName sample_details)
                  := {| Body := "bytes"; ContentType := "image/jpeg" |} ]};
     fs := ∅ |}.

(** A store of two users: [u1] holds one token and nothing else; [u2]
    holds five tokens, a batch of one image and the object of that image. *)
Definition world_two_users : World :=
  {| UserActivity := <[ "u2" := user_with 5 ]> {[ "u1" := user_with 1 ]};
     ImagesModel :=
       [{| _id := "doc-9"; batch_userId := "u2"; batch_batchId := "batch-9";
           images :=
             [{| image_id := "img-9";
                 details :=
                   {| imageName := "z.png";
                      imageUrl := "https://s3.example/bucket/uploads/u2/batch-9/z.png";
                      image_metadata := sample_metadata |} |}] |}];
     bucket := {[ "uploads/u2/batch-9/z.png" :=
                  {| Body := "png bytes"; ContentType := "image/png" |} ]};
     fs := ∅ |}.

(** A store in which the key of the next upload already holds an object
    and no batch record names it: what an upload leaves whose batch record
    append was rejected. *)
Definition world_with_stale_object : World :=
  {| UserActivity := {[ "u1" := user_with 1 ]}; ImagesModel := [];
     bucket := {[ "uploads/u1/batch-1/a.jpg" :=
                  {| Body := "earlier bytes"; ContentType := "image/jpeg" |} ]};
     fs := ∅ |}.

End ServerEffects.

(** * The keyword editor of the [Home] page *)

Module Keywords.

Local Open Scope N_scope.

(** A JavaScript string as the sequence of its UTF-16 code units. *)
Definition jsstring := list N.

Definition comma : N := 44.
Definition space : N := 32.

(** The code units [String.prototype.trim] strips: ECMAScript's WhiteSpace
    (TAB, VT, FF, SP, NBSP, ZWNBSP and the space separators of Unicode) and
    LineTerminator (LF, CR, LS, PS). All of them are single code units. *)
Definition isWhiteSpace (c : N) : bool :=
  bool_decide (c ∈ [9; 10; 11; 12; 13; 32; 160; 5760; 8232; 8233; 8239; 8287; 12288; 65279])
  || ((8192 <=? c) && (c <=? 8202)).

Fixpoint trimStart (s : jsstring) : jsstring :=
  match s with
  | c :: s' => if isWhiteSpace c then trimStart s' else s
  | [] => []
  end.

Definition trimEnd (s : jsstring) : jsstring := rev (trimStart (rev s)).

(** [s.trim()]. *)
Definition trim (s : jsstring) : jsstring := trimEnd (trimStart s).

(** [s.split(sep)] for a separator of one code unit: the pieces between the
    separators, so one piece more than there are separators; the empty
    string gives one empty piece. *)
Fixpoint split (sep : N) (s : jsstring) : list jsstring :=
  match s with
  | [] => [[]]
  | c :: s' =>
      if c =? sep then [] :: split sep s'
      else match split sep s' with
           | piece :: pieces => (c :: piece) :: pieces
           | [] => [[c]]
           end
  end.

(** [a.join(sep)]. *)
Fixpoint join (sep : jsstring) (a : list jsstring) : jsstring :=
  match a with
  | [] => []
  | [x] => x
  | x :: a' => x ++ sep ++ join sep a'
  end.

(** The value of a keyword field: [string[]]; of a title or description:
    [string]. *)
Inductive FieldValue :=
| text (value : jsstring)
| list_of (value : list jsstring).

(** [startEditing]: what is put into the edit box,
    [Array.isArray(value) ? value.join(", ") : value]. *)
Definition startEditing (value : FieldValue) : jsstring :=
  match value with
  | list_of a => join [comma; space] a
  | text s => s
  end.

(** [saveEdit], the keywords branch:
    [editValue.split(",").map((k) => k.trim()).filter((k) => k)]. *)
Definition keywords_of (editValue : jsstring) : list jsstring :=
  List.filter (fun k => negb (bool_decide (k = [])))
    (List.map trim (split comma editValue)).

Inductive Field := title | description | keywords.

(** [updateData[editing.field]] of [saveEdit]. *)
Definition updateData (field : Field) (editValue : jsstring) : FieldValue :=
  match field with
  | keywords => list_of (keywords_of editValue)
  | _ => text editValue
  end.

(** The code units of an ASCII text. *)
Fixpoint units (s : string) : jsstring :=
  match s with
  | EmptyString => []
  | String a s' => N.of_nat (Ascii.nat_of_ascii a) :: units s'
  end.

(** A keyword in its normal form: not empty, without comma, and with no
    white space at either end. *)
Definition clean (k : jsstring) : Prop :=
  k ≠ [] ∧ (comma ∉ k) ∧ trim k = k.

End Keywords.

(** * The [Dashboard] page: loading its data *)

Module Dashboard.

(** What a [catch] receives: an [Error] (a [TypeError] is one, and is what
    [fetch] rejects with when the network fails), or a value that is no
    [Error]. *)
Inductive Thrown :=
| TypeError (message : string)
| Error (message : string)
| NotAnError.

(** The body of the dashboard response, as far as the page reads it. *)
Inductive DashboardData :=
| emptyData
| received (json : string).

Record ResponseData := {
  success : bool;
  message : option string;
  data : option DashboardData;
}.

Record Response := {
  status : Z;
  json : Thrown + ResponseData;
}.

(** [response.ok]: the status is in the range 200 to 299. *)
Definition ok (response : Response) : bool :=
  (200 <=? status response)%Z && (status response <? 300)%Z.

(** What the awaited calls of one attempt answer. *)
Record Exchange := {
  getBaseApi : Thrown + option string;
  getAccessToken : Thrown + option string;
  fetch : Thrown + Response;
}.

Inductive ToastKind := toast_error | toast_info.

Record Toast := {
  kind : ToastKind;
  text : string;
}.

(** The state of the page that [fetchDashboardData] writes, the toasts it
    shows and the delays of the timers it sets. *)
Record State := {
  dashboard : DashboardData;
  isLoading : bool;
  error : option string;
  toasts : list Toast;
  timeouts : list Z;
}.

Definition setData (v : DashboardData) (s : State) : State :=
  {| dashboard := v; isLoading := isLoading s; error := error s; toasts := toasts s;
     timeouts := timeouts s |}.
Definition setIsLoading (v : bool) (s : State) : State :=
  {| dashboard := dashboard s; isLoading := v; error := error s; toasts := toasts s;
     timeouts := timeouts s |}.
Definition setError (v : option string) (s : State) : State :=
  {| dashboard := dashboard s; isLoading := isLoading s; error := v; toasts := toasts s;
     timeouts := timeouts s |}.
Definition toast (t : Toast) (s : State) : State :=
  {| dashboard := dashboard s; isLoading := isLoading s; error := error s;
     toasts := toasts s ++ [t]; timeouts := timeouts s |}.
Definition setTimeout (delay : Z) (s : State) : State :=
  {| dashboard := dashboard s; isLoading := isLoading s; error := error s;
     toasts := toasts s; timeouts := timeouts s ++ [delay] |}.

(** The error thrown for a response that is not [ok]. *)
Definition http_error (response : Response) : Thrown :=
  let status := status response in
  if (status =? 401)%Z then Error "Your session has expired. Please log in again."
  else if (status =? 403)%Z then Error "You don't have permission to access this data."
  else if (status =? 404)%Z then Error "Dashboard data not found."
  else if (500 <=? status)%Z then Error "Server error. Please try again later."
  else Error ("Failed to fetch dashboard data (" +:+ pretty status +:+ ")").

(** The [try] block of [fetchDashboardData] after the two setters: [inl] is
    what it throws, [inr] what it passes to [setData]. *)
Definition try_fetch (x : Exchange) : Thrown + DashboardData :=
  match getBaseApi x with
  | inl e => inl e
  | inr baseApi =>
      match getAccessToken x with
      | inl e => inl e
      | inr accessToken =>
          if negb (truthy baseApi) || negb (truthy accessToken)
          then inl (Error "Authentication failed. Please log in again.")
          else
            match fetch x with
            | inl e => inl e
            | inr response =>
                if negb (ok response) then inl (http_error response)
                else
                  match json response with
                  | inl e => inl e
                  | inr responseData =>
                      if negb (success responseData)
                      then inl (Error (js_or (message responseData)
                                         "Failed to fetch dashboard data"))
                      else inr (default emptyData (data responseData))
                  end
            end
      end
  end.

(** [error instanceof Error ? error.message : "An unknown error occurred"]. *)
Definition errorMessage (e : Thrown) : string :=
  match e with
  | TypeError m | Error m => m
  | NotAnError => "An unknown error occurred"
  end.

Definition instanceof_TypeError (e : Thrown) : bool :=
  match e with
  | TypeError _ => true
  | _ => false
  end.

(** [s.includes(searchString)]. *)
Fixpoint includes (searchString s : string) : bool :=
  String.prefix searchString s ||
  match s with
  | String _ s' => includes searchString s'
  | EmptyString => false
  end.

(** [Math.pow(2, retryCount) * 1000]. *)
Definition retryDelay (retryCount : nat) : Z := (2 ^ Z.of_nat retryCount * 1000)%Z.

(** The condition of the retry in the [catch]. *)
Definition retries (retryCount : nat) (e : Thrown) : bool :=
  (retryCount <? 3) && (instanceof_TypeError e || includes "network" (errorMessage e)).

(** One call [fetchDashboardData(retryCount)], up to the end of its
    [finally]; the second component tells whether it has set the timer for
    the call [fetchDashboardData(retryCount + 1)]. *)
Definition fetchDashboardData (x : Exchange) (retryCount : nat) (s : State)
  : State * bool :=
  let s := setError None (setIsLoading true s) in
  match try_fetch x with
  | inr d => (setIsLoading false (setData d s), false)
  | inl e =>
      let s := toast {| kind := toast_error; text := errorMessage e |}
                 (setError (Some (errorMessage e)) s) in
      if retries retryCount e then
        let s := toast {| kind := toast_info;
                          text := "Retrying in " +:+
                                  pretty (retryDelay retryCount / 1000)%Z +:+
                                  " seconds..." |} s in
        (setIsLoading false (setTimeout (retryDelay retryCount) s), true)
      else (setIsLoading false s, false)
  end.

(** A call and the calls that its timers lead to, answered by [xs] in turn;
    the chain ends with the first call that sets no timer (or when [xs] is
    used up: the page is left before the next timer fires). The second
    component counts the calls made. *)
Fixpoint fetch_chain (xs : list Exchange) (retryCount : nat) (s : State)
  : State * nat :=
  match xs with
  | [] => (s, 0)
  | x :: xs' =>
      let (s', again) := fetchDashboardData x retryCount s in
      if again then
        let (s'', n) := fetch_chain xs' (S retryCount) s' in (s'', S n)
      else (s', 1)
  end.

(** Whether the character [c] occurs in [s]. *)
Fixpoint occurs (c : Ascii.ascii) (s : string) : bool :=
  match s with
  | EmptyString => false
  | String a s' => Ascii.eqb a c || occurs c s'
  end.

Definition initial : State :=
  {| dashboard := emptyData; isLoading := true; error := None; toasts := [];
     timeouts := [] |}.

(** The network is down: [fetch] rejects with a [TypeError]. *)
Definition offline : Exchange :=
  {| getBaseApi := inr (Some "https://api.example");
     getAccessToken := inr (Some "token");
     fetch := inl (TypeError "Failed to fetch") |}.

Definition answers (status : Z) : Exchange :=
  {| getBaseApi := inr (Some "https://api.example");
     getAccessToken := inr (Some "token");
     fetch := inr {| status := status; json := inl (Error "Unexpected end of JSON input") |} |}.

End Dashboard.

(** * Properties of the controllers *)

Module ServerFacts.

Import Server.
Local Open Scope Z_scope.

Ltac unfold_calls :=
  unfold UserActivity_findOne, processImage, fs_existsSync, fs_readFileSync,
    fs_unlinkSync, s3_PutObject, s3_DeleteObject, ImagesModel_pushImage,
    ImagesModel_findOne, ImagesModel_pullImage, ImagesModel_deleteOne,
    useTokens, save, rejects.

Ltac unfold_monad :=
  unfold try_catch, bind, ret, throw, emit, get_world, set_world,
    get_metaResult, set_metaResult.

(** Evaluate a handler as far as the known answers of the environment go. *)
Ltac crunch :=
  repeat first
    [ progress cbn
    | rewrite lookup_insert_eq
    | rewrite lookup_delete_eq
    | rewrite bool_decide_true by eauto
    | rewrite bool_decide_false by (intros [? ?]; done)
    | rewrite <- app_assoc ].

(** No successful save among a list of calls that is given explicitly. *)
Ltac absent :=
  let H := fresh in
  intros; intros H;
  repeat (apply elem_of_cons in H as [H|H]; [discriminate|]);
  by apply elem_of_nil in H.

Ltac cause := unfold failure_cause; eauto 8.

(** *** The two halves of [uploadSingleImage] *)

Lemma upload_check_inv env req s r s' :
  upload_check env req s = (r, s') ->
  world s' = world s ∧ metaResult s' = metaResult s ∧
  match r with
  | inl e =>
      (log s' = log s ∨ log s' = log s ++ [EvFindUser (user_id req)]) ∧
      (file req = None ∨ is_Some (findUser_rejects env) ∨
       UserActivity (world s) !! user_id req = None ∨
       ∃ ua, UserActivity (world s) !! user_id req = Some ua ∧ availableTokens ua < 1)
  | inr (image, bid, ua) =>
      file req = Some image ∧
      bid = js_or (body_batchId req) (uuidv4 env) ∧
      findUser_rejects env = None ∧
      UserActivity (world s) !! user_id req = Some ua ∧
      1 <= availableTokens ua ∧
      log s' = log s ++ [EvFindUser (user_id req)]
  end.
Proof.
  unfold upload_check. destruct (file req) as [image|].
  2: { unfold_monad. intros [= <- <-]. auto. }
  unfold_calls. destruct (findUser_rejects env) as [msg|].
  { unfold_monad; cbn. intros [= <- <-]. cbn. naive_solver. }
  unfold_monad; cbn.
  destruct (UserActivity (world s) !! user_id req) as [ua|] eqn:Hua.
  2: { intros [= <- <-]. cbn. naive_solver. }
  destruct (Z.ltb_spec (availableTokens ua) 1).
  { intros [= <- <-]. cbn. naive_solver. }
  intros [= <- <-]. cbn. repeat split; auto; lia.
Qed.

Lemma upload_store_and_debit_result env req image bid ua s :
  metaResult s = None ->
  upload_result env req image bid ua s
    (upload_store_and_debit env req image bid ua s).
Proof.
  intros Hm. destruct s as [w l mr]. cbn in Hm. subst mr.
  unfold upload_store_and_debit, upload_try, upload_catch.
  unfold_calls.
  destruct (processImage_result env) as [msg|m] eqn:Hp.
  { unfold_monad; crunch.
    eapply upload_failed; crunch; [done|done|absent|cause]. }
  destruct (put_rejects env) as [msg|] eqn:Hput.
  { unfold_monad; crunch.
    eapply upload_failed; crunch; [done|done|absent|cause]. }
  destruct (pushImage_rejects env) as [msg|] eqn:Hpush.
  { unfold_monad; crunch.
    eapply upload_failed; crunch; [done|done|absent|cause]. }
  destruct (Z.ltb_spec (availableTokens ua) 1) as [Hlt|Hge].
  { unfold_monad; crunch.
    destruct (update_first _ _ _) as [[b c]|]; crunch;
      (eapply upload_failed; crunch; [done|done|absent|cause]). }
  destruct (save_rejects env) as [msg|] eqn:Hsave.
  { unfold_monad; crunch.
    destruct (update_first _ _ _) as [[b c]|]; crunch;
      (eapply upload_failed; crunch; [done|done|absent|cause]). }
  unfold_monad; crunch.
  destruct (update_first _ _ _) as [[b c]|]; crunch.
  all: eapply (upload_done _ _ _ _ _ _ _ _ m
         [EvUnlink (imagePath m) true; EvPushImage (user_id req) bid true]);
       crunch; eauto.
Qed.

(** The whole handler: it fails and leaves the activity records alone, or
    every step went through and the debited record was saved after the put. *)
Lemma uploadSingleImage_cases env req w :
  let x := run (uploadSingleImage env req) w in
  let userId := user_id req in
  let batchId := js_or (body_batchId req) (uuidv4 env) in
  ((∃ e, outcome x = inl e) ∧
   UserActivity (final x) = UserActivity w ∧
   (∀ u, EvSaveUser u true ∉ calls x) ∧
   (∀ image ua, file req = Some image -> findUser_rejects env = None ->
      UserActivity w !! userId = Some ua -> 1 <= availableTokens ua ->
      failure_cause env ua)) ∨
  (∃ r image ua m mid,
     outcome x = inr r ∧ statusCode r = 200 ∧
     file req = Some image ∧ UserActivity w !! userId = Some ua ∧
     1 <= availableTokens ua ∧
     processImage_result env = inr m ∧ put_rejects env = None ∧
     UserActivity (final x) = <[userId := debit1 ua batchId]> (UserActivity w) ∧
     calls x =
       [EvFindUser userId; EvProcessImage (filename image) true;
        EvReadFile (imagePath m) true] ++
       [EvPutObject (objectKey userId batchId (filename image)) true] ++ mid ++
       [EvUseTokens 1 true; EvSaveUser userId true] ∧
     is_Some (bucket (final x) !! objectKey userId batchId (filename image))).
Proof.
  cbn zeta. unfold run, uploadSingleImage, bind.
  set (s0 := {| world := w; log := []; metaResult := None |}).
  destruct (upload_check env req s0) as [[e|[[image bid] ua]] s1] eqn:Hc;
    apply upload_check_inv in Hc as (Hw & Hm & Hr); cbn in Hw, Hm.
  - left. cbn. rewrite Hw. split; [eauto|]. split; [done|].
    destruct Hr as [Hlog Hwhy]. split.
    + destruct Hlog as [-> | ->]; cbn; absent.
    + intros image ua Hf Hfind Hua Hge. cbn in Hwhy.
      destruct Hwhy as [Hn | [[? Hs] | [Hn | (ua' & Hua' & Hlt)]]]; try congruence.
      assert (ua' = ua) by congruence. subst. lia.
  - destruct Hr as (Hfile & -> & Hfind & Hua & Hge & Hlog). cbn in Hua, Hlog.
    pose proof (upload_store_and_debit_result env req image
                  (js_or (body_batchId req) (uuidv4 env)) ua s1 Hm) as Hres.
    inversion Hres as [e s' pre HU Hl Hpre Hcause Heq
                      | r s' m mid Hp Hput Hpush Hsave HU Hl Hb Hst _ Heq]; clear Hres.
    + left. cbn. rewrite HU, Hw. split; [eauto|]. split; [done|]. split.
      * intros u. rewrite Hl, Hlog. cbn. intros [Hin|Hin]%elem_of_cons; [done|].
        by apply (Hpre u).
      * intros image' ua' Hf' _ Hua' _. congruence.
    + right. exists r, image, ua, m, mid. cbn.
      rewrite HU, Hw, Hl, Hlog. cbn. repeat split; auto.
Qed.

(** *** The balance check *)

(** C4. An upload request that carries an image, made by a user whose
    activity record is found with [availableTokens < 1], fails with the
    error 400 [Insufficient tokens to upload an image]; the only call made is
    the lookup of the record, so neither the generator nor the object store
    is invoked, and the stores are left exactly as they were: no ledger
    entry, no stored object, no batch record. *)
Theorem insufficient_tokens_short_circuit env req w image ua :
  file req = Some image ->
  findUser_rejects env = None ->
  UserActivity w !! user_id req = Some ua ->
  availableTokens ua < 1 ->
  run (uploadSingleImage env req) w =
    (inl (ApiError 400 "Insufficient tokens to upload an image"), w,
     [EvFindUser (user_id req)]).
Proof.
  intros Hfile Hfind Hua Hlow.
  unfold run, uploadSingleImage, upload_check. rewrite Hfile.
  unfold_calls. rewrite Hfind. unfold_monad. cbn. rewrite Hua.
  destruct (Z.ltb_spec (availableTokens ua) 1); [|lia].
  by destruct w.
Qed.

Lemma insufficient_tokens_short_circuit_witness :
  run (uploadSingleImage env_ok (upload_of "a.jpg")) (world_with 0) =
    (inl (ApiError 400 "Insufficient tokens to upload an image"), world_with 0,
     [EvFindUser "u1"]).
Proof.
  apply (insufficient_tokens_short_circuit env_ok (upload_of "a.jpg") (world_with 0)
           {| filename := "a.jpg"; mimetype := "image/jpeg" |} (user_with 0)).
  - reflexivity.
  - reflexivity.
  - reflexivity.
  - simpl. lia.
Defined.

(** *** Debit and storage *)

(** An admitted request whose generator and put went through: what it
    calls, what it answers and what it leaves, by what the batch record
    append and the save answer. *)
Lemma uploadSingleImage_after_put env req w image ua m :
  file req = Some image ->
  findUser_rejects env = None ->
  UserActivity w !! user_id req = Some ua ->
  1 <= availableTokens ua ->
  processImage_result env = inr m ->
  put_rejects env = None ->
  let x := run (uploadSingleImage env req) w in
  let userId := user_id req in
  let batchId := js_or (body_batchId req) (uuidv4 env) in
  let key := objectKey userId batchId (filename image) in
  let stored :=
    [EvFindUser userId; EvProcessImage (filename image) true;
     EvReadFile (imagePath m) true; EvPutObject key true; EvUnlink (imagePath m) true] in
  bucket (final x) !! key = Some {| Body := staged m; ContentType := mimetype image |} ∧
  match pushImage_rejects env, save_rejects env with
  | Some msg, _ =>
      calls x = stored ++ [EvPushImage userId batchId false] ∧
      outcome x = inl (ApiError 500 ("Failed to upload image: " +:+ msg)) ∧
      UserActivity (final x) = UserActivity w
  | None, Some msg =>
      calls x = stored ++ [EvPushImage userId batchId true; EvUseTokens 1 true;
                           EvSaveUser userId false] ∧
      outcome x = inl (ApiError 500 ("Failed to upload image: " +:+ msg)) ∧
      UserActivity (final x) = UserActivity w
  | None, None =>
      calls x = stored ++ [EvPushImage userId batchId true; EvUseTokens 1 true;
                           EvSaveUser userId true] ∧
      (∃ r, outcome x = inr r ∧ statusCode r = 200) ∧
      UserActivity (final x) = <[userId := debit1 ua batchId]> (UserActivity w)
  end.
Proof.
  intros Hf Hfind Hua Hge Hp Hput. cbn zeta.
  unfold run, uploadSingleImage, upload_check, upload_store_and_debit,
    upload_try, upload_catch.
  rewrite Hf. unfold_calls. rewrite Hfind, Hp, Hput.
  unfold_monad; crunch. rewrite Hua.
  destruct (Z.ltb_spec (availableTokens ua) 1) as [|_]; [lia|]. crunch.
  destruct (pushImage_rejects env) as [msg|]; crunch; [done|].
  destruct (save_rejects env) as [msg|]; crunch;
    destruct (update_first _ _ (ImagesModel w)) as [[b c]|]; crunch;
    (destruct (Z.ltb_spec (availableTokens ua) 1) as [|_]; [lia|]); crunch;
    repeat split; eauto.
Qed.

(** A request that is answered with a response was admitted, and every
    call it made went through. *)
Lemma uploadSingleImage_success_inv env req w r :
  outcome (run (uploadSingleImage env req) w) = inr r ->
  ∃ image ua m,
    file req = Some image ∧ findUser_rejects env = None ∧
    UserActivity w !! user_id req = Some ua ∧ 1 <= availableTokens ua ∧
    processImage_result env = inr m ∧ put_rejects env = None ∧
    pushImage_rejects env = None ∧ save_rejects env = None.
Proof.
  intros Hr.
  destruct (uploadSingleImage_cases env req w)
    as [([e He] & _) | (r' & image & ua & m & mid & _ & _ & Hf & Hua & Hge & Hp & Hput & _)];
    [congruence|].
  exists image, ua, m.
  assert (Hfind : findUser_rejects env = None).
  { destruct (findUser_rejects env) as [msg|] eqn:Hfind; [|done]. exfalso.
    revert Hr. unfold run, outcome, uploadSingleImage, upload_check.
    rewrite Hf. unfold_calls. rewrite Hfind. unfold_monad; crunch. done. }
  pose proof (uploadSingleImage_after_put env req w image ua m Hf Hfind Hua Hge Hp Hput)
    as [_ H]. cbn zeta in H.
  destruct (pushImage_rejects env) as [msg|]; [destruct H as (_ & H & _); congruence|].
  destruct (save_rejects env) as [msg|]; [destruct H as (_ & H & _); congruence|].
  repeat split; done.
Qed.

(** C1, as the code has it. A request either leaves the activity records
    untouched, with no successful save among its calls, or it saves the
    record debited by exactly 1; and then every call of the request went
    through, in this order: the generator, the read of the staged file, the
    put of the image's object, the removal of the staged file, the batch
    record append, the ledger debit and the save; so the put succeeded
    before the debit, and the object is in the bucket. When the generator
    or the put fails, the request ends with an error and the records, so
    the balance, are unchanged. The converse fails after the put: when the
    put has succeeded and the batch record append or the save is rejected,
    the object is stored and stays stored, the request ends with the error
    500 and there is no debit. The debit is performed when the append and
    the save go through as well. *)
Theorem debit_only_after_storage env req w :
  let x := run (uploadSingleImage env req) w in
  let userId := user_id req in
  let batchId := js_or (body_batchId req) (uuidv4 env) in
  ((UserActivity (final x) = UserActivity w ∧ ∀ u, EvSaveUser u true ∉ calls x) ∨
   ∃ image ua m,
     file req = Some image ∧ UserActivity w !! userId = Some ua ∧
     processImage_result env = inr m ∧ put_rejects env = None ∧
     pushImage_rejects env = None ∧ save_rejects env = None ∧
     UserActivity (final x) = <[userId := debit1 ua batchId]> (UserActivity w) ∧
     calls x =
       [EvFindUser userId; EvProcessImage (filename image) true;
        EvReadFile (imagePath m) true;
        EvPutObject (objectKey userId batchId (filename image)) true;
        EvUnlink (imagePath m) true; EvPushImage userId batchId true;
        EvUseTokens 1 true; EvSaveUser userId true] ∧
     is_Some (bucket (final x) !! objectKey userId batchId (filename image))) ∧
  ((∃ msg, processImage_result env = inl msg) ∨ (∃ msg, put_rejects env = Some msg) ->
   (∃ e, outcome x = inl e) ∧ UserActivity (final x) = UserActivity w) ∧
  (∀ image ua m,
     file req = Some image -> findUser_rejects env = None ->
     UserActivity w !! userId = Some ua -> 1 <= availableTokens ua ->
     processImage_result env = inr m -> put_rejects env = None ->
     is_Some (pushImage_rejects env) ∨ is_Some (save_rejects env) ->
     EvPutObject (objectKey userId batchId (filename image)) true ∈ calls x ∧
     bucket (final x) !! objectKey userId batchId (filename image) =
       Some {| Body := staged m; ContentType := mimetype image |} ∧
     (∃ msg, outcome x = inl (ApiError 500 ("Failed to upload image: " +:+ msg))) ∧
     UserActivity (final x) = UserActivity w ∧
     (∀ u, EvSaveUser u true ∉ calls x)) ∧
  (∀ image ua m,
     file req = Some image -> findUser_rejects env = None ->
     UserActivity w !! userId = Some ua -> 1 <= availableTokens ua ->
     processImage_result env = inr m -> put_rejects env = None ->
     pushImage_rejects env = None -> save_rejects env = None ->
     UserActivity (final x) = <[userId := debit1 ua batchId]> (UserActivity w) ∧
     ∃ r, outcome x = inr r ∧ statusCode r = 200).
Proof.
  cbn zeta. split; [|split; [|split]].
  - destruct (uploadSingleImage_cases env req w)
      as [(He & HU & Hsave & _) | (r & _ & _ & _ & _ & Hr & _)]; [by left|].
    right.
    destruct (uploadSingleImage_success_inv env req w r Hr)
      as (image & ua & m & Hf & Hfind & Hua & Hge & Hp & Hput & Hpush & Hs).
    pose proof (uploadSingleImage_after_put env req w image ua m Hf Hfind Hua Hge Hp Hput)
      as [Hb H]. cbn zeta in H. rewrite Hpush, Hs in H. destruct H as (Hl & _ & HU).
    exists image, ua, m. repeat split; try done; by rewrite Hb.
  - intros Hfail.
    destruct (uploadSingleImage_cases env req w)
      as [(He & HU & _) | (r & image & ua & m & mid & _ & _ & _ & _ & _ & Hp & Hput & _)];
      [done|].
    destruct Hfail as [[msg Hm] | [msg Hm]]; congruence.
  - intros image ua m Hf Hfind Hua Hge Hp Hput Hrej.
    pose proof (uploadSingleImage_after_put env req w image ua m Hf Hfind Hua Hge Hp Hput)
      as [Hb H]. cbn zeta in H.
    destruct (pushImage_rejects env) as [msg|].
    + destruct H as (Hl & Ho & HU). rewrite Hl.
      split; [do 3 right; left|]. repeat split; eauto. absent.
    + destruct (save_rejects env) as [msg|].
      * destruct H as (Hl & Ho & HU). rewrite Hl.
        split; [do 3 right; left|]. repeat split; eauto. absent.
      * by destruct Hrej as [[? ?]|[? ?]].
  - intros image ua m Hf Hfind Hua Hge Hp Hput Hpush Hs.
    pose proof (uploadSingleImage_after_put env req w image ua m Hf Hfind Hua Hge Hp Hput)
      as [_ H]. cbn zeta in H. rewrite Hpush, Hs in H. by destruct H as (_ & Hr & HU).
Qed.

Lemma debit_only_after_storage_witness :
  let x := run (uploadSingleImage (with_pushImage_rejects (Some "database unavailable") env_ok)
                  (upload_of "a.jpg")) (world_with 1) in
  EvPutObject "uploads/u1/batch-1/a.jpg" true ∈ calls x ∧
  UserActivity (final x) = UserActivity (world_with 1).
Proof.
  destruct (debit_only_after_storage
              (with_pushImage_rejects (Some "database unavailable") env_ok)
              (upload_of "a.jpg") (world_with 1)) as (_ & _ & H & _).
  destruct (H {| filename := "a.jpg"; mimetype := "image/jpeg" |} (user_with 1) sample_meta)
    as (H1 & _ & _ & H2 & _);
    [reflexivity | reflexivity | reflexivity | simpl; lia | reflexivity | reflexivity
    | left; eexists; reflexivity |].
  split; [exact H1 | exact H2].
Defined.

(** C1 as stated fails: with the batch record append rejected, the put has
    succeeded and there is no debit. *)
Lemma put_succeeds_without_debit :
  let w := world_with 1 in
  let x := run (uploadSingleImage (with_pushImage_rejects (Some "database unavailable") env_ok)
                  (upload_of "a.jpg")) w in
  ¬ (debited w x "u1" ↔ storage_succeeded x).
Proof.
  cbn zeta. intros [_ H].
  destruct H as (n & Hn & Hn').
  - exists "uploads/u1/batch-1/a.jpg". vm_compute. do 3 right. left.
  - vm_compute in Hn, Hn'. injection Hn as <-. discriminate.
Qed.

(** *** A debit that fails after the put *)

Lemma update_first_Some p f l b c :
  update_first p f l = Some (b, c) ->
  ∃ b0, List.find p l = Some b0 ∧ b = f b0 ∧ b ∈ c.
Proof.
  revert b c. induction l as [|a l IH]; intros b c; cbn; [done|].
  destruct (p a).
  - intros [= <- <-]. exists a. split; [done|]. split; [done|]. apply elem_of_cons. by left.
  - destruct (update_first p f l) as [[b' c']|]; [|done].
    intros [= <- <-]. destruct (IH b' c' eq_refl) as (b0 & Hb0 & -> & Hin).
    exists b0. split; [done|]. split; [done|]. apply elem_of_cons. by right.
Qed.

Lemma update_first_find p f l b0 :
  List.find p l = Some b0 -> ∃ c, update_first p f l = Some (f b0, c).
Proof.
  induction l as [|a l IH]; cbn; [done|].
  destruct (p a).
  - intros [= ->]. eauto.
  - intros H. destruct (IH H) as [c ->]. eauto.
Qed.

Lemma batch_matches_refl userId batchId b :
  batch_userId b = userId -> batch_batchId b = batchId ->
  batch_matches userId batchId b = true.
Proof.
  intros <- <-. unfold batch_matches. by rewrite !String.eqb_refl.
Qed.

(** C3, as the code has it. When the put and the batch record append have
    succeeded and saving the debited record fails, the stored object stays in
    the bucket (no delete is issued), the image stays in the batch record and
    the persisted balance is unchanged; the caller does not get a success:
    the request ends with the error 500 [Failed to upload image: ...]. *)
Theorem debit_failure_reported_as_error env req w image ua m msg :
  file req = Some image ->
  findUser_rejects env = None ->
  UserActivity w !! user_id req = Some ua ->
  1 <= availableTokens ua ->
  processImage_result env = inr m ->
  put_rejects env = None ->
  pushImage_rejects env = None ->
  save_rejects env = Some msg ->
  let x := run (uploadSingleImage env req) w in
  let batchId := js_or (body_batchId req) (uuidv4 env) in
  let key := objectKey (user_id req) batchId (filename image) in
  outcome x = inl (ApiError 500 ("Failed to upload image: " +:+ msg)) ∧
  bucket (final x) !! key =
    Some {| Body := staged m; ContentType := mimetype image |} ∧
  (∀ k ok, EvDeleteObject k ok ∉ calls x) ∧
  (∃ b, b ∈ ImagesModel (final x) ∧
        batch_matches (user_id req) batchId b = true ∧
        {| image_id := new_image_id env;
           details := {| imageName := filename image;
                         imageUrl := urlEndpoint env +:+ "/" +:+ key;
                         image_metadata := metadata m |} |} ∈ images b) ∧
  UserActivity (final x) = UserActivity w.
Proof.
  intros Hf Hfind Hua Hge Hp Hput Hpush Hsave. cbn zeta.
  unfold run, uploadSingleImage, upload_check, upload_store_and_debit,
    upload_try, upload_catch.
  rewrite Hf. unfold_calls. rewrite Hfind, Hp, Hput, Hpush, Hsave.
  unfold_monad; crunch. rewrite Hua.
  destruct (Z.ltb_spec (availableTokens ua) 1) as [|_]; [lia|]. crunch.
  destruct (update_first _ _ (ImagesModel w)) as [[b c]|] eqn:Hup; crunch;
    (destruct (Z.ltb_spec (availableTokens ua) 1) as [|_]; [lia|]); crunch.
  - repeat split; try done; try absent.
    apply update_first_Some in Hup as (b0 & Hb0 & -> & Hin).
    exists (push_image
              {| image_id := new_image_id env;
                 details := {| imageName := filename image;
                               imageUrl := urlEndpoint env +:+ "/" +:+
                                 objectKey (user_id req)
                                   (js_or (body_batchId req) (uuidv4 env)) (filename image);
                               image_metadata := metadata m |} |} b0).
    split; [done|]. split.
    + apply find_some in Hb0 as [_ Hb0]. exact Hb0.
    + cbn. apply elem_of_app. right. apply list_elem_of_singleton. done.
  - repeat split; try done; try absent.
    eexists. split; [apply elem_of_app; right; by apply list_elem_of_singleton|].
    split; [by apply batch_matches_refl|].
    cbn. by apply list_elem_of_singleton.
Qed.

Lemma debit_failure_reported_as_error_witness :
  let x := run (uploadSingleImage (with_save_rejects (Some "ledger unavailable") env_ok)
                  (upload_of "a.jpg")) (world_with 1) in
  outcome x = inl (ApiError 500 "Failed to upload image: ledger unavailable") ∧
  bucket (final x) !! "uploads/u1/batch-1/a.jpg" =
    Some {| Body := "jpeg bytes"; ContentType := "image/jpeg" |}.
Proof.
  assert (H := debit_failure_reported_as_error
                (with_save_rejects (Some "ledger unavailable") env_ok)
                (upload_of "a.jpg") (world_with 1)
                {| filename := "a.jpg"; mimetype := "image/jpeg" |} (user_with 1)
                sample_meta "ledger unavailable").
  destruct H as (H1 & H2 & _);
    [reflexivity | reflexivity | reflexivity | simpl; lia
    | reflexivity | reflexivity | reflexivity | reflexivity |].
  split; [exact H1 | exact H2].
Defined.

(** C3 as stated fails: the save of the debit is rejected after the put has
    succeeded, and what the caller gets is not a success. *)
Lemma debit_failure_is_not_success :
  let x := run (uploadSingleImage (with_save_rejects (Some "ledger unavailable") env_ok)
                  (upload_of "a.jpg")) (world_with 1) in
  EvPutObject "uploads/u1/batch-1/a.jpg" true ∈ calls x ∧
  EvSaveUser "u1" false ∈ calls x ∧
  succeeded (outcome x) = false ∧
  outcome x = inl (ApiError 500 "Failed to upload image: ledger unavailable").
Proof.
  vm_compute. repeat split.
  - do 3 right. left.
  - do 7 right. left.
Qed.

(** *** Two requests of one user *)

Lemma run_upload_check env req w :
  final (run (upload_check env req) w) = w ∧
  match outcome (run (upload_check env req) w) with
  | inl e => True
  | inr (image, bid, ua) =>
      UserActivity w !! user_id req = Some ua ∧ 1 <= availableTokens ua
  end.
Proof.
  unfold run, outcome, final.
  destruct (upload_check env req {| world := w; log := []; metaResult := None |})
    as [r s'] eqn:Hc.
  apply upload_check_inv in Hc as (Hw & _ & Hr). cbn in *. split; [done|].
  destruct r as [e|[[image bid] ua]]; [done|].
  by destruct Hr as (_ & _ & _ & Hua & Hge & _).
Qed.

Lemma run_upload_store_and_debit env req image bid ua w :
  let x := run (upload_store_and_debit env req image bid ua) w in
  (∃ e, outcome x = inl e ∧ UserActivity (final x) = UserActivity w) ∨
  (∃ r, outcome x = inr r ∧ success r = true ∧
        UserActivity (final x) = <[user_id req := debit1 ua bid]> (UserActivity w)).
Proof.
  cbn zeta. unfold run, outcome, final.
  pose proof (upload_store_and_debit_result env req image bid ua
                {| world := w; log := []; metaResult := None |} eq_refl) as H.
  inversion H as [e s' pre HU _ _ _ Heq | r s' m mid _ _ _ _ HU _ _ _ Hok Heq]; cbn in *.
  - left. eauto.
  - right. eauto.
Qed.

(** What the guarded part answers and does to the stores does not depend on
    the calls logged before it. *)
Lemma upload_store_and_debit_log env req image bid ua w l :
  (upload_store_and_debit env req image bid ua
     {| world := w; log := l; metaResult := None |}).1 =
  outcome (run (upload_store_and_debit env req image bid ua) w) ∧
  world (upload_store_and_debit env req image bid ua
           {| world := w; log := l; metaResult := None |}).2 =
  final (run (upload_store_and_debit env req image bid ua) w).
Proof.
  unfold run, outcome, final, upload_store_and_debit, upload_try, upload_catch.
  unfold_calls.
  destruct (processImage_result env) as [msg|m]; [by unfold_monad; crunch|].
  destruct (put_rejects env) as [msg|]; [by unfold_monad; crunch|].
  destruct (pushImage_rejects env) as [msg|]; [by unfold_monad; crunch|].
  destruct (availableTokens ua <? 1)%Z;
    destruct (save_rejects env) as [msg|];
    unfold_monad; crunch;
    by destruct (update_first _ _ _) as [[b c]|]; crunch.
Qed.

(** Two turns in a row are the handler run from start to end. *)
Lemma advance_advance env req w :
  advance env req (advance env req Pending w).1 (advance env req Pending w).2 =
    (Finished (outcome (run (uploadSingleImage env req) w)),
     final (run (uploadSingleImage env req) w)).
Proof.
  cbn [advance].
  pose proof (upload_store_and_debit_log env req) as Hlog.
  unfold run, outcome, final in *. unfold uploadSingleImage, bind.
  destruct (upload_check env req {| world := w; log := []; metaResult := None |})
    as [[e|[[image bid] ua]] s1] eqn:Hc; cbn; [done|].
  apply upload_check_inv in Hc as (Hw & Hm & _). cbn in Hw, Hm.
  destruct s1 as [w1 l1 m1]. cbn in Hw, Hm. subst w1 m1.
  destruct (Hlog image bid ua w l1) as [H1 H2].
  destruct (upload_store_and_debit env req image bid ua
              {| world := w; log := l1; metaResult := None |}) as [r s].
  cbn in *. by rewrite H1, H2.
Qed.

Lemma failed_not_succeeded t : failed t -> task_succeeded t = false.
Proof. by intros (r & -> & Hr). Qed.

(** One turn of a request of user [userId]. *)
Lemma advance_spec env req t w userId :
  user_id req = userId ->
  balance_0_or_1 userId w ->
  holds_one t ->
  balance_0_or_1 userId (advance env req t w).2 ∧
  holds_one (advance env req t w).1 ∧
  match t with
  | Pending =>
      (advance env req t w).2 = w ∧
      (unfinished (advance env req t w).1 ∨ failed (advance env req t w).1) ∧
      (advance env req t w).1 ≠ Pending ∧
      (balance w userId = Some 0 -> failed (advance env req t w).1)
  | Checked _ _ _ =>
      (failed (advance env req t w).1 ∧
       UserActivity (advance env req t w).2 = UserActivity w) ∨
      ((∃ r, (advance env req t w).1 = Finished r) ∧
       balance (advance env req t w).2 userId = Some 0)
  | Finished _ => advance env req t w = (t, w)
  end.
Proof.
  intros Hu Hbal Hone. destruct t as [|image bid ua|r]; cbn [advance].
  - destruct (run_upload_check env req w) as [Hw Hr].
    destruct (outcome (run (upload_check env req) w)) as [e|[[image bid] ua]]; cbn.
    + rewrite Hw. repeat split; try done.
      * right. by exists (inl e).
      * intros _. by exists (inl e).
    + rewrite Hw. destruct Hr as [Hua Hge]. rewrite Hu in Hua.
      assert (availableTokens ua = 1 ∨ availableTokens ua = 0) as Hv.
      { unfold balance_0_or_1, balance in Hbal. rewrite Hua in Hbal. cbn in Hbal.
        destruct Hbal as [[= ->] | [= ->]]; auto. }
      repeat split; try done.
      * lia.
      * by left.
      * unfold balance. rewrite Hua. cbn. intros [= H0]. lia.
  - cbn in Hone.
    destruct (run_upload_store_and_debit env req image bid ua w)
      as [(e & He & HU) | (r & Hr & Hok & HU)]; cbn.
    + rewrite He. split; [|split; [done|]].
      * unfold balance_0_or_1, balance in *. by rewrite HU.
      * left. split; [by exists (inl e)|done].
    + rewrite Hr.
      assert (balance (final (run (upload_store_and_debit env req image bid ua) w)) userId
              = Some 0) as H0.
      { unfold balance. rewrite HU, Hu, lookup_insert_eq. cbn. by rewrite Hone. }
      split; [by right|]. split; [done|]. right. eauto.
  - done.
Qed.

Section TwoRequests.

Variables (envA envB : Env) (reqA reqB : UploadRequest) (userId : string).
Hypothesis HuA : user_id reqA = userId.
Hypothesis HuB : user_id reqB = userId.

Lemma interleave_balance turns a b w :
  balance_0_or_1 userId w -> holds_one a -> holds_one b ->
  balance_0_or_1 userId (interleave turns envA reqA envB reqB a b w).2.
Proof.
  revert a b w. induction turns as [|[|] turns IH]; intros a b w Hbal Ha Hb;
    cbn [interleave]; [done| |].
  - destruct (advance_spec envA reqA a w userId HuA Hbal Ha) as (Hbal' & Ha' & _).
    destruct (advance envA reqA a w) as [a' w']. by apply IH.
  - destruct (advance_spec envB reqB b w userId HuB Hbal Hb) as (Hbal' & Hb' & _).
    destruct (advance envB reqB b w) as [b' w']. by apply IH.
Qed.

(** Once one request has failed, or one has yet to start and the balance is
    0, the two cannot both succeed. *)
Lemma decided_final turns a b w :
  balance_0_or_1 userId w -> holds_one a -> holds_one b ->
  decided userId a b w ->
  ¬ (task_succeeded (interleave turns envA reqA envB reqB a b w).1.1 = true ∧
     task_succeeded (interleave turns envA reqA envB reqB a b w).1.2 = true).
Proof.
  revert a b w. induction turns as [|[|] turns IH]; intros a b w Hbal Ha Hb Hd;
    cbn [interleave].
  - cbn. intros [Hsa Hsb].
    destruct Hd as [Hf | [Hf | [[-> _] | [-> _]]]]; try discriminate;
      apply failed_not_succeeded in Hf; congruence.
  - destruct (advance_spec envA reqA a w userId HuA Hbal Ha) as (Hbal' & Ha' & Hstep).
    destruct (advance envA reqA a w) as [a' w'] eqn:Hadv; cbn in *.
    apply IH; try done.
    destruct Hd as [(r & -> & Hr) | [Hf | [[-> H0] | [-> H0]]]].
    + injection Hstep as -> ->. left. by exists r.
    + right. by left.
    + left. by apply Hstep.
    + destruct a as [|image bid ua|r].
      * destruct Hstep as (-> & _). do 3 right. done.
      * destruct Hstep as [[Hf _] | [_ H0']]; [by left|]. do 3 right. done.
      * injection Hstep as -> ->. do 3 right. done.
  - destruct (advance_spec envB reqB b w userId HuB Hbal Hb) as (Hbal' & Hb' & Hstep).
    destruct (advance envB reqB b w) as [b' w'] eqn:Hadv; cbn in *.
    apply IH; try done.
    destruct Hd as [Hf | [(r & -> & Hr) | [[-> H0] | [-> H0]]]].
    + by left.
    + injection Hstep as -> ->. right. left. by exists r.
    + destruct b as [|image bid ua|r].
      * destruct Hstep as (-> & _). do 2 right. left. done.
      * destruct Hstep as [[Hf _] | [_ H0']]; [right; by left|]. do 2 right. left. done.
      * injection Hstep as -> ->. do 2 right. left. done.
    + right. left. by apply Hstep.
Qed.

Lemma overlap_from_cons_first turns a b w :
  overlap_from turns envA reqA envB reqB (advance envA reqA a w).1 b
    (advance envA reqA a w).2 ->
  overlap_from (first :: turns) envA reqA envB reqB a b w.
Proof.
  intros (pre & post & -> & H). exists (first :: pre), post. split; [done|].
  cbn [interleave]. by destruct (advance envA reqA a w).
Qed.

Lemma overlap_from_cons_second turns a b w :
  overlap_from turns envA reqA envB reqB a (advance envB reqB b w).1
    (advance envB reqB b w).2 ->
  overlap_from (second :: turns) envA reqA envB reqB a b w.
Proof.
  intros (pre & post & -> & H). exists (second :: pre), post. split; [done|].
  cbn [interleave]. by destruct (advance envB reqB b w).
Qed.

(** While neither request has finished, both can succeed only by way of a
    state in which both have passed the check. *)
Lemma unfinished_overlap turns a b w :
  balance_0_or_1 userId w -> holds_one a -> holds_one b ->
  unfinished a -> unfinished b ->
  task_succeeded (interleave turns envA reqA envB reqB a b w).1.1 = true ->
  task_succeeded (interleave turns envA reqA envB reqB a b w).1.2 = true ->
  overlap_from turns envA reqA envB reqB a b w.
Proof.
  revert a b w. induction turns as [|t turns IH]; intros a b w Hbal Ha Hb Hua Hub.
  { cbn. by destruct a. }
  destruct (both_checked a b) eqn:Hboth.
  { intros _ _. by exists [], (t :: turns). }
  destruct t; cbn [interleave].
  - destruct (advance_spec envA reqA a w userId HuA Hbal Ha) as (Hbal' & Ha' & Hstep).
    intros Hsa Hsb. apply overlap_from_cons_first.
    destruct (advance envA reqA a w) as [a' w'] eqn:Hadv; cbn in *.
    assert (decided userId a' b w' -> False) as Hnot.
    { intros Hd. by apply (decided_final turns a' b w' Hbal' Ha' Hb Hd). }
    destruct a as [|image bid ua|r]; [| |done].
    + destruct Hstep as (-> & [Hun | Hf] & _ & _).
      * by apply IH.
      * exfalso. apply Hnot. by left.
    + destruct b as [|? ? ?|?]; [|done|done].
      exfalso. apply Hnot.
      destruct Hstep as [[Hf _] | [_ H0]]; [by left|]. do 3 right. done.
  - destruct (advance_spec envB reqB b w userId HuB Hbal Hb) as (Hbal' & Hb' & Hstep).
    intros Hsa Hsb. apply overlap_from_cons_second.
    destruct (advance envB reqB b w) as [b' w'] eqn:Hadv; cbn in *.
    assert (decided userId a b' w' -> False) as Hnot.
    { intros Hd. by apply (decided_final turns a b' w' Hbal' Ha Hb' Hd). }
    destruct b as [|image bid ua|r]; [| |done].
    + destruct Hstep as (-> & [Hun | Hf] & _ & _).
      * by apply IH.
      * exfalso. apply Hnot. right. by left.
    + destruct a as [|? ? ?|?]; [|done|done].
      exfalso. apply Hnot.
      destruct Hstep as [[Hf _] | [_ H0]]; [right; by left|]. do 2 right. left. done.
Qed.

End TwoRequests.

(** Served one after the other, the two requests never both hold a record
    they have read and not saved. *)
Lemma one_after_the_other_no_overlap envA reqA envB reqB w :
  ¬ overlap [first; first; second; second] envA reqA envB reqB w.
Proof.
  intros (pre & post & Heq & H).
  assert (∀ t, ∃ r, (advance envA reqA (advance envA reqA Pending w).1 t).1 = Finished r)
    as Hfin.
  { intros t. cbn [advance].
    destruct (outcome (run (upload_check envA reqA) w)) as [e|[[image bid] ua]];
      cbn; eauto. }
  destruct pre as [|t1 [|t2 pre]].
  - done.
  - injection Heq as <- _. cbn [interleave] in H.
    by destruct (advance envA reqA Pending w) as [[| |] ?].
  - injection Heq as <- <- Heq. cbn [interleave] in H.
    destruct (advance envA reqA Pending w) as [a1 w1] eqn:H1.
    destruct (Hfin w1) as [r Hr]. cbn in Hr.
    destruct (advance envA reqA a1 w1) as [a2 w2]. cbn in Hr. subst a2.
    assert (∀ ts b w', (interleave ts envA reqA envB reqB (Finished r) b w').1.1
                       = Finished r) as Hkeep.
    { induction ts as [|[|] ts IH]; intros b w'; cbn [interleave advance]; [done|done|].
      by destruct (advance envB reqB b w'). }
    by rewrite Hkeep in H.
Qed.

(** C2, as the code has it. The balance is read by [findOne] and written by
    [save], and nothing between the two keeps another request of the same
    user out. For two uploads of a user who holds exactly 1 token, however
    their turns are interleaved, the balance ends at 1 or at 0, and both
    succeed only if the requests overlap: both have passed the check on the
    balance before either has saved. Served one after the other, at most one
    succeeds. *)
Theorem debit_once_unless_requests_overlap turns envA reqA envB reqB w ua :
  user_id reqA = user_id reqB ->
  UserActivity w !! user_id reqA = Some ua ->
  availableTokens ua = 1 ->
  let x := interleave turns envA reqA envB reqB Pending Pending w in
  balance_0_or_1 (user_id reqA) x.2 ∧
  (task_succeeded x.1.1 = true -> task_succeeded x.1.2 = true ->
   overlap turns envA reqA envB reqB w) ∧
  (turns = [first; first; second; second] ->
   ¬ (task_succeeded x.1.1 = true ∧ task_succeeded x.1.2 = true)).
Proof.
  intros Hu Hua H1. cbn zeta.
  assert (balance_0_or_1 (user_id reqA) w) as Hbal.
  { left. unfold balance. rewrite Hua. cbn. by rewrite H1. }
  split; [|split].
  - by apply (interleave_balance envA envB reqA reqB (user_id reqA) eq_refl (eq_sym Hu)).
  - by apply (unfinished_overlap envA envB reqA reqB (user_id reqA) eq_refl (eq_sym Hu)).
  - intros -> [Hsa Hsb].
    apply (one_after_the_other_no_overlap envA reqA envB reqB w).
    by apply (unfinished_overlap envA envB reqA reqB (user_id reqA) eq_refl (eq_sym Hu)).
Qed.

Lemma debit_once_unless_requests_overlap_witness :
  let x := interleave [first; first; second; second] env_ok (upload_of "a.jpg")
             env_ok' (upload_of "b.jpg") Pending Pending (world_with 1) in
  ¬ (task_succeeded x.1.1 = true ∧ task_succeeded x.1.2 = true).
Proof.
  destruct (debit_once_unless_requests_overlap [first; first; second; second]
              env_ok (upload_of "a.jpg") env_ok' (upload_of "b.jpg") (world_with 1)
              (user_with 1)) as (_ & _ & H).
  - reflexivity.
  - reflexivity.
  - reflexivity.
  - apply H. reflexivity.
Defined.

(** C2 as stated fails: when the two requests overlap, both pass the check
    on the balance 1 and both succeed; each reports 0 remaining tokens and
    the balance ends at 0. *)
Lemma overlapping_uploads_both_debit :
  let x := interleave [first; second; first; second] env_ok (upload_of "a.jpg")
             env_ok' (upload_of "b.jpg") Pending Pending (world_with 1) in
  task_succeeded x.1.1 = true ∧ task_succeeded x.1.2 = true ∧
  reported_balance x.1.1 = Some 0 ∧ reported_balance x.1.2 = Some 0 ∧
  balance x.2 "u1" = Some 0.
Proof. vm_compute. auto. Qed.


(** *** [deleteImage] *)

Lemma truthy_Some s : s ≠ EmptyString -> truthy (Some s) = true.
Proof.
  intros H. cbn. destruct (String.eqb_spec s EmptyString); [done|reflexivity].
Qed.

(** C10, as the code has it. For a deletion request that finds its batch
    and its image, the image entry is pulled from the batch record before
    the object-store delete is attempted. When that delete fails the request
    ends with the error 500 [Failed to delete image: ...], nothing else is
    called, and the pulled record persists, empty or not, while the object
    stays in the bucket. The batch record is deleted, when the pull has
    emptied it, only after the object-store delete has succeeded. *)
Theorem deleteImage_pulls_before_object_delete env req w imageId batchId b img :
  query_imageId req = Some imageId -> imageId ≠ EmptyString ->
  query_batchId req = Some batchId -> batchId ≠ EmptyString ->
  findBatch_rejects env = None ->
  List.find (batch_matches (delete_user_id req) batchId) (ImagesModel w) = Some b ->
  List.find (fun i => String.eqb (image_id i) imageId) (images b) = Some img ->
  pullImage_rejects env = None ->
  let x := run (deleteImage env req) w in
  let userId := delete_user_id req in
  let key := objectKey userId batchId (imageName (details img)) in
  ∃ c,
    update_first (batch_matches userId batchId) (pull_image imageId) (ImagesModel w)
      = Some (pull_image imageId b, c) ∧
    pull_image imageId b ∈ c ∧
    (img ∉ images (pull_image imageId b)) ∧
    (match deleteObject_rejects env with
    | Some msg =>
        calls x = [EvFindBatch userId batchId; EvPullImage userId batchId imageId true;
                   EvDeleteObject key false] ∧
        outcome x = inl (ApiError 500 ("Failed to delete image: " +:+ msg)) ∧
        ImagesModel (final x) = c ∧
        bucket (final x) = bucket w
    | None =>
        ∃ rest,
          calls x = [EvFindBatch userId batchId; EvPullImage userId batchId imageId true;
                     EvDeleteObject key true] ++ rest ∧
          bucket (final x) = delete key (bucket w) ∧
          match images (pull_image imageId b) with
          | [] => ∃ ok, rest = [EvDeleteBatch (_id b) ok]
          | _ :: _ =>
              rest = [] ∧ ImagesModel (final x) = c ∧
              ∃ r, outcome x = inr r ∧ statusCode r = 200
          end
    end).
Proof.
  intros Hi Hi' Hb Hb' Hfind Hbatch Himg Hpull. cbn zeta.
  destruct (update_first_find _ (pull_image imageId) _ _ Hbatch) as [c Hc].
  exists c. split; [exact Hc|]. split.
  { by apply update_first_Some in Hc as (_ & _ & _ & Hin). }
  split.
  { cbn. intros Hin%list_elem_of_filter. destruct Hin as [Hne _].
    apply find_some in Himg as [_ Heq]. apply String.eqb_eq in Heq. done. }
  unfold run, deleteImage. rewrite Hi, Hb, !truthy_Some by done. cbn [negb orb default].
  unfold_calls. rewrite Hfind, Hpull.
  destruct (deleteObject_rejects env) as [msg|] eqn:Hdel.
  - unfold_monad; crunch. rewrite Hbatch. crunch. rewrite Himg. crunch.
    rewrite Hc. crunch. by destruct w.
  - unfold_monad; crunch. rewrite Hbatch. crunch. rewrite Himg. crunch.
    rewrite Hc. crunch.
    destruct (filter _ (images b)) as [|i rest] eqn:Hrest; crunch.
    + destruct (deleteBatch_rejects env); crunch; eexists; eauto.
    + exists []. repeat split; eauto.
Qed.

Lemma deleteImage_pulls_before_object_delete_witness :
  let x := run (deleteImage (with_deleteObject_rejects (Some "S3 unavailable") env_ok)
                  (delete_of "img-1" "batch-1")) world_one_image in
  ∃ c,
    c = ImagesModel (final x) ∧
    outcome x = inl (ApiError 500 "Failed to delete image: S3 unavailable").
Proof.
  destruct (deleteImage_pulls_before_object_delete
              (with_deleteObject_rejects (Some "S3 unavailable") env_ok)
              (delete_of "img-1" "batch-1") world_one_image "img-1" "batch-1"
              {| _id := "doc-1"; batch_userId := "u1"; batch_batchId := "batch-1";
                 images := [{| image_id := "img-1"; details := sample_details |}] |}
              {| image_id := "img-1"; details := sample_details |})
    as (c & _ & _ & _ & H);
    [reflexivity | discriminate | reflexivity | discriminate
    | reflexivity | reflexivity | reflexivity | reflexivity |].
  simpl in H. destruct H as (_ & Ho & Hc & _).
  exists c. split; [symmetry; exact Hc | exact Ho].
Defined.

(** C10 as stated fails: the pull empties the batch record, the object-store
    delete is attempted and fails, and the record has not been deleted: no
    [deleteOne] was issued and the empty record is still in the collection.
    When the object-store delete succeeds, [deleteOne] comes after it. *)
Lemma empty_batch_not_deleted_before_object_delete :
  let x := run (deleteImage (with_deleteObject_rejects (Some "S3 unavailable") env_ok)
                  (delete_of "img-1" "batch-1")) world_one_image in
  let y := run (deleteImage env_ok (delete_of "img-1" "batch-1")) world_one_image in
  calls x = [EvFindBatch "u1" "batch-1"; EvPullImage "u1" "batch-1" "img-1" true;
             EvDeleteObject "uploads/u1/batch-1/a.jpg" false] ∧
  ImagesModel (final x) =
    [{| _id := "doc-1"; batch_userId := "u1"; batch_batchId := "batch-1"; images := [] |}] ∧
  calls y = [EvFindBatch "u1" "batch-1"; EvPullImage "u1" "batch-1" "img-1" true;
             EvDeleteObject "uploads/u1/batch-1/a.jpg" true; EvDeleteBatch "doc-1" true].
Proof. vm_compute. auto. Qed.

End ServerFacts.

(** * Properties of the upload form *)

Module UploadFormFacts.

Import UploadForm.

(** *** The outcome classification *)

(** A pass is started by [handleSubmit] only with a file selected, and
    neither it nor its end changes the selection. *)
Lemma handleSubmit_begin_started s s1 :
  handleSubmit_begin s = (s1, true) -> files s ≠ [] ∧ files s1 = files s.
Proof.
  unfold handleSubmit_begin. destruct (files s) eqn:Hf; [intros [= _ ?]; done|].
  destruct (hasInsufficientTokens s); intros [= <-]; cbn; by rewrite Hf.
Qed.

Lemma handleFileUpload_settle_files closure isRegeneration r s :
  files (handleFileUpload_settle closure isRegeneration r s).1 = files s.
Proof.
  unfold handleFileUpload_settle, handleFileUpload_catch.
  destruct r as [[response|v]|msg|]; cbn.
  - destruct isRegeneration; cbn;
      by destruct (failedImages (data response)) as [[|? ?]|].
  - destruct (negb _); destruct isRegeneration; destruct v; done.
  - by destruct (negb _).
  - done.
Qed.

Lemma handleFileUpload_files closure isRegeneration xhr t s :
  files (handleFileUpload closure isRegeneration xhr t s).1 = files s.
Proof.
  destruct t; unfold handleFileUpload; by rewrite handleFileUpload_settle_files.
Qed.

(** C5. After a completed processing pass (a response is recorded) over a
    non-empty selection, [uploadStatus] is [allSuccess] when no failure is
    recorded, [allFailed] when as many failures are recorded as there are
    files in the session, and [partialSuccess] otherwise. *)
Theorem uploadStatus_classification s r :
  uploadResponse s = Some r ->
  files s ≠ [] ->
  (length (failedUploads s) = 0 -> uploadStatus s = allSuccess) ∧
  (length (failedUploads s) = length (files s) -> uploadStatus s = allFailed) ∧
  (length (failedUploads s) ≠ 0 -> length (failedUploads s) ≠ length (files s) ->
   uploadStatus s = partialSuccess).
Proof.
  intros Hr Hf. unfold uploadStatus. rewrite Hr.
  assert (length (files s) ≠ 0) by (destruct (files s); cbn; [done|lia]).
  repeat split.
  - intros H0. rewrite H0.
    destruct (Nat.eqb_spec 0 (length (files s))); [lia|reflexivity].
  - intros ->. by rewrite Nat.eqb_refl.
  - intros H0 Hne.
    destruct (Nat.eqb_spec (length (failedUploads s)) (length (files s))); [lia|].
    destruct (Nat.ltb_spec 0 (length (failedUploads s))); [reflexivity|lia].
Qed.

Lemma uploadStatus_classification_witness :
  uploadStatus after_first_pass = partialSuccess.
Proof.
  apply (uploadStatus_classification after_first_pass first_pass).
  - reflexivity.
  - discriminate.
  - simpl. lia.
  - simpl. lia.
Defined.

(** *** Regeneration *)

Lemma filter_sublist {A} (p : A -> bool) (l : list A) : sublist (List.filter p l) l.
Proof.
  induction l as [|x l IH]; cbn; [constructor|].
  destruct (p x); by constructor.
Qed.

Lemma filter_none {A} (l : list A) : List.filter (fun _ => false) l = [].
Proof. induction l; cbn; auto. Qed.

(** C6. A regeneration whose request comes back with a well-formed response
    leaves a merged result whose successful images are those of the prior
    result followed by those of the response; the failed uploads are exactly
    the failures the response lists (none when it lists none); and the files
    kept for another retry are those of the previously failed files that the
    response names, in their order. *)
Theorem regeneration_merges_results xhr x s prior response :
  uploadResponse s = Some prior ->
  failedFiles s ≠ [] ->
  (200 <= status x < 300)%Z ->
  parsedResponse x = Some response ->
  let s' := regenerateFailedFiles xhr (Settled (onload x)) s in
  (∃ merged,
     uploadResponse s' = Some merged ∧
     successfulImages (data merged) =
       successfulImages (data prior) ++ successfulImages (data response)) ∧
  failedUploads s' = default [] (failedImages (data response)) ∧
  failedFiles s' =
    List.filter
      (fun file => existsb (fun f => String.eqb (filename f) (name file)) (failedUploads s'))
      (failedFiles s) ∧
  sublist (failedFiles s') (failedFiles s).
Proof.
  intros Hprior Hff [Hlo Hhi] Hparsed. cbn zeta.
  unfold regenerateFailedFiles, regenerateFailedFiles_begin.
  destruct (failedFiles s) as [|f0 ff] eqn:Hfs; [done|].
  unfold handleFileUpload, uploadPromise.
  apply Z.leb_le in Hlo. apply Z.ltb_lt in Hhi. rewrite Hlo, Hhi, Hparsed.
  unfold handleFileUpload_settle, previousSuccessfulImages.
  cbn -[List.filter existsb]. rewrite Hprior, Hfs.
  destruct (failedImages (data response)) as [[|fi fis]|];
    cbn -[List.filter existsb].
  - repeat split; eauto; [cbn [existsb]; by rewrite (filter_none (f0 :: ff))|apply sublist_nil_l].
  - repeat split; eauto. apply filter_sublist.
  - repeat split; eauto; [cbn [existsb]; by rewrite (filter_none (f0 :: ff))|apply sublist_nil_l].
Qed.

Lemma regeneration_merges_results_witness :
  let s' := regenerateFailedFiles 2 (Settled (onload (ok_with second_pass))) after_first_pass in
  failedUploads s' = [{| filename := "c.jpg"; error := "storage failed" |}] ∧
  sublist (failedFiles s') (failedFiles after_first_pass).
Proof.
  destruct (regeneration_merges_results 2 (ok_with second_pass) after_first_pass
              first_pass second_pass) as (_ & H & _ & H');
    [reflexivity | discriminate | simpl; lia | reflexivity |].
  split; [exact H | exact H'].
Defined.

(** *** The limit of 100 files *)

Lemma filter_index_length {A} (p : nat -> bool) (i : nat) (l : list A) :
  length (filter_index p i l) <= length l.
Proof.
  revert i. induction l as [|x l IH]; intros i; cbn; [lia|].
  destruct (p i); cbn; specialize (IH (S i)); lia.
Qed.

Lemma handleSubmit_begin_files s : files (handleSubmit_begin s).1 = files s.
Proof.
  unfold handleSubmit_begin. destruct (files s) eqn:Hf; cbn; [done|].
  destruct (hasInsufficientTokens s); cbn; done.
Qed.

Lemma handleSubmit_end_files r s : files (handleSubmit_end r s) = files s.
Proof.
  unfold handleSubmit_end. destruct r as [msg|?]; cbn; [|done].
  by destruct (negb _).
Qed.

Lemma regenerateFailedFiles_begin_files s :
  files (regenerateFailedFiles_begin s).1 = files s.
Proof. unfold regenerateFailedFiles_begin. by destruct (failedFiles s). Qed.

Lemma regenerateFailedFiles_end_files closure r s :
  files (regenerateFailedFiles_end closure r s) = files s.
Proof.
  unfold regenerateFailedFiles_end. destruct r as [msg|?]; cbn; [|done].
  by destruct (negb _).
Qed.

Lemma handleSubmit_files xhr t s : files (handleSubmit xhr t s) = files s.
Proof.
  unfold handleSubmit. pose proof (handleSubmit_begin_files s) as Hb.
  destruct (handleSubmit_begin s) as [s1 [|]]; cbn in Hb; [|done].
  pose proof (handleFileUpload_files s false xhr t s1) as Hu.
  destruct (handleFileUpload s false xhr t s1) as [s2 [r|]]; cbn in Hu.
  - by rewrite handleSubmit_end_files, Hu.
  - by rewrite Hu.
Qed.

Lemma handleSubmit_cancelled_files xhr s : files (handleSubmit_cancelled xhr s) = files s.
Proof.
  unfold handleSubmit_cancelled. pose proof (handleSubmit_begin_files s) as Hb.
  destruct (handleSubmit_begin s) as [s1 [|]]; cbn in Hb; [|done].
  set (s2 := cancelUpload (handleFileUpload_send xhr s1)).
  pose proof (handleFileUpload_settle_files s false (uploadPromise onabort) s2) as Hu.
  destruct (handleFileUpload_settle s false (uploadPromise onabort) s2) as [s3 [r|]];
    cbn in Hu; rewrite ?handleSubmit_end_files, Hu; exact Hb.
Qed.

Lemma regenerateFailedFiles_files xhr t s : files (regenerateFailedFiles xhr t s) = files s.
Proof.
  unfold regenerateFailedFiles. pose proof (regenerateFailedFiles_begin_files s) as Hb.
  destruct (regenerateFailedFiles_begin s) as [s1 [|]]; cbn in Hb; [|done].
  pose proof (handleFileUpload_files s true xhr t s1) as Hu.
  destruct (handleFileUpload s true xhr t s1) as [s2 [r|]]; cbn in Hu.
  - by rewrite regenerateFailedFiles_end_files, Hu.
  - by rewrite Hu.
Qed.

Lemma regenerateFailedFiles_cancelled_files xhr s :
  files (regenerateFailedFiles_cancelled xhr s) = files s.
Proof.
  unfold regenerateFailedFiles_cancelled.
  pose proof (regenerateFailedFiles_begin_files s) as Hb.
  destruct (regenerateFailedFiles_begin s) as [s1 [|]]; cbn in Hb; [|done].
  set (s2 := cancelUpload (handleFileUpload_send xhr s1)).
  pose proof (handleFileUpload_settle_files s true (uploadPromise onabort) s2) as Hu.
  destruct (handleFileUpload_settle s true (uploadPromise onabort) s2) as [s3 [r|]];
    cbn in Hu; rewrite ?regenerateFailedFiles_end_files, Hu; exact Hb.
Qed.

Lemma step_files_bound a s :
  length (files s) <= 100 -> length (files (step a s)) <= 100.
Proof.
  intros H. unfold step. destruct (renderThrows s); [done|].
  destruct a as [fl|fl| | |i| | |xhr t|xhr|xhr t|xhr| |t].
  - unfold handleFileChange. destruct fl as [fl|]; [|done].
    destruct (Nat.ltb_spec 100 (length (files s) + length (List.filter isImage fl)));
      cbn; [done|]. rewrite length_app. lia.
  - unfold handleDrop. destruct fl as [fl|]; [|done]. cbn [files setIsDragging].
    destruct (Nat.ltb_spec 100 (length (files s) + length (List.filter isImage fl)));
      cbn; [done|]. rewrite length_app. lia.
  - done.
  - done.
  - cbn. pose proof (filter_index_length (fun j => negb (j =? i)) 0 (files s)). lia.
  - cbn. lia.
  - cbn. lia.
  - by rewrite handleSubmit_files.
  - by rewrite handleSubmit_cancelled_files.
  - by rewrite regenerateFailedFiles_files.
  - by rewrite regenerateFailedFiles_cancelled_files.
  - unfold cancelUpload. by destruct (xhrRef s).
  - done.
Qed.

(** C7. In every state the form can reach, at most 100 files are selected;
    and when the image files offered by a selection or by a drop, added to
    the files already selected, would make more than 100, the handler shows
    the error toast and leaves the selected files as they are. *)
Theorem selected_files_never_exceed_100 s :
  reachable s ->
  length (files s) <= 100 ∧
  ∀ offered,
    100 < length (files s) + length (List.filter isImage offered) ->
    files (handleFileChange (Some offered) s) = files s ∧
    toasts (handleFileChange (Some offered) s) = toasts s ++ [too_many] ∧
    files (handleDrop (Some offered) s) = files s ∧
    toasts (handleDrop (Some offered) s) = toasts s ++ [too_many].
Proof.
  intros Hreach. split.
  - induction Hreach as [|a s _ IH]; [cbn; lia|]. by apply step_files_bound.
  - intros offered Hover. unfold handleFileChange, handleDrop.
    cbn [files setIsDragging].
    destruct (Nat.ltb_spec 100 (length (files s) + length (List.filter isImage offered)));
      [done|lia].
Qed.

Lemma selected_files_never_exceed_100_witness :
  files (handleDrop (Some (repeat (jpg "a.jpg") 101)) initial) = files initial.
Proof.
  destruct (selected_files_never_exceed_100 initial reachable_initial) as [_ H].
  destruct (H (repeat (jpg "a.jpg") 101)) as (_ & _ & H1 & _).
  - simpl. lia.
  - exact H1.
Defined.

(** *** Cancellation and errors *)




(** *** The MIME check of the form *)

(** C8, at the input where the form departs from it: a dropped or selected
    file of type [image/gif] is taken into the selection, although the type
    is none of [image/jpeg], [image/png], [image/webp]; a submission then
    starts the upload with it. *)
Theorem form_accepts_any_image_type :
  (type gif ∉ ["image/jpeg"; "image/png"; "image/webp"]) ∧
  files (handleDrop (Some [gif]) initial) = [gif] ∧
  files (handleFileChange (Some [gif]) initial) = [gif] ∧
  (handleSubmit_begin (handleDrop (Some [gif]) initial)).2 = true.
Proof.
  split; [|by vm_compute].
  intros H. repeat (apply elem_of_cons in H as [H|H]; [discriminate|]).
  by apply elem_of_nil in H.
Qed.

End UploadFormFacts.

Module HomeFacts.

Import Home.

(** The [Home] page keeps of the dropped or selected files only those whose
    type is one of [image/jpeg], [image/png], [image/webp]. *)
Lemma onDrop_allow_list offered s f :
  f ∈ files (onDrop offered s) ->
  f ∈ files s ∨ type f ∈ ["image/jpeg"; "image/png"; "image/webp"].
Proof.
  unfold onDrop. cbn. intros [H|H]%elem_of_app; [by left|right].
  apply list_elem_of_In, filter_In in H as [_ H].
  unfold allowed in H. by apply bool_decide_eq_true in H.
Qed.

Lemma handleFileSelect_allow_list offered s f :
  f ∈ files (handleFileSelect offered s) ->
  f ∈ files s ∨ type f ∈ ["image/jpeg"; "image/png"; "image/webp"].
Proof.
  unfold handleFileSelect. destruct offered as [fl|]; [|by left].
  cbn. intros [H|H]%elem_of_app; [by left|right].
  apply list_elem_of_In, filter_In in H as [_ H].
  unfold allowed in H. by apply bool_decide_eq_true in H.
Qed.

End HomeFacts.

(** * More on the controllers: effects on the stores *)

Module ServerEffectsFacts.

Import Server ServerEffects ServerFacts.
Local Open Scope Z_scope.

Lemma upload_store_and_debit_stores env req image bid ua w l :
  world (upload_store_and_debit env req image bid ua
           {| world := w; log := l; metaResult := None |}).2 =
  stores_after env req image bid ua w.
Proof.
  unfold stores_after, save_done, push_done, put_done, pushed, details_of.
  unfold upload_store_and_debit, upload_try, upload_catch.
  unfold_calls.
  destruct (processImage_result env) as [msg|m]; [unfold_monad; crunch; by destruct w|].
  destruct (put_rejects env) as [msg|]; [by unfold_monad; crunch|].
  destruct (pushImage_rejects env) as [msg|]; [by unfold_monad; crunch|].
  destruct (Z.ltb_spec (availableTokens ua) 1) as [Hlt|Hge].
  - rewrite (bool_decide_false (1 <= availableTokens ua)) by lia.
    unfold_monad; crunch. by destruct (update_first _ _ _) as [[b c]|]; crunch.
  - rewrite (bool_decide_true (1 <= availableTokens ua)) by lia.
    destruct (save_rejects env) as [msg|];
      unfold_monad; crunch; by destruct (update_first _ _ _) as [[b c]|]; crunch.
Qed.

(** The guarded part fails with the error 500 only. *)
Lemma upload_store_and_debit_error env req image bid ua s e :
  metaResult s = None ->
  (upload_store_and_debit env req image bid ua s).1 = inl e ->
  ∃ msg, e = ApiError 500 ("Failed to upload image: " +:+ msg).
Proof.
  intros Hm. destruct s as [w l mr]. cbn in Hm. subst mr.
  unfold upload_store_and_debit, upload_try, upload_catch.
  unfold_calls.
  destruct (processImage_result env) as [msg|m];
    [unfold_monad; crunch; intros [= <-]; eauto|].
  destruct (put_rejects env) as [msg|];
    [unfold_monad; crunch; intros [= <-]; eauto|].
  destruct (pushImage_rejects env) as [msg|];
    [unfold_monad; crunch; intros [= <-]; eauto|].
  destruct (availableTokens ua <? 1)%Z;
    destruct (save_rejects env) as [msg|];
    unfold_monad; crunch;
    destruct (update_first _ _ _) as [[b c]|]; crunch;
    first [intros [= <-]; eauto | discriminate].
Qed.

(** The stores after a request that got past the checks, and after one that
    did not. *)
Lemma uploadSingleImage_stores env req w image ua :
  admitted env req w image ua ->
  final (run (uploadSingleImage env req) w) =
    stores_after env req image (js_or (body_batchId req) (uuidv4 env)) ua w.
Proof.
  intros (Hf & Hfind & Hua & Hge).
  unfold run, final, uploadSingleImage, bind.
  destruct (upload_check env req {| world := w; log := []; metaResult := None |})
    as [[e|[[image' bid] ua']] s1] eqn:Hc;
    apply upload_check_inv in Hc as (Hw & Hm & Hr); cbn in Hw, Hm.
  - destruct Hr as [_ [Hn | [[? Hs] | [Hn | (ua' & Hua' & Hlt)]]]]; cbn in *;
      try congruence.
    assert (ua' = ua) by congruence. subst ua'. lia.
  - destruct Hr as (Hf' & -> & _ & Hua' & _). cbn in Hua'.
    assert (image' = image) by congruence. assert (ua' = ua) by congruence.
    subst image' ua'.
    destruct s1 as [w1 l1 m1]. cbn in Hw, Hm. subst w1 m1.
    pose proof (upload_store_and_debit_stores env req image
                  (js_or (body_batchId req) (uuidv4 env)) ua w l1) as H.
    by destruct (upload_store_and_debit env req image _ ua _) as [r s].
Qed.

Lemma uploadSingleImage_refused env req w :
  (∀ image ua, ¬ admitted env req w image ua) ->
  final (run (uploadSingleImage env req) w) = w ∧
  (calls (run (uploadSingleImage env req) w) = [] ∨
   calls (run (uploadSingleImage env req) w) = [EvFindUser (user_id req)]) ∧
  ∃ e, outcome (run (uploadSingleImage env req) w) = inl e.
Proof.
  intros Hno.
  unfold run, final, calls, outcome, uploadSingleImage, bind.
  destruct (upload_check env req {| world := w; log := []; metaResult := None |})
    as [[e|[[image' bid] ua']] s1] eqn:Hc;
    apply upload_check_inv in Hc as (Hw & Hm & Hr); cbn in Hw, Hm.
  - cbn. destruct Hr as [Hlog _]. cbn in Hlog. split; [done|]. split; [|eauto].
    destruct Hlog as [-> | ->]; auto.
  - destruct Hr as (Hf' & -> & Hfind & Hua' & Hge & _). cbn in Hua'.
    exfalso. by apply (Hno image' ua').
Qed.

(** What the check of lines 31-43 can fail with. *)
Lemma upload_check_error env req s e s' :
  upload_check env req s = (inl e, s') ->
  e = ApiError 400 "No image uploaded" ∨
  (∃ msg, e = JsError msg) ∨
  e = ApiError 404 "User activity record not found" ∨
  e = ApiError 400 "Insufficient tokens to upload an image".
Proof.
  unfold upload_check. destruct (file req) as [image|].
  2: { unfold_monad. intros [= <- <-]. auto. }
  unfold_calls. destruct (findUser_rejects env) as [msg|].
  { unfold_monad; cbn. intros [= <- <-]. eauto. }
  unfold_monad; cbn.
  destruct (UserActivity (world s) !! user_id req) as [ua|].
  2: { intros [= <- <-]. auto. }
  destruct (availableTokens ua <? 1)%Z; [|discriminate].
  intros [= <- <-]. auto.
Qed.

(** X1. A request that [uploadSingleImage] answers with an [ApiError] other
    than 500 has had no effect: the stores are as before, at most the user's
    activity record was looked up, and the status is 400 or 404. *)
Theorem upload_client_error_has_no_effect env req w code msg :
  outcome (run (uploadSingleImage env req) w) = inl (ApiError code msg) ->
  code ≠ 500 ->
  final (run (uploadSingleImage env req) w) = w ∧
  (calls (run (uploadSingleImage env req) w) = [] ∨
   calls (run (uploadSingleImage env req) w) = [EvFindUser (user_id req)]) ∧
  (code = 400 ∨ code = 404).
Proof.
  unfold run, final, calls, outcome, uploadSingleImage, bind.
  destruct (upload_check env req {| world := w; log := []; metaResult := None |})
    as [[e|[[image bid] ua]] s1] eqn:Hc.
  - pose proof (upload_check_error _ _ _ _ _ Hc) as He.
    apply upload_check_inv in Hc as (Hw & _ & Hlog & _). cbn in *.
    intros [= ->] Hcode. split; [done|]. split.
    + destruct Hlog as [-> | ->]; auto.
    + destruct He as [[= <- _] | [[? [=]] | [[= <- _] | [= <- _]]]]; auto.
  - apply upload_check_inv in Hc as (_ & Hm & _). cbn in Hm.
    pose proof (upload_store_and_debit_error env req image bid ua s1) as He.
    destruct (upload_store_and_debit env req image bid ua s1) as [[e|r] s2]; cbn in *.
    + intros [= ->] Hcode. destruct (He _ Hm eq_refl) as [m [= -> _]]. done.
    + discriminate.
Qed.

Lemma upload_client_error_has_no_effect_witness :
  final (run (uploadSingleImage env_ok (upload_of "a.jpg")) (world_with 0)) = world_with 0.
Proof.
  destruct (upload_client_error_has_no_effect env_ok (upload_of "a.jpg") (world_with 0)
              400 "Insufficient tokens to upload an image") as (H & _).
  - reflexivity.
  - discriminate.
  - exact H.
Defined.

(** X2. The staged file that the generator leaves at [imagePath] is gone
    from the local file system when the handler ends, whether the put, the
    record append or the save fail or not; no other local file is touched. *)
Theorem upload_removes_staged_file env req w image ua m :
  admitted env req w image ua ->
  processImage_result env = inr m ->
  fs (final (run (uploadSingleImage env req) w)) = delete (imagePath m) (fs w).
Proof.
  intros Hadm Hp. rewrite (uploadSingleImage_stores env req w image ua Hadm).
  unfold stores_after. rewrite Hp. cbn. apply delete_insert_eq.
Qed.

Lemma upload_removes_staged_file_witness :
  fs (final (run (uploadSingleImage
                    (with_pushImage_rejects (Some "database unavailable") env_ok)
                    (upload_of "a.jpg"))
               world_with_local_file))
  = delete "public/temp/exiftool/a.jpg" (fs world_with_local_file).
Proof.
  apply (upload_removes_staged_file
           (with_pushImage_rejects (Some "database unavailable") env_ok)
           (upload_of "a.jpg") world_with_local_file
           {| filename := "a.jpg"; mimetype := "image/jpeg" |}
           (user_with 1) sample_meta).
  - repeat split; reflexivity.
  - reflexivity.
Defined.

(** The response of a request whose every step goes through. *)
Lemma upload_store_and_debit_response env req image bid ua w l m :
  processImage_result env = inr m ->
  save_done env ua = true ->
  (upload_store_and_debit env req image bid ua
     {| world := w; log := l; metaResult := None |}).1 =
  inr {| statusCode := 200; success := true;
         message := "Image processed, stored successfully, and token deducted";
         data := Some
           {| data_id := _id (pushed_record env (user_id req) bid
                                (details_of env req image bid m) (ImagesModel w));
              data_userId := user_id req;
              data_batchId := bid;
              data_image := details_of env req image bid m;
              remainingTokens := availableTokens ua - 1 |} |}.
Proof.
  intros Hp Hdone. unfold save_done, push_done, put_done in Hdone.
  apply andb_prop in Hdone as [Hdone Hsave]. apply andb_prop in Hdone as [Hdone Hge].
  apply andb_prop in Hdone as [Hput Hpush].
  apply bool_decide_eq_true in Hsave, Hge, Hput, Hpush.
  unfold pushed_record, details_of.
  unfold upload_store_and_debit, upload_try, upload_catch.
  unfold_calls. rewrite Hp, Hput, Hpush, Hsave.
  destruct (Z.ltb_spec (availableTokens ua) 1) as [|_]; [lia|].
  unfold_monad; crunch. by destruct (update_first _ _ _) as [[b c]|]; crunch.
Qed.

Lemma uploadSingleImage_response env req w image ua m :
  admitted env req w image ua ->
  processImage_result env = inr m ->
  save_done env ua = true ->
  let bid := js_or (body_batchId req) (uuidv4 env) in
  outcome (run (uploadSingleImage env req) w) =
  inr {| statusCode := 200; success := true;
         message := "Image processed, stored successfully, and token deducted";
         data := Some
           {| data_id := _id (pushed_record env (user_id req) bid
                                (details_of env req image bid m) (ImagesModel w));
              data_userId := user_id req;
              data_batchId := bid;
              data_image := details_of env req image bid m;
              remainingTokens := availableTokens ua - 1 |} |}.
Proof.
  intros (Hf & Hfind & Hua & Hge) Hp Hdone. cbn zeta.
  unfold run, outcome, uploadSingleImage, bind.
  destruct (upload_check env req {| world := w; log := []; metaResult := None |})
    as [[e|[[image' bid] ua']] s1] eqn:Hc;
    apply upload_check_inv in Hc as (Hw & Hm & Hr); cbn in Hw, Hm.
  - destruct Hr as [_ [Hn | [[? Hs] | [Hn | (ua' & Hua' & Hlt)]]]]; cbn in *;
      try congruence.
    assert (ua' = ua) by congruence. subst ua'. lia.
  - destruct Hr as (Hf' & -> & _ & Hua' & _). cbn in Hua'.
    assert (image' = image) by congruence. assert (ua' = ua) by congruence.
    subst image' ua'.
    destruct s1 as [w1 l1 m1]. cbn in Hw, Hm. subst w1 m1.
    pose proof (upload_store_and_debit_response env req image
                  (js_or (body_batchId req) (uuidv4 env)) ua w l1 m Hp Hdone) as H.
    by destruct (upload_store_and_debit env req image _ ua _) as [r s].
Qed.

Lemma update_first_None p f l :
  update_first p f l = None ↔ List.find p l = None.
Proof.
  induction l as [|a l IH]; cbn; [done|].
  destruct (p a); [done|].
  destruct IH as [IH1 IH2].
  destruct (update_first p f l) as [[b c]|]; destruct (List.find p l);
    split; intros H; try done.
  - by specialize (IH2 eq_refl).
  - by specialize (IH1 eq_refl).
Qed.

Lemma find_app_None {A} (p : A -> bool) l1 l2 :
  List.find p l1 = None -> List.find p (l1 ++ l2) = List.find p l2.
Proof.
  induction l1 as [|a l IH]; cbn; [done|]. destruct (p a); [done|]. apply IH.
Qed.

Lemma find_app_Some {A} (p : A -> bool) l1 l2 x :
  List.find p l1 = Some x -> List.find p (l1 ++ l2) = Some x.
Proof.
  induction l1 as [|a l IH]; cbn; [done|]. destruct (p a); [done|]. apply IH.
Qed.

(** Updating the first record of a batch with a function that keeps the
    record in its batch leaves the records of the batch where they are and
    the other records as they are. *)
Lemma update_first_spec userId batchId f l b0 :
  (∀ b, batch_matches userId batchId (f b) = batch_matches userId batchId b) ->
  List.find (batch_matches userId batchId) l = Some b0 ->
  ∃ l1 l2,
    l = l1 ++ b0 :: l2 ∧
    List.find (batch_matches userId batchId) l1 = None ∧
    update_first (batch_matches userId batchId) f l = Some (f b0, l1 ++ f b0 :: l2).
Proof.
  intros Hf. induction l as [|a l IH]; cbn; [done|].
  destruct (batch_matches userId batchId a) eqn:Ha.
  - intros [= <-]. by exists [], l.
  - intros H. destruct (IH H) as (l1 & l2 & -> & Hn & ->).
    exists (a :: l1), l2. cbn. by rewrite ?Ha.
Qed.

Lemma others_app userId batchId l1 l2 :
  others userId batchId (l1 ++ l2) = others userId batchId l1 ++ others userId batchId l2.
Proof. unfold others. apply List.filter_app. Qed.

Lemma others_update_first userId batchId f l :
  (∀ b, batch_matches userId batchId (f b) = batch_matches userId batchId b) ->
  others userId batchId
    (match update_first (batch_matches userId batchId) f l with
     | Some (_, c) => c
     | None => l
     end) = others userId batchId l.
Proof.
  intros Hf. destruct (List.find (batch_matches userId batchId) l) as [b0|] eqn:Hfind.
  - destruct (update_first_spec userId batchId f l b0 Hf Hfind) as (l1 & l2 & -> & _ & ->).
    rewrite !others_app. f_equal. unfold others. cbn. rewrite Hf.
    apply find_some in Hfind as [_ Hb0]. by rewrite Hb0.
  - apply (update_first_None _ f) in Hfind. by rewrite Hfind.
Qed.

Lemma others_pushed env userId batchId d c :
  others userId batchId (pushed env userId batchId d c) = others userId batchId c.
Proof.
  unfold pushed.
  pose proof (others_update_first userId batchId
                (push_image {| image_id := new_image_id env; details := d |}) c
                (fun b => eq_refl)) as H.
  destruct (update_first _ _ c) as [[b c']|]; [done|].
  rewrite others_app. unfold others at 2. cbn.
  rewrite batch_matches_refl by done. cbn. apply app_nil_r.
Qed.

Lemma admitted_or_not env req w :
  (∃ image ua, admitted env req w image ua) ∨ (∀ image ua, ¬ admitted env req w image ua).
Proof.
  unfold admitted.
  destruct (file req) as [image|]; [|right; intros ? ? (? & _); done].
  destruct (findUser_rejects env) as [msg|]; [right; intros ? ? (_ & ? & _); done|].
  destruct (UserActivity w !! user_id req) as [ua|]; [|right; intros ? ? (_ & _ & ? & _); done].
  destruct (Z.le_gt_cases 1 (availableTokens ua)).
  - left. by exists image, ua.
  - right. intros ? ? (_ & _ & [= <-] & ?). lia.
Qed.

(** X3. Whatever happens to a request, [uploadSingleImage] leaves alone the
    activity records of the other users, the objects stored under other keys
    and the batch records of other users and batches. *)
Theorem upload_touches_only_its_own env req w u k :
  u ≠ user_id req ->
  (∀ image, file req = Some image ->
     k ≠ objectKey (user_id req) (js_or (body_batchId req) (uuidv4 env)) (filename image)) ->
  let x := run (uploadSingleImage env req) w in
  UserActivity (final x) !! u = UserActivity w !! u ∧
  bucket (final x) !! k = bucket w !! k ∧
  others (user_id req) (js_or (body_batchId req) (uuidv4 env)) (ImagesModel (final x)) =
  others (user_id req) (js_or (body_batchId req) (uuidv4 env)) (ImagesModel w).
Proof.
  intros Hu Hk. cbn zeta.
  destruct (admitted_or_not env req w) as [(image & ua & Hadm) | Hno].
  - rewrite (uploadSingleImage_stores env req w image ua Hadm).
    destruct Hadm as (Hf & _). specialize (Hk image Hf).
    unfold stores_after. destruct (processImage_result env) as [msg|m]; [done|]. cbn.
    split; [|split].
    + destruct (save_done env ua); [|done]. by rewrite lookup_insert_ne.
    + destruct (put_done env); [|done]. by rewrite lookup_insert_ne.
    + destruct (push_done env); [|done]. apply others_pushed.
  - by destruct (uploadSingleImage_refused env req w Hno) as (-> & _).
Qed.

Lemma upload_touches_only_its_own_witness :
  let x := run (uploadSingleImage env_ok (upload_of "a.jpg")) world_two_users in
  balance (final x) "u1" = Some 0 ∧
  UserActivity (final x) !! "u2" = Some (user_with 5) ∧
  bucket (final x) !! "uploads/u2/batch-9/z.png" =
    Some {| Body := "png bytes"; ContentType := "image/png" |} ∧
  others "u1" "batch-1" (ImagesModel (final x)) = ImagesModel world_two_users.
Proof.
  destruct (upload_touches_only_its_own env_ok (upload_of "a.jpg") world_two_users
              "u2" "uploads/u2/batch-9/z.png") as (H1 & H2 & H3).
  - discriminate.
  - intros image [= <-]. discriminate.
  - split; [reflexivity|]. split; [|split].
    + rewrite H1. reflexivity.
    + rewrite H2. reflexivity.
    + etrans; [exact H3 | reflexivity].
Defined.

Lemma upload_store_and_debit_not_done env req image bid ua w l :
  (∀ m, processImage_result env = inr m -> save_done env ua = false) ->
  ∃ e, (upload_store_and_debit env req image bid ua
          {| world := w; log := l; metaResult := None |}).1 = inl e.
Proof.
  unfold save_done, push_done, put_done.
  unfold upload_store_and_debit, upload_try, upload_catch.
  unfold_calls.
  destruct (processImage_result env) as [msg|m]; [unfold_monad; crunch; eauto|].
  intros H. specialize (H m eq_refl).
  destruct (put_rejects env) as [msg|]; [unfold_monad; crunch; eauto|].
  destruct (pushImage_rejects env) as [msg|]; [unfold_monad; crunch; eauto|].
  destruct (Z.ltb_spec (availableTokens ua) 1) as [Hlt|Hge].
  { unfold_monad; crunch. destruct (update_first _ _ _) as [[b c]|]; crunch; eauto. }
  rewrite (bool_decide_true (1 <= availableTokens ua)) in H by lia.
  destruct (save_rejects env) as [msg|]; [|done].
  unfold_monad; crunch. destruct (update_first _ _ _) as [[b c]|]; crunch; eauto.
Qed.

(** A request succeeds exactly when it is admitted and every step of the
    guarded part goes through. *)
Lemma uploadSingleImage_succeeds env req w r :
  outcome (run (uploadSingleImage env req) w) = inr r ->
  ∃ image ua m,
    admitted env req w image ua ∧ processImage_result env = inr m ∧
    save_done env ua = true.
Proof.
  intros Hr.
  destruct (admitted_or_not env req w) as [(image & ua & Hadm) | Hno].
  2: { destruct (uploadSingleImage_refused env req w Hno) as (_ & _ & e & He). congruence. }
  exists image, ua.
  destruct (processImage_result env) as [msg|m] eqn:Hp.
  - exfalso. revert Hr. unfold run, outcome, uploadSingleImage, bind.
    destruct (upload_check env req {| world := w; log := []; metaResult := None |})
      as [[e|[[image' bid] ua']] s1] eqn:Hc; [done|].
    apply upload_check_inv in Hc as (_ & Hm & _). cbn in Hm.
    destruct s1 as [w1 l1 m1]. cbn in Hm. subst m1.
    destruct (upload_store_and_debit_not_done env req image' bid ua' w1 l1) as [e He].
    { intros m. by rewrite Hp. }
    by destruct (upload_store_and_debit env req image' bid ua' _) as [[?|?] ?].
  - exists m. split; [done|]. split; [done|].
    destruct (save_done env ua) eqn:Hdone; [done|]. exfalso.
    revert Hr. unfold run, outcome, uploadSingleImage, bind.
    destruct (upload_check env req {| world := w; log := []; metaResult := None |})
      as [[e|[[image' bid] ua']] s1] eqn:Hc; [done|].
    apply upload_check_inv in Hc as (_ & Hm & Hr'). cbn in Hm.
    destruct Hr' as (_ & _ & _ & Hua' & _). cbn in Hua'.
    destruct Hadm as (_ & _ & Hua & _).
    assert (ua' = ua) by congruence. subst ua'.
    destruct s1 as [w1 l1 m1]. cbn in Hm. subst m1.
    destruct (upload_store_and_debit_not_done env req image' bid ua w1 l1) as [e He].
    { intros m' _. exact Hdone. }
    by destruct (upload_store_and_debit env req image' bid ua _) as [[?|?] ?].
Qed.

Lemma pushed_record_found env userId batchId d c :
  List.find (batch_matches userId batchId) (pushed env userId batchId d c) =
    Some (pushed_record env userId batchId d c) ∧
  last (images (pushed_record env userId batchId d c)) =
    Some {| image_id := new_image_id env; details := d |}.
Proof.
  unfold pushed, pushed_record.
  destruct (List.find (batch_matches userId batchId) c) as [b0|] eqn:Hfind.
  - destruct (update_first_spec userId batchId
                (push_image {| image_id := new_image_id env; details := d |}) c b0
                (fun b => eq_refl) Hfind) as (l1 & l2 & -> & Hl1 & ->).
    apply find_some in Hfind as [_ Hb0]. split.
    + rewrite find_app_None by done. cbn.
      change (batch_matches userId batchId (push_image _ b0))
        with (batch_matches userId batchId b0). by rewrite Hb0.
    + cbn. apply last_snoc.
  - pose proof Hfind as Hn. apply (update_first_None _
      (push_image {| image_id := new_image_id env; details := d |})) in Hn.
    rewrite Hn. split; [|done].
    rewrite find_app_None by done. cbn. by rewrite batch_matches_refl.
Qed.

(** X4. What a successful response reports is what the stores hold: the
    remaining tokens are the persisted balance, one less than before; the
    object of the image lies under the key of the reported URL with the
    staged bytes and the MIME type of the upload; and the record whose id is
    reported is the first record of the batch and ends with the image. *)
Theorem upload_response_matches_stores env req w r :
  outcome (run (uploadSingleImage env req) w) = inr r ->
  let x := run (uploadSingleImage env req) w in
  let bid := js_or (body_batchId req) (uuidv4 env) in
  ∃ image ua m d b,
    file req = Some image ∧ UserActivity w !! user_id req = Some ua ∧
    processImage_result env = inr m ∧
    statusCode r = 200 ∧ data r = Some d ∧
    balance (final x) (user_id req) = Some (remainingTokens d) ∧
    remainingTokens d = availableTokens ua - 1 ∧
    data_batchId d = bid ∧
    imageUrl (data_image d) =
      urlEndpoint env +:+ "/" +:+ objectKey (user_id req) bid (filename image) ∧
    bucket (final x) !! objectKey (user_id req) bid (filename image) =
      Some {| Body := staged m; ContentType := mimetype image |} ∧
    List.find (batch_matches (user_id req) bid) (ImagesModel (final x)) = Some b ∧
    _id b = data_id d ∧
    last (images b) = Some {| image_id := new_image_id env; details := data_image d |}.
Proof.
  intros Hr. cbn zeta.
  destruct (uploadSingleImage_succeeds env req w r Hr) as (image & ua & m & Hadm & Hp & Hdone).
  pose proof (uploadSingleImage_response env req w image ua m Hadm Hp Hdone) as Hresp.
  cbn zeta in Hresp. rewrite Hr in Hresp. injection Hresp as ->.
  rewrite (uploadSingleImage_stores env req w image ua Hadm).
  unfold stores_after. rewrite Hp, Hdone.
  assert (push_done env = true ∧ put_done env = true) as [-> ->].
  { unfold save_done, push_done in *.
    destruct (put_done env); destruct (bool_decide (pushImage_rejects env = None)); done. }
  destruct (pushed_record_found env (user_id req) (js_or (body_batchId req) (uuidv4 env))
              (details_of env req image (js_or (body_batchId req) (uuidv4 env)) m)
              (ImagesModel w)) as [Hfound Hlast].
  destruct Hadm as (Hf & _ & Hua & _).
  eexists image, ua, m, _, _. cbn.
  repeat split; try done.
  - unfold balance. cbn. by rewrite lookup_insert_eq.
  - by rewrite lookup_insert_eq.
Qed.

Lemma upload_response_matches_stores_witness :
  balance (final (run (uploadSingleImage env_ok (upload_of "a.jpg")) (world_with 1))) "u1"
  = Some 0.
Proof.
  destruct (upload_response_matches_stores env_ok (upload_of "a.jpg") (world_with 1)
              {| statusCode := 200; success := true;
                 message := "Image processed, stored successfully, and token deducted";
                 data := Some {| data_id := "doc-1"; data_userId := "u1";
                                 data_batchId := "batch-1"; data_image := sample_details;
                                 remainingTokens := 0 |} |})
    as (image & ua & m & d & b & _ & _ & _ & _ & Hd & Hbal & _).
  - reflexivity.
  - simpl in Hd. injection Hd as <-. exact Hbal.
Defined.

(** X5. A successful upload appends the image to the first record of the
    user's batch, which stays where it is with its earlier images in their
    order, and reports that record's id; when the batch has no record yet, one
    record holding just the image is added at the end of the collection. *)
Theorem upload_appends_or_creates env req w r :
  outcome (run (uploadSingleImage env req) w) = inr r ->
  let x := run (uploadSingleImage env req) w in
  let bid := js_or (body_batchId req) (uuidv4 env) in
  ∃ d, data r = Some d ∧
    let i := {| image_id := new_image_id env; details := data_image d |} in
    match List.find (batch_matches (user_id req) bid) (ImagesModel w) with
    | Some b0 =>
        data_id d = _id b0 ∧
        ∃ l1 l2,
          ImagesModel w = l1 ++ b0 :: l2 ∧
          ImagesModel (final x) =
            l1 ++ {| _id := _id b0; batch_userId := batch_userId b0;
                     batch_batchId := batch_batchId b0;
                     images := images b0 ++ [i] |} :: l2
    | None =>
        data_id d = new_batch_id env ∧
        ImagesModel (final x) =
          ImagesModel w ++ [{| _id := new_batch_id env; batch_userId := user_id req;
                               batch_batchId := bid; images := [i] |}]
    end.
Proof.
  intros Hr. cbn zeta.
  destruct (uploadSingleImage_succeeds env req w r Hr) as (image & ua & m & Hadm & Hp & Hdone).
  pose proof (uploadSingleImage_response env req w image ua m Hadm Hp Hdone) as Hresp.
  cbn zeta in Hresp. rewrite Hr in Hresp. injection Hresp as ->.
  rewrite (uploadSingleImage_stores env req w image ua Hadm).
  unfold stores_after. rewrite Hp, Hdone.
  assert (push_done env = true) as ->.
  { unfold save_done in Hdone. by destruct (push_done env). }
  eexists. split; [reflexivity|]. cbn. unfold pushed, pushed_record.
  destruct (List.find _ (ImagesModel w)) as [b0|] eqn:Hfind.
  - destruct (update_first_spec (user_id req) (js_or (body_batchId req) (uuidv4 env))
                (push_image
                   {| image_id := new_image_id env;
                      details := details_of env req image
                                   (js_or (body_batchId req) (uuidv4 env)) m |})
                (ImagesModel w) b0 (fun b => eq_refl) Hfind) as (l1 & l2 & Hw & _ & Hup).
    rewrite Hup. split; [done|]. by exists l1, l2.
  - pose proof Hfind as Hn.
    apply (update_first_None _
             (push_image
                {| image_id := new_image_id env;
                   details := details_of env req image
                                (js_or (body_batchId req) (uuidv4 env)) m |})) in Hn.
    by rewrite Hn.
Qed.

Lemma upload_appends_or_creates_witness :
  ImagesModel (final (run (uploadSingleImage env_ok' (upload_of "b.jpg")) world_one_image_paid))
  = [{| _id := "doc-1"; batch_userId := "u1"; batch_batchId := "batch-2";
        images := [{| image_id := "img-1"; details := sample_details |};
                   {| image_id := "img-2";
                      details :=
                        {| imageName := "b.jpg";
                           imageUrl := "https://s3.example/bucket/uploads/u1/batch-2/b.jpg";
                           image_metadata := sample_metadata |} |}] |}].
Proof.
  destruct (upload_appends_or_creates env_ok' (upload_of "b.jpg") world_one_image_paid
              {| statusCode := 200; success := true;
                 message := "Image processed, stored successfully, and token deducted";
                 data := Some {| data_id := "doc-1"; data_userId := "u1";
                                 data_batchId := "batch-2";
                                 data_image :=
                                   {| imageName := "b.jpg";
                                      imageUrl :=
                                        "https://s3.example/bucket/uploads/u1/batch-2/b.jpg";
                                      image_metadata := sample_metadata |};
                                 remainingTokens := 2 |} |})
    as (d & Hd & H).
  - reflexivity.
  - simpl in Hd. injection Hd as <-. simpl in H.
    destruct H as (_ & l1 & l2 & Hw & Hx).
    destruct l1 as [|b1 l1].
    + simpl in Hw. injection Hw as <-. exact Hx.
    + simpl in Hw. injection Hw as _ Hw. destruct l1; discriminate.
Defined.

(** X6. A batch record never gains an image whose object is not in the
    bucket: whenever the request changes the collection of batch records,
    the put has gone through and the object lies under the image's key with
    the MIME type of the upload. *)
Theorem upload_records_only_stored_images env req w image :
  file req = Some image ->
  let x := run (uploadSingleImage env req) w in
  ImagesModel (final x) ≠ ImagesModel w ->
  ∃ body,
    bucket (final x) !! objectKey (user_id req) (js_or (body_batchId req) (uuidv4 env))
                          (filename image)
    = Some {| Body := body; ContentType := mimetype image |}.
Proof.
  intros Hf. cbn zeta.
  destruct (admitted_or_not env req w) as [(image' & ua & Hadm) | Hno].
  2: { by destruct (uploadSingleImage_refused env req w Hno) as (-> & _). }
  rewrite (uploadSingleImage_stores env req w image' ua Hadm).
  destruct Hadm as (Hf' & _). assert (image' = image) by congruence. subst image'.
  unfold stores_after. destruct (processImage_result env) as [msg|m]; [done|]. cbn.
  unfold push_done. destruct (put_done env); cbn; [|done].
  intros _. exists (staged m). apply lookup_insert_eq.
Qed.

Lemma upload_records_only_stored_images_witness :
  ∃ body,
    bucket (final (run (uploadSingleImage
                          (with_save_rejects (Some "ledger unavailable") env_ok)
                          (upload_of "a.jpg")) (world_with 1)))
      !! "uploads/u1/batch-1/a.jpg"
    = Some {| Body := body; ContentType := "image/jpeg" |}.
Proof.
  apply (upload_records_only_stored_images
           (with_save_rejects (Some "ledger unavailable") env_ok)
           (upload_of "a.jpg") (world_with 1)
           {| filename := "a.jpg"; mimetype := "image/jpeg" |}).
  - reflexivity.
  - discriminate.
Defined.

(** *** [deleteImage] *)

(** X7. A deletion request that [deleteImage] answers with an [ApiError]
    other than 500 has had no effect: the stores are as before, at most the
    batch record was looked up, and the status is 400 or 404. *)
Theorem delete_client_error_has_no_effect env req w code msg :
  outcome (run (deleteImage env req) w) = inl (ApiError code msg) ->
  code ≠ 500 ->
  final (run (deleteImage env req) w) = w ∧
  (calls (run (deleteImage env req) w) = [] ∨
   ∃ batchId, calls (run (deleteImage env req) w) =
                [EvFindBatch (delete_user_id req) batchId]) ∧
  (code = 400 ∨ code = 404).
Proof.
  unfold run, outcome, final, calls, deleteImage.
  destruct (negb (truthy (query_imageId req)) || negb (truthy (query_batchId req))).
  { unfold_monad; cbn. intros [= <- _] _. destruct w; auto. }
  unfold_calls.
  destruct (findBatch_rejects env) as [m|]; [unfold_monad; crunch; discriminate|].
  unfold_monad; crunch.
  destruct (List.find _ (ImagesModel w)) as [b|]; crunch.
  2: { intros [= <- _] _. destruct w; eauto 6. }
  destruct (List.find _ (images b)) as [img|]; crunch.
  2: { intros [= <- _] _. destruct w; eauto 6. }
  destruct (pullImage_rejects env) as [m|]; crunch; [discriminate|].
  destruct (update_first _ _ (ImagesModel w)) as [[b' c]|]; crunch.
  - destruct (deleteObject_rejects env) as [m|]; crunch.
    { intros [= <- _] Hc. done. }
    destruct (images b') as [|i rest]; crunch; [|discriminate].
    destruct (deleteBatch_rejects env) as [m|]; crunch; [|discriminate].
    intros [= <- _] Hc. done.
  - destruct (deleteObject_rejects env) as [m|]; crunch; intros [= <- _] Hc; done.
Qed.

Lemma delete_client_error_has_no_effect_witness :
  final (run (deleteImage env_ok (delete_of "img-9" "batch-1")) world_one_image)
  = world_one_image.
Proof.
  destruct (delete_client_error_has_no_effect env_ok (delete_of "img-9" "batch-1")
              world_one_image 404 "Image not found") as (H & _).
  - reflexivity.
  - discriminate.
  - exact H.
Defined.

(** X8. [deleteImage] gives nothing back and adds nothing: whatever the
    request and the answers of the database and of the object store, the
    activity records, so the token balances, and the local files are as
    before, no object appears in the bucket, and only the object of the
    deleted image can leave it. *)
Theorem delete_keeps_balances_and_files env req w :
  let x := run (deleteImage env req) w in
  UserActivity (final x) = UserActivity w ∧
  fs (final x) = fs w ∧
  (∀ k, bucket w !! k = None -> bucket (final x) !! k = None) ∧
  (∀ k k', k ≠ k' -> bucket (final x) !! k ≠ bucket w !! k ->
           bucket (final x) !! k' = bucket w !! k').
Proof.
  cbn zeta. unfold run, final, deleteImage.
  destruct (negb (truthy (query_imageId req)) || negb (truthy (query_batchId req))).
  { unfold_monad; cbn. done. }
  unfold_calls.
  destruct (findBatch_rejects env) as [m|]; [unfold_monad; crunch; done|].
  unfold_monad; crunch.
  destruct (List.find _ (ImagesModel w)) as [b|]; crunch; [|done].
  destruct (List.find _ (images b)) as [img|]; crunch; [|done].
  destruct (pullImage_rejects env) as [m|]; crunch; [done|].
  assert (∀ key : string,
            (∀ k, bucket w !! k = None -> delete key (bucket w) !! k = None) ∧
            (∀ k k', k ≠ k' -> delete key (bucket w) !! k ≠ bucket w !! k ->
                     delete key (bucket w) !! k' = bucket w !! k')) as Hdel.
  { intros key. split.
    - intros k Hk. destruct (decide (key = k)) as [->|Hne].
      + apply lookup_delete_eq.
      + by rewrite lookup_delete_ne.
    - intros k k' Hkk Hch. destruct (decide (key = k)) as [->|Hne].
      + by rewrite lookup_delete_ne.
      + by rewrite lookup_delete_ne in Hch. }
  destruct (update_first _ _ (ImagesModel w)) as [[b' c]|]; crunch;
    (destruct (deleteObject_rejects env) as [m|]; crunch; [done|]).
  - destruct (images b') as [|i rest]; crunch.
    + destruct (deleteBatch_rejects env) as [m|]; crunch;
        (split; [done|]; split; [done|]; apply Hdel).
    + split; [done|]. split; [done|]. apply Hdel.
  - split; [done|]. split; [done|]. apply Hdel.
Qed.

(** *** Upload, then delete *)

Lemma js_or_nonempty a b : b ≠ EmptyString -> js_or a b ≠ EmptyString.
Proof.
  intros Hb. unfold js_or. destruct a as [s|]; [|done].
  by destruct (String.eqb_spec s EmptyString).
Qed.

Lemma update_first_app_None p f l1 l2 :
  List.find p l1 = None ->
  update_first p f (l1 ++ l2) =
    match update_first p f l2 with
    | Some (b, c) => Some (b, l1 ++ c)
    | None => None
    end.
Proof.
  induction l1 as [|a l IH]; cbn.
  - intros _. by destruct (update_first p f l2) as [[b c]|].
  - destruct (p a); [done|]. intros H. rewrite (IH H).
    by destruct (update_first p f l2) as [[b c]|].
Qed.

Lemma remove_first_app_None p l1 l2 :
  List.find p l1 = None ->
  remove_first p (l1 ++ l2) = l1 ++ remove_first p l2.
Proof.
  induction l1 as [|a l IH]; cbn; [done|].
  destruct (p a); [done|]. intros H. by rewrite (IH H).
Qed.

Lemma find_none_by_id (id : string) (c : list BatchDoc) :
  (∀ b, b ∈ c -> _id b ≠ id) ->
  List.find (fun b => String.eqb (_id b) id) c = None.
Proof.
  induction c as [|a c IH]; cbn; [done|]. intros H.
  destruct (String.eqb_spec (_id a) id) as [Heq|_].
  - exfalso. apply (H a); [apply elem_of_cons; by left|done].
  - apply IH. intros b Hb. apply H. apply elem_of_cons. by right.
Qed.

(** X9. Deleting the image that an upload has just stored undoes the upload
    in the batch records, and gives no token back. For a successful upload
    that opens a new batch (no record of the batch before, and a record id
    that no record carries), after the upload and the deletion of its image
    the collection of batch records is as before the upload and the balance
    is one less. The bucket is left without an object under the key of the
    image: it is as before the upload when the key was free, and an object
    that was stored under the key before, which the upload overwrote, is
    lost. *)
Theorem upload_then_delete_restores env env' req w image ua m :
  admitted env req w image ua ->
  processImage_result env = inr m ->
  save_done env ua = true ->
  uuidv4 env ≠ EmptyString ->
  new_image_id env ≠ EmptyString ->
  let bid := js_or (body_batchId req) (uuidv4 env) in
  let key := objectKey (user_id req) bid (filename image) in
  List.find (batch_matches (user_id req) bid) (ImagesModel w) = None ->
  (∀ b, b ∈ ImagesModel w -> _id b ≠ new_batch_id env) ->
  findBatch_rejects env' = None ->
  pullImage_rejects env' = None ->
  deleteObject_rejects env' = None ->
  deleteBatch_rejects env' = None ->
  let w1 := final (run (uploadSingleImage env req) w) in
  let y := run (deleteImage env'
                  {| query_imageId := Some (new_image_id env);
                     query_batchId := Some bid;
                     delete_user_id := user_id req |}) w1 in
  outcome y = inr {| statusCode := 200; success := true;
                     message := "Image deleted successfully"; data := None |} ∧
  ImagesModel (final y) = ImagesModel w ∧
  bucket (final y) = delete key (bucket w) ∧
  (bucket w !! key = None -> bucket (final y) = bucket w) ∧
  (is_Some (bucket w !! key) -> bucket (final y) !! key = None) ∧
  balance (final y) (user_id req) = Some (availableTokens ua - 1).
Proof.
  intros Hadm Hp Hdone Huuid Hid. cbn zeta.
  intros Hnone Hfresh Hfind Hpull Hdel Hdelb.
  rewrite (uploadSingleImage_stores env req w image ua Hadm).
  unfold stores_after. rewrite Hp, Hdone.
  assert (push_done env = true ∧ put_done env = true) as [-> ->].
  { unfold save_done, push_done in *.
    destruct (put_done env); destruct (bool_decide (pushImage_rejects env = None)); done. }
  unfold pushed.
  pose proof Hnone as Hn.
  apply (update_first_None _
           (push_image
              {| image_id := new_image_id env;
                 details := details_of env req image
                              (js_or (body_batchId req) (uuidv4 env)) m |})) in Hn.
  rewrite Hn. clear Hn.
  pose proof (js_or_nonempty (body_batchId req) (uuidv4 env) Huuid) as Hbid.
  unfold run, outcome, final, deleteImage. cbn [query_imageId query_batchId delete_user_id].
  rewrite !truthy_Some by done. cbn [negb orb default].
  unfold_calls. rewrite Hfind, Hpull, Hdel, Hdelb.
  unfold_monad; crunch.
  rewrite (find_app_None _ _ _ Hnone). cbn [List.find].
  rewrite batch_matches_refl by done. crunch.
  rewrite String.eqb_refl. crunch.
  rewrite (update_first_app_None _ _ _ _ Hnone). cbn [update_first].
  rewrite batch_matches_refl by done. crunch.
  destruct (decide (new_image_id env ≠ new_image_id env)) as [Hne|_]; [done|]. crunch.
  rewrite remove_first_app_None by by apply find_none_by_id.
  cbn [remove_first _id pull_image]. rewrite String.eqb_refl, app_nil_r.
  rewrite delete_insert_eq.
  split; [done|]. split; [done|]. split; [done|]. split; [|split].
  - intros Hfree. by apply delete_id.
  - intros _. first [done | apply lookup_delete_eq].
  - unfold balance. cbn. by rewrite lookup_insert_eq.
Qed.

Lemma upload_then_delete_restores_witness :
  let w1 := final (run (uploadSingleImage env_ok (upload_of "a.jpg"))
                     world_with_stale_object) in
  let y := run (deleteImage env_ok (delete_of "img-1" "batch-1")) w1 in
  ImagesModel (final y) = [] ∧
  bucket world_with_stale_object !! "uploads/u1/batch-1/a.jpg" =
    Some {| Body := "earlier bytes"; ContentType := "image/jpeg" |} ∧
  bucket (final y) !! "uploads/u1/batch-1/a.jpg" = None ∧
  balance (final y) "u1" = Some 0.
Proof.
  destruct (upload_then_delete_restores env_ok env_ok (upload_of "a.jpg")
              world_with_stale_object
              {| filename := "a.jpg"; mimetype := "image/jpeg" |} (user_with 1) sample_meta)
    as (_ & H1 & _ & _ & H2 & H3).
  - repeat split; reflexivity.
  - reflexivity.
  - reflexivity.
  - discriminate.
  - discriminate.
  - reflexivity.
  - intros b Hb. simpl in Hb. by apply elem_of_nil in Hb.
  - reflexivity.
  - reflexivity.
  - reflexivity.
  - reflexivity.
  - split; [exact H1|]. split; [reflexivity|]. split; [|exact H3].
    apply H2. eexists. reflexivity.
Defined.

(** *** What a deletion removes *)

Lemma truthy_inv a : truthy a = true -> ∃ s, a = Some s ∧ default EmptyString a = s.
Proof. destruct a as [s|]; cbn; [eauto|done]. Qed.

Lemma pull_image_matches userId batchId imageId b :
  batch_matches userId batchId (pull_image imageId b) = batch_matches userId batchId b.
Proof. done. Qed.

(** X10. When [deleteImage] answers 200, it has found the record of the
    batch and in it the image with the given id, and has deleted the object
    under the key made of the image's [imageName]. Every other image of the
    record is still recorded afterwards; but one that carries the same
    [imageName] has lost its object, for the key is made of the name and
    not of the id. *)
Theorem delete_removes_the_object_by_name env req w r :
  outcome (run (deleteImage env req) w) = inr r ->
  ∃ imageId batchId b img,
    query_imageId req = Some imageId ∧ query_batchId req = Some batchId ∧
    List.find (batch_matches (delete_user_id req) batchId) (ImagesModel w) = Some b ∧
    List.find (fun i => String.eqb (image_id i) imageId) (images b) = Some img ∧
    let x := run (deleteImage env req) w in
    let key := objectKey (delete_user_id req) batchId (imageName (details img)) in
    bucket (final x) = delete key (bucket w) ∧
    ∀ j, j ∈ images b -> image_id j ≠ imageId ->
      (∃ b', List.find (batch_matches (delete_user_id req) batchId)
               (ImagesModel (final x)) = Some b' ∧
             _id b' = _id b ∧ j ∈ images b') ∧
      (imageName (details j) = imageName (details img) ->
       bucket (final x) !!
         objectKey (delete_user_id req) batchId (imageName (details j)) = None).
Proof.
  unfold run, outcome, final, deleteImage.
  destruct (truthy (query_imageId req)) eqn:Hi; [|unfold_monad; cbn; discriminate].
  destruct (truthy (query_batchId req)) eqn:Hb; [|unfold_monad; cbn; discriminate].
  apply truthy_inv in Hi as (imageId & Hi & ->).
  apply truthy_inv in Hb as (batchId & Hb & ->).
  cbn [negb orb]. unfold_calls.
  destruct (findBatch_rejects env) as [m|]; [unfold_monad; crunch; discriminate|].
  unfold_monad; crunch.
  destruct (List.find _ (ImagesModel w)) as [b|] eqn:Hfind; crunch; [|discriminate].
  destruct (List.find _ (images b)) as [img|] eqn:Himg; crunch; [|discriminate].
  destruct (pullImage_rejects env) as [m|]; crunch; [discriminate|].
  destruct (update_first_spec (delete_user_id req) batchId (pull_image imageId)
              (ImagesModel w) b (pull_image_matches _ _ imageId) Hfind)
    as (l1 & l2 & Hl & Hl1 & ->).
  crunch.
  destruct (deleteObject_rejects env) as [m|]; crunch; [discriminate|].
  intros Hr. exists imageId, batchId, b, img. repeat (split; [done|]).
  assert (Hkept : ∀ j, j ∈ images b -> image_id j ≠ imageId ->
            j ∈ filter (fun i => image_id i ≠ imageId) (images b)).
  { intros j Hj Hne. by apply list_elem_of_filter. }
  destruct (filter (fun i => image_id i ≠ imageId) (images b)) as [|i0 rest] eqn:Hrest.
  - crunch. split.
    { by destruct (deleteBatch_rejects env); crunch. }
    intros j Hj Hne. specialize (Hkept j Hj Hne). by apply elem_of_nil in Hkept.
  - crunch. split; [done|]. intros j Hj Hne. split.
    + eexists. split.
      * rewrite (find_app_None _ _ _ Hl1). cbn [List.find].
        apply find_some in Hfind as [_ Hm]. unfold pull_image at 1.
        change (batch_matches (delete_user_id req) batchId _)
          with (batch_matches (delete_user_id req) batchId b).
        by rewrite Hm.
      * split; [done|]. cbn. rewrite Hrest. by apply Hkept.
    + intros ->. apply lookup_delete_eq.
Qed.

Lemma delete_removes_the_object_by_name_witness :
  let x := run (deleteImage env_ok (delete_of "img-1" "batch-2")) world_namesakes in
  ∃ imageId batchId b img,
    query_imageId (delete_of "img-1" "batch-2") = Some imageId ∧
    query_batchId (delete_of "img-1" "batch-2") = Some batchId ∧
    List.find (batch_matches (delete_user_id (delete_of "img-1" "batch-2")) batchId)
      (ImagesModel world_namesakes) = Some b ∧
    List.find (fun i => String.eqb (image_id i) imageId) (images b) = Some img ∧
    bucket (final x) =
      delete (objectKey (delete_user_id (delete_of "img-1" "batch-2")) batchId
                (imageName (details img))) (bucket world_namesakes).
Proof.
  destruct (delete_removes_the_object_by_name env_ok (delete_of "img-1" "batch-2")
              world_namesakes
              {| statusCode := 200; success := true;
                 message := "Image deleted successfully"; data := None |})
    as (imageId & batchId & b & img & H1 & H2 & H3 & H4 & H5 & _); [reflexivity|].
  exists imageId, batchId, b, img. repeat (split; [assumption|]). exact H5.
Defined.

End ServerEffectsFacts.

(** * More on the upload form *)

Module UploadFormMoreFacts.

Import UploadForm UploadFormFacts.

(** *** The transport *)

(** X11. [uploadPromise] resolves exactly when the request loads with a
    status from 200 to 299 and a body that parses, and then with whatever
    the body parses to, an upload response or not. It stays pending
    exactly when the request times out. In every other case, and only
    then, it is rejected: on [onerror], on [onabort], and on [onload] with
    another status or with a body that does not parse. *)
Theorem uploadPromise_resolves_iff ev :
  (∀ v, uploadPromise ev = resolved v ↔
        ∃ x, ev = onload x ∧ (200 <= status x < 300)%Z ∧
             match parsedResponse x with
             | Some r => v = wellformed r
             | None => ∃ o, parsedOther x = Some o ∧ v = malformed o
             end) ∧
  (uploadPromise ev = pending ↔ ev = timed_out) ∧
  ((∃ msg, uploadPromise ev = rejected msg) ↔
   ev = onabort ∨ (∃ x, ev = onerror x) ∨
   ∃ x, ev = onload x ∧
        (¬ (200 <= status x < 300)%Z ∨ (parsedResponse x = None ∧ parsedOther x = None))).
Proof.
  destruct ev as [x|x| |]; cbn.
  - destruct (Z.leb_spec 200 (status x)); destruct (Z.ltb_spec (status x) 300); cbn.
    + destruct (parsedResponse x) as [r|] eqn:Hr; [|destruct (parsedOther x) as [o|] eqn:Ho].
      * split; [|split].
        -- intros v. split.
           ++ intros [= <-]. exists x. rewrite Hr. repeat split; auto.
           ++ intros (x' & [= <-] & _ & Hv). rewrite Hr in Hv. by rewrite Hv.
        -- split; done.
        -- split; [by intros [? ?]|].
           intros [?|[[? ?]|(x' & [= <-] & [Hn|[Hn _]])]]; try done; [lia|congruence].
      * split; [|split].
        -- intros v. split.
           ++ intros [= <-]. exists x. rewrite Hr. repeat split; eauto.
           ++ intros (x' & [= <-] & _ & Hv). rewrite Hr in Hv.
              destruct Hv as (o' & Ho' & ->). congruence.
        -- split; done.
        -- split; [by intros [? ?]|].
           intros [?|[[? ?]|(x' & [= <-] & [Hn|[_ Hn]])]]; try done; [lia|congruence].
      * split; [|split].
        -- intros v. split.
           ++ by destruct (negb _).
           ++ intros (x' & [= <-] & _ & Hv). rewrite Hr in Hv.
              destruct Hv as (o' & Ho' & _). congruence.
        -- split; [by destruct (negb _)|done].
        -- split; [|destruct (negb _); eauto].
           intros _. right. right. exists x. split; [done|]. by right.
    + assert (Hrej : ∃ msg,
        match parsedError x with
        | Some e =>
            if bool_decide (error_status e = Some "error") &&
               bool_decide (error_message e = Some "invalid token")
            then rejected "Authentication failed: Your session has expired. Please log in again."
            else rejected (js_or (error_message e) (server_error x))
        | None => rejected (server_error_unknown x)
        end = rejected msg).
      { destruct (parsedError x) as [e|]; [|eauto]. destruct (_ && _); eauto. }
      destruct Hrej as [msg ->]. split; [|split].
      * intros v. split; [done|]. intros (x' & [= <-] & ? & _). lia.
      * split; done.
      * split; [|eauto]. intros _. right. right. exists x. split; [done|]. left. lia.
    + assert (Hrej : ∃ msg,
        match parsedError x with
        | Some e =>
            if bool_decide (error_status e = Some "error") &&
               bool_decide (error_message e = Some "invalid token")
            then rejected "Authentication failed: Your session has expired. Please log in again."
            else rejected (js_or (error_message e) (server_error x))
        | None => rejected (server_error_unknown x)
        end = rejected msg).
      { destruct (parsedError x) as [e|]; [|eauto]. destruct (_ && _); eauto. }
      destruct Hrej as [msg ->]. split; [|split].
      * intros v. split; [done|]. intros (x' & [= <-] & ? & _). lia.
      * split; done.
      * split; [|eauto]. intros _. right. right. exists x. split; [done|]. left. lia.
    + assert (Hrej : ∃ msg,
        match parsedError x with
        | Some e =>
            if bool_decide (error_status e = Some "error") &&
               bool_decide (error_message e = Some "invalid token")
            then rejected "Authentication failed: Your session has expired. Please log in again."
            else rejected (js_or (error_message e) (server_error x))
        | None => rejected (server_error_unknown x)
        end = rejected msg).
      { destruct (parsedError x) as [e|]; [|eauto]. destruct (_ && _); eauto. }
      destruct Hrej as [msg ->]. split; [|split].
      * intros v. split; [done|]. intros (x' & [= <-] & ? & _). lia.
      * split; done.
      * split; [|eauto]. intros _. right. right. exists x. split; [done|]. left. lia.
  - assert (Hrej : ∃ msg,
      (if (status x =? 0)%Z && String.eqb (responseText x) EmptyString
       then rejected "Server unavailable. Please check your internet connection and try again later."
       else match parsedError x with
            | Some e => rejected (js_or (error_message e) (server_error x))
            | None => rejected (server_error_unknown x)
            end) = rejected msg).
    { destruct (_ && _); [eauto|]. destruct (parsedError x); eauto. }
    destruct Hrej as [msg ->]. split; [|split].
    + intros v. split; [done|]. by intros (x' & ? & _).
    + split; done.
    + split; eauto.
  - split; [|split].
    + intros v. split; [done|]. by intros (x' & ? & _).
    + split; done.
    + split; eauto.
  - split; [|split].
    + intros v. split; [done|]. by intros (x' & ? & _).
    + split; done.
    + split; [by intros [? ?]|].
      intros [?|[[? ?]|(? & ? & _)]]; done.
Qed.

Lemma uploadPromise_resolves_iff_witness :
  uploadPromise (onload ok_with_null) =
    resolved (malformed (null "Cannot read properties of null (reading 'data')")).
Proof.
  destruct (uploadPromise_resolves_iff (onload ok_with_null)) as [H _].
  apply H. exists ok_with_null. split; [reflexivity|]. split; [simpl; lia|].
  simpl. eexists. split; reflexivity.
Defined.

(** *** The guards of [handleSubmit] *)

(** X12. [handleSubmit] starts an upload exactly when at least one file is
    selected and the tokens, if they are known, cover the selected files;
    when the tokens could not be loaded the upload starts all the same.
    When it does not start, no request is made and nothing changes but the
    error toast (no file selected) or the insufficient-tokens dialog. *)
Theorem handleSubmit_starts_iff xhr t s :
  ((handleSubmit_begin s).2 = true ↔
   files s ≠ [] ∧
   ∀ p, tokens s = Some p -> (Z.of_nat (length (files s)) <= availableTokens p)%Z) ∧
  ((handleSubmit_begin s).2 = false ->
   handleSubmit xhr t s =
     match files s with
     | [] => toast {| kind := toast_error; text := "Please upload at least one image" |} s
     | _ :: _ => setInSufficientTokenModal true s
     end).
Proof.
  unfold handleSubmit, handleSubmit_begin, hasInsufficientTokens.
  destruct (files s) as [|f fs] eqn:Hf; cbn [snd fst length].
  { split; [|done]. split; [done|]. by intros [? _]. }
  destruct (tokens s) as [p|]; cbn [snd fst].
  - destruct (Z.ltb_spec (availableTokens p) (Z.of_nat (S (length fs)))); cbn.
    + split; [|done]. split; [done|]. intros [_ H']. specialize (H' p eq_refl). lia.
    + split; [|done]. split; [|done]. intros _. split; [done|]. by intros ? [= <-].
  - cbn. split; [|done]. split; [|done]. intros _. split; [done|]. done.
Qed.

Lemma handleSubmit_starts_iff_witness :
  handleSubmit 1 (Settled (onload (ok_with first_pass)))
    (setTokens (Some {| availableTokens := 2 |}) three_files)
  = setInSufficientTokenModal true (setTokens (Some {| availableTokens := 2 |}) three_files).
Proof.
  destruct (handleSubmit_starts_iff 1 (Settled (onload (ok_with first_pass)))
              (setTokens (Some {| availableTokens := 2 |}) three_files)) as [_ H].
  apply H. reflexivity.
Defined.

(** *** How a pass ends *)

(** X13. A submission or a regeneration that has started gives the form
    back whenever its request settles (resolved, rejected, failed before it
    was sent): [loading], [uploadingStarted] and [uploadInProgress] are
    false again, [isRegenerating] is false after a regeneration, and no
    request is referenced any more. When the request runs into its timeout
    the form is not given back: the flags stay set and the request stays
    referenced, for no handler settles the promise. *)
Theorem started_pass_releases_the_form xhr t s :
  ((handleSubmit_begin s).2 = true ->
   let s' := handleSubmit xhr t s in
   (transport_result t ≠ pending ->
    loading s' = false ∧ uploadingStarted s' = false ∧ uploadInProgress s' = false ∧
    xhrRef s' = None) ∧
   (transport_result t = pending ->
    loading s' = true ∧ uploadingStarted s' = true ∧ uploadInProgress s' = true ∧
    xhrRef s' = Some xhr)) ∧
  (failedFiles s ≠ [] ->
   let s' := regenerateFailedFiles xhr t s in
   (transport_result t ≠ pending ->
    loading s' = false ∧ uploadingStarted s' = false ∧ uploadInProgress s' = false ∧
    isRegenerating s' = false ∧ xhrRef s' = None) ∧
   (transport_result t = pending ->
    loading s' = true ∧ uploadingStarted s' = true ∧ uploadInProgress s' = true ∧
    isRegenerating s' = true ∧ xhrRef s' = Some xhr)).
Proof.
  split.
  - intros Hb. cbn zeta. unfold handleSubmit.
    destruct (handleSubmit_begin s) as [s1 started] eqn:Hbegin; cbn in Hb; subst started.
    assert (Hs1 : loading s1 = true ∧ uploadingStarted s1 = true ∧ uploadInProgress s1 = true).
    { unfold handleSubmit_begin in Hbegin. destruct (files s); [done|].
      destruct (hasInsufficientTokens s); [done|]. by injection Hbegin as <-. }
    destruct Hs1 as (Hl & Hu & Hp).
    unfold handleFileUpload, handleFileUpload_settle, handleFileUpload_catch, handleSubmit_end.
    destruct t as [msg|ev]; cbn [transport_result].
    + split; [intros _|done]. destruct (negb (String.eqb msg cancelled)); by cbn.
    + destruct (uploadPromise ev) as [[response|v]|msg|].
      * split; [intros _|done].
        destruct (failedImages (data response)) as [[|? ?]|]; by cbn.
      * split; [intros _|done].
        destruct (negb (String.eqb (typeError_of v) cancelled)); destruct v; by cbn.
      * split; [intros _|done]. destruct (negb (String.eqb msg cancelled)); by cbn.
      * split; [done|intros _]. by cbn.
  - intros Hf. cbn zeta. unfold regenerateFailedFiles, regenerateFailedFiles_begin.
    destruct (failedFiles s) as [|f0 ff] eqn:Hfs; [done|].
    unfold handleFileUpload, handleFileUpload_settle, handleFileUpload_catch,
      regenerateFailedFiles_end.
    destruct t as [msg|ev]; cbn [transport_result].
    + split; [intros _|done]. destruct (negb (String.eqb msg cancelled)); by cbn.
    + destruct (uploadPromise ev) as [[response|v]|msg|].
      * split; [intros _|done].
        destruct (failedImages (data response)) as [[|? ?]|]; by cbn.
      * split; [intros _|done].
        destruct (negb (String.eqb (typeError_of v) cancelled)); destruct v; by cbn.
      * split; [intros _|done]. destruct (negb (String.eqb msg cancelled)); by cbn.
      * split; [done|intros _]. by cbn.
Qed.

Lemma started_pass_releases_the_form_witness :
  uploadInProgress (handleSubmit 1 (Settled timed_out) three_files) = true ∧
  uploadInProgress (handleSubmit 1 (SetupFailed "Failed to get access token") three_files)
  = false.
Proof.
  split.
  - destruct (started_pass_releases_the_form 1 (Settled timed_out) three_files) as [H _].
    destruct H as [_ H]; [reflexivity|].
    destruct H as (_ & _ & H & _); [reflexivity | exact H].
  - destruct (started_pass_releases_the_form 1 (SetupFailed "Failed to get access token")
                three_files) as [H _].
    destruct H as [H _]; [reflexivity|].
    destruct H as (_ & _ & H & _); [discriminate | exact H].
Defined.

(** X14. When the request of a pass resolves with an upload response, the
    response that is recorded and the count that is shown agree:
    [processedCount] is the number of successful images of the recorded
    response, in a regeneration too, where the recorded response is the
    merged one; the progress is 100, and the files kept for a retry are all
    named by a recorded failure. When it resolves with a value that is no
    upload response, the call ends in the [TypeError] of the first read:
    the progress is 100 all the same, the failed uploads are the one
    batch-level entry with the message of that error, the count and the
    files kept for a retry are not touched, and a submission has put the
    value into [uploadResponse]. *)
Theorem resolved_pass_counts_recorded_images closure isRegeneration xhr t s :
  let r := handleFileUpload closure isRegeneration xhr t s in
  (∀ response,
     transport_result t = resolved (wellformed response) ->
     r.2 = Some (inr response) ∧
     (∃ u, uploadResponse r.1 = Some u ∧
           processedCount r.1 = length (successfulImages (data u))) ∧
     progress r.1 = 100%Z ∧
     ∀ file, file ∈ failedFiles r.1 -> ∃ f, f ∈ failedUploads r.1 ∧ filename f = name file) ∧
  (∀ v,
     transport_result t = resolved (malformed v) ->
     typeError_of v ≠ cancelled ->
     r.2 = Some (inl (typeError_of v)) ∧
     progress r.1 = 100%Z ∧
     failedUploads r.1 =
       [{| filename := if isRegeneration then "Batch regeneration" else "Batch upload";
           error := typeError_of v |}] ∧
     processedCount r.1 = processedCount s ∧
     failedFiles r.1 = failedFiles s ∧
     (isRegeneration = true ->
      uploadResponse r.1 = uploadResponse s ∧ renderThrows r.1 = renderThrows s) ∧
     (isRegeneration = false ->
      match v with
      | null _ => uploadResponse r.1 = None ∧ renderThrows r.1 = renderThrows s
      | other _ => renderThrows r.1 = true
      end)).
Proof.
  cbn zeta. split.
  - intros response Ht.
    destruct t as [msg|ev]; cbn in Ht; [done|].
    unfold handleFileUpload. rewrite Ht. unfold handleFileUpload_settle.
    assert (Hnamed : ∀ (failed : list FailedImage) l file,
      file ∈ List.filter
        (fun file => existsb (fun f => String.eqb (filename f) (name file)) failed) l ->
      ∃ f, f ∈ failed ∧ filename f = name file).
    { intros failed l file Hin.
      apply list_elem_of_In, filter_In in Hin as [_ Hex].
      apply existsb_exists in Hex as (f & Hf & Heq).
      exists f. split; [by apply list_elem_of_In|by apply String.eqb_eq]. }
    destruct isRegeneration;
      destruct (failedImages (data response)) as [[|fi fis]|]; cbn -[List.filter existsb];
      (split; [done|]);
      (split; [eexists; split; [reflexivity|]; cbn; by rewrite ?length_app|]);
      (split; [done|]); intros file Hin;
      try (by apply elem_of_nil in Hin); by apply Hnamed in Hin.
  - intros v Ht Hne.
    assert (Hneq : String.eqb (typeError_of v) cancelled = false) by by apply String.eqb_neq.
    destruct t as [msg|ev]; cbn in Ht; [done|].
    unfold handleFileUpload. rewrite Ht.
    unfold handleFileUpload_settle, handleFileUpload_catch. rewrite Hneq.
    destruct isRegeneration, v; cbn; repeat split; done.
Qed.

Lemma resolved_pass_counts_recorded_images_witness :
  let r := handleFileUpload after_first_pass false 3 (Settled (onload ok_with_null))
             after_first_pass in
  uploadResponse r.1 = None ∧
  failedUploads r.1 =
    [{| filename := "Batch upload";
        error := "Cannot read properties of null (reading 'data')" |}].
Proof.
  destruct (resolved_pass_counts_recorded_images after_first_pass false 3
              (Settled (onload ok_with_null)) after_first_pass) as [_ H].
  destruct (H (null "Cannot read properties of null (reading 'data')"))
    as (_ & _ & H1 & _ & _ & _ & H2); [reflexivity | discriminate |].
  destruct H2 as [H2 _]; [reflexivity|]. split; [exact H2 | exact H1].
Defined.

(** *** Failures *)

(** X15. A regeneration whose request fails (with another message than the
    cancellation text) loses nothing: the recorded response, the files kept
    for a retry and the selection are as before, the failed uploads are one
    [Batch regeneration] entry with the message, an error toast is shown,
    and the regeneration can be started again. The request fails when it is
    rejected, and also when it is answered with a body that is no upload
    response; the message is then the one of the [TypeError]. *)
Theorem failed_regeneration_keeps_results xhr t s msg :
  failedFiles s ≠ [] ->
  transport_result t = rejected msg ∨
    (∃ v, transport_result t = resolved (malformed v) ∧ typeError_of v = msg) ->
  msg ≠ cancelled ->
  let s' := regenerateFailedFiles xhr t s in
  uploadResponse s' = uploadResponse s ∧
  failedFiles s' = failedFiles s ∧
  files s' = files s ∧
  processedCount s' = processedCount s ∧
  failedUploads s' = [{| filename := "Batch regeneration"; error := msg |}] ∧
  toasts s' = toasts s ++ [{| kind := toast_error; text := "Failed to regenerate files" |}] ∧
  (regenerateFailedFiles_begin s').2 = true.
Proof.
  intros Hf Ht Hne. cbn zeta.
  assert (Hneq : String.eqb msg cancelled = false) by by apply String.eqb_neq.
  unfold regenerateFailedFiles, regenerateFailedFiles_begin at 1.
  destruct (failedFiles s) as [|f0 ff] eqn:Hfs; [done|].
  unfold handleFileUpload.
  destruct Ht as [Ht | (v & Ht & <-)].
  - destruct t as [m|ev]; cbn in Ht; [injection Ht as ->|rewrite Ht];
      unfold handleFileUpload_settle, handleFileUpload_catch, regenerateFailedFiles_end,
        regenerateFailedFiles_begin;
      rewrite Hneq; cbn; by rewrite Hfs.
  - destruct t as [m|ev]; cbn in Ht; [done|]. rewrite Ht.
    unfold handleFileUpload_settle, handleFileUpload_catch, regenerateFailedFiles_end,
      regenerateFailedFiles_begin.
    rewrite Hneq. cbn. by rewrite Hfs.
Qed.

Lemma failed_regeneration_keeps_results_witness :
  let s' := regenerateFailedFiles 2 (SetupFailed "Failed to get access token") after_first_pass in
  uploadResponse s' = uploadResponse after_first_pass ∧
  failedFiles s' = failedFiles after_first_pass.
Proof.
  destruct (failed_regeneration_keeps_results 2 (SetupFailed "Failed to get access token")
              after_first_pass "Failed to get access token") as (H1 & H2 & _);
    [discriminate | left; reflexivity | discriminate |].
  split; [exact H1 | exact H2].
Defined.

(** X16. The success toast of a regeneration always says that 0 files were
    regenerated: it subtracts the number of failed files of the render in
    which the handler was created from the number of files it copied from
    the same render, however many files the response reports as done. *)
Theorem regeneration_toast_reports_zero xhr t s response :
  failedFiles s ≠ [] ->
  transport_result t = resolved (wellformed response) ->
  toasts (regenerateFailedFiles xhr t s) =
    toasts s ++ [{| kind := toast_success; text := "Successfully regenerated 0 files" |}].
Proof.
  intros Hf Ht.
  unfold regenerateFailedFiles, regenerateFailedFiles_begin.
  destruct (failedFiles s) as [|f0 ff] eqn:Hfs; [done|].
  destruct t as [m|ev]; cbn in Ht; [done|].
  unfold handleFileUpload. rewrite Ht.
  unfold handleFileUpload_settle, regenerateFailedFiles_end.
  destruct (failedImages (data response)) as [[|fi fis]|]; cbn -[pretty Nat.sub];
    by rewrite Hfs, Nat.sub_diag.
Qed.

Lemma regeneration_toast_reports_zero_witness :
  toasts (regenerateFailedFiles 2 (Settled (onload (ok_with second_pass))) after_first_pass) =
    toasts after_first_pass ++
      [{| kind := toast_success; text := "Successfully regenerated 0 files" |}].
Proof.
  apply (regeneration_toast_reports_zero 2 (Settled (onload (ok_with second_pass)))
           after_first_pass second_pass); [discriminate | reflexivity].
Defined.

(** X17. [handleSubmit] does not clear the recorded response when it starts.
    A submission whose request is rejected (with another message than the
    cancellation text) therefore leaves the response of an earlier pass in
    place beside the one [Batch upload] failure and zero processed images,
    and the status shown is [allFailed] with one file selected and
    [partialSuccess] with more; with no earlier response the status stays
    [none]. A submission that is answered with the body [null] does clear
    it: [setUploadResponse(null)] runs before the read that throws, and the
    status is [none] beside the one failure. *)
Theorem failed_submission_keeps_earlier_response xhr t s :
  (handleSubmit_begin s).2 = true ->
  let s' := handleSubmit xhr t s in
  (∀ msg,
     transport_result t = rejected msg ->
     msg ≠ cancelled ->
     uploadResponse s' = uploadResponse s ∧
     failedUploads s' = [{| filename := "Batch upload"; error := msg |}] ∧
     failedFiles s' = [] ∧
     processedCount s' = 0 ∧
     toasts s' = toasts s ++ [{| kind := toast_error; text := "Upload failed. Please try again." |}] ∧
     uploadStatus s' =
       match uploadResponse s with
       | None => none
       | Some _ => if length (files s) =? 1 then allFailed else partialSuccess
       end) ∧
  (∀ e,
     transport_result t = resolved (malformed (null e)) ->
     e ≠ cancelled ->
     uploadResponse s' = None ∧
     failedUploads s' = [{| filename := "Batch upload"; error := e |}] ∧
     failedFiles s' = [] ∧
     processedCount s' = 0 ∧
     toasts s' = toasts s ++ [{| kind := toast_error; text := "Upload failed. Please try again." |}] ∧
     uploadStatus s' = none).
Proof.
  intros Hb. cbn zeta.
  unfold handleSubmit. unfold handleSubmit_begin in *.
  destruct (files s) as [|f0 ff] eqn:Hfs; [done|].
  destruct (hasInsufficientTokens s); [done|].
  unfold handleFileUpload. split.
  - intros msg Ht Hne.
    assert (Hneq : String.eqb msg cancelled = false) by by apply String.eqb_neq.
    destruct t as [m|ev]; cbn in Ht; [injection Ht as ->|rewrite Ht];
      unfold handleFileUpload_settle, handleFileUpload_catch, handleSubmit_end, uploadStatus;
      rewrite Hneq; cbn; rewrite Hfs; cbn;
      (repeat split; try done); destruct (uploadResponse s); try done;
      by destruct ff.
  - intros e Ht Hne.
    assert (Hneq : String.eqb e cancelled = false) by by apply String.eqb_neq.
    destruct t as [m|ev]; cbn in Ht; [done|]. rewrite Ht.
    unfold handleFileUpload_settle, handleFileUpload_catch, handleSubmit_end, uploadStatus.
    cbn [typeError_of]. rewrite Hneq. by cbn.
Qed.

Lemma failed_submission_keeps_earlier_response_witness :
  uploadStatus (handleSubmit 3 (SetupFailed "Failed to get access token") after_first_pass)
  = partialSuccess ∧
  uploadResponse (handleSubmit 3 (Settled (onload ok_with_null)) after_first_pass) = None.
Proof.
  split.
  - destruct (failed_submission_keeps_earlier_response 3
                (SetupFailed "Failed to get access token") after_first_pass) as [H _];
      [reflexivity|].
    destruct (H "Failed to get access token") as (_ & _ & _ & _ & _ & H');
      [reflexivity | discriminate | exact H'].
  - destruct (failed_submission_keeps_earlier_response 3
                (Settled (onload ok_with_null)) after_first_pass) as [_ H];
      [reflexivity|].
    destruct (H "Cannot read properties of null (reading 'data')") as (H' & _);
      [reflexivity | discriminate | exact H'].
Defined.

(** X18. The promise is rejected with the text [Upload cancelled by user]
    only by [onabort], or by a response (loaded with a status outside
    200..299, or errored) whose parsed body carries that text as its
    [message]: none of the messages the form makes up itself is that text. *)
Theorem cancel_message_origin ev :
  uploadPromise ev = rejected cancelled ->
  ev = onabort ∨
  ∃ x e, (ev = onload x ∨ ev = onerror x) ∧ parsedError x = Some e ∧
         error_message e = Some cancelled.
Proof.
  assert (Hor : ∀ x e, js_or (error_message e) (server_error x) = cancelled ->
                       error_message e = Some cancelled).
  { intros x e. unfold js_or, server_error.
    destruct (error_message e) as [m|]; [|by cbn].
    destruct (String.eqb m EmptyString); [by cbn|]. by intros ->. }
  destruct ev as [x|x| |]; cbn; [| |by left|done]; intros H; right; exists x.
  - destruct ((200 <=? status x)%Z && (status x <? 300)%Z).
    + destruct (parsedResponse x); [done|]. destruct (parsedOther x); [done|].
      by destruct (negb _).
    + destruct (parsedError x) as [e|] eqn:He; [|by cbn in H].
      destruct (bool_decide _ && bool_decide _); [done|].
      exists e. injection H as H. apply Hor in H. by eauto.
  - destruct ((status x =? 0)%Z && String.eqb (responseText x) EmptyString); [done|].
    destruct (parsedError x) as [e|] eqn:He; [|by cbn in H].
    exists e. injection H as H. apply Hor in H. by eauto.
Qed.

Lemma cancel_message_origin_witness :
  onload error_500_with_the_cancel_message = onabort ∨
  ∃ x e, (onload error_500_with_the_cancel_message = onload x ∨
          onload error_500_with_the_cancel_message = onerror x) ∧
         parsedError x = Some e ∧ error_message e = Some cancelled.
Proof.
  apply (cancel_message_origin (onload error_500_with_the_cancel_message)). reflexivity.
Defined.

(** X19. A submission that the user cancels while its request is in flight
    ends quietly: the request is aborted, the dialogs are closed, the one
    toast shown is the information that the upload was cancelled (no error
    toast), no failure is recorded and the recorded response is as before. *)
Theorem cancelled_submission_is_quiet xhr s :
  (handleSubmit_begin s).2 = true ->
  let s' := handleSubmit_cancelled xhr s in
  aborted s' = aborted s ++ [xhr] ∧
  toasts s' = toasts s ++ [{| kind := toast_info; text := "Upload process cancelled" |}] ∧
  showModal s' = false ∧ showConfirmDialog s' = false ∧
  failedUploads s' = [] ∧ failedFiles s' = [] ∧
  uploadResponse s' = uploadResponse s ∧
  uploadInProgress s' = false ∧ xhrRef s' = None.
Proof.
  intros Hb. cbn zeta. unfold handleSubmit_cancelled. unfold handleSubmit_begin in *.
  destruct (files s) as [|f0 ff] eqn:Hfs; [done|].
  destruct (hasInsufficientTokens s); [done|]. by cbn.
Qed.

Lemma cancelled_submission_is_quiet_witness :
  aborted (handleSubmit_cancelled 7 three_files) = aborted three_files ++ [7].
Proof.
  destruct (cancelled_submission_is_quiet 7 three_files) as (H & _);
    [reflexivity | exact H].
Defined.

(** *** The selection *)

Lemma filter_index_delete {A} (index i : nat) (l : list A) :
  filter_index (fun j => negb (j =? i + index)) i l = delete index l.
Proof.
  revert index i. induction l as [|x l IH]; intros index i; cbn; [by destruct index|].
  destruct index as [|index]; cbn.
  - rewrite Nat.add_0_r, Nat.eqb_refl. cbn.
    clear IH. generalize (Nat.lt_succ_diag_r i). generalize (S i) as k.
    induction l as [|y l IH]; intros k Hk; cbn; [done|].
    destruct (Nat.eqb_spec k i); [lia|]. cbn. f_equal. apply IH. lia.
  - destruct (Nat.eqb_spec i (i + S index)); [lia|]. cbn. f_equal.
    replace (i + S index) with (S i + index) by lia. apply IH.
Qed.

(** X20. [removeFile] takes out exactly the file at the index and keeps the
    order of the others; with an index past the end it changes nothing.
    Removing the file that a selection has just added gives the selection
    back. *)
Theorem removeFile_deletes_at_index index s :
  files (removeFile index s) = delete index (files s) ∧
  (length (files s) <= index -> removeFile index s = s) ∧
  (∀ f, isImage f = true -> length (files s) < 100 ->
        files (removeFile (length (files s)) (handleFileChange (Some [f]) s)) = files s).
Proof.
  assert (Hdel : ∀ i s, files (removeFile i s) = delete i (files s)).
  { intros i s0. unfold removeFile. cbn. apply (filter_index_delete i 0). }
  split; [apply Hdel|]. split.
  - intros Hle. unfold removeFile.
    rewrite (filter_index_delete index 0), delete_take_drop.
    rewrite take_ge, drop_ge, app_nil_r by lia. by destruct s.
  - intros f Hf Hlen. rewrite Hdel. unfold handleFileChange. cbn [List.filter].
    rewrite Hf. cbn [length].
    destruct (Nat.ltb_spec 100 (length (files s) + 1)); [lia|]. cbn.
    by rewrite delete_middle, app_nil_r.
Qed.

Lemma removeFile_deletes_at_index_witness :
  files (removeFile 1 three_files) = [jpg "a.jpg"; jpg "c.jpg"].
Proof.
  destruct (removeFile_deletes_at_index 1 three_files) as [H _]. exact H.
Defined.

Lemma Forall_filter_index {A} (P : A -> Prop) (p : nat -> bool) (i : nat) (l : list A) :
  Forall P l -> Forall P (filter_index p i l).
Proof.
  intros H. revert i. induction H as [|x l Hx Hl IH]; intros i; cbn; [constructor|].
  destruct (p i); [constructor|]; auto.
Qed.

Lemma Forall_List_filter {A} (P : A -> Prop) (p : A -> bool) (l : list A) :
  Forall P l -> Forall P (List.filter p l).
Proof.
  induction 1 as [|x l Hx Hl IH]; cbn; [constructor|].
  destruct (p x); [constructor|]; auto.
Qed.

Lemma handleFileUpload_settle_failedFiles (P : File -> Prop) closure isRegeneration r s :
  Forall P (files closure) -> Forall P (failedFiles closure) -> Forall P (failedFiles s) ->
  Forall P (failedFiles (handleFileUpload_settle closure isRegeneration r s).1).
Proof.
  intros Hc Hcf Hs. unfold handleFileUpload_settle, handleFileUpload_catch.
  destruct r as [[response|v]|msg|].
  - destruct (failedImages (data response)) as [[|fi fis]|];
      destruct isRegeneration; cbn -[List.filter existsb];
      first [by constructor | by apply Forall_List_filter].
  - destruct (negb _); destruct isRegeneration; destruct v; done.
  - by destruct (negb _).
  - done.
Qed.

Lemma handleFileUpload_failedFiles (P : File -> Prop) closure isRegeneration xhr t s :
  Forall P (files closure) -> Forall P (failedFiles closure) -> Forall P (failedFiles s) ->
  Forall P (failedFiles (handleFileUpload closure isRegeneration xhr t s).1).
Proof.
  intros Hc Hcf Hs. unfold handleFileUpload.
  destruct t as [msg|ev]; by apply handleFileUpload_settle_failedFiles.
Qed.

Lemma handleSubmit_failedFiles (P : File -> Prop) xhr t s :
  Forall P (files s) -> Forall P (failedFiles s) ->
  Forall P (failedFiles (handleSubmit xhr t s)).
Proof.
  intros Hf Hff. unfold handleSubmit, handleSubmit_begin.
  destruct (files s) as [|f0 ff] eqn:Hfs; [done|].
  destruct (hasInsufficientTokens s); [done|].
  match goal with |- context [handleFileUpload s false xhr t ?s1] =>
    pose proof (handleFileUpload_failedFiles P s false xhr t s1) as H;
    destruct (handleFileUpload s false xhr t s1) as [s2 [r|]] end;
    cbn [fst] in H.
  - unfold handleSubmit_end. destruct r as [msg|?]; [destruct (negb _)|]; cbn;
      (apply H; [by rewrite Hfs|done|by constructor]).
  - apply H; [by rewrite Hfs|done|by constructor].
Qed.

Lemma regenerateFailedFiles_failedFiles (P : File -> Prop) xhr t s :
  Forall P (files s) -> Forall P (failedFiles s) ->
  Forall P (failedFiles (regenerateFailedFiles xhr t s)).
Proof.
  intros Hf Hff. unfold regenerateFailedFiles, regenerateFailedFiles_begin.
  destruct (failedFiles s) as [|f0 ff] eqn:Hfs; [cbn; by rewrite Hfs|].
  match goal with |- context [handleFileUpload s true xhr t ?s1] =>
    pose proof (handleFileUpload_failedFiles P s true xhr t s1) as H;
    destruct (handleFileUpload s true xhr t s1) as [s2 [r|]] end;
    cbn [fst] in H.
  - unfold regenerateFailedFiles_end. destruct r as [msg|?]; [destruct (negb _)|]; cbn;
      rewrite ?Hfs; try done; (apply H; [done|by rewrite Hfs|by cbn; rewrite Hfs]).
  - apply H; [done|by rewrite Hfs|by cbn; rewrite Hfs].
Qed.

Lemma step_failedFiles (P : File -> Prop) a s :
  Forall P (files s) -> Forall P (failedFiles s) -> Forall P (failedFiles (step a s)).
Proof.
  intros Hf Hff. unfold step. destruct (renderThrows s); [done|].
  destruct a as [fl|fl| | |i| | |xhr t|xhr|xhr t|xhr| |t].
  - unfold handleFileChange. destruct fl as [fl|]; [|done]. by destruct (_ <? _).
  - unfold handleDrop. destruct fl as [fl|]; [|done]. by destruct (_ <? _).
  - done.
  - done.
  - done.
  - done.
  - cbn. constructor.
  - by apply handleSubmit_failedFiles.
  - unfold handleSubmit_cancelled, handleSubmit_begin.
    destruct (files s) as [|f0 ff] eqn:Hfs; [done|].
    destruct (hasInsufficientTokens s); [done|]. cbn. constructor.
  - by apply regenerateFailedFiles_failedFiles.
  - unfold regenerateFailedFiles_cancelled, regenerateFailedFiles_begin.
    destruct (failedFiles s) as [|f0 ff] eqn:Hfs; cbn; by rewrite Hfs.
  - unfold cancelUpload. by destruct (xhrRef s).
  - done.
Qed.

Lemma step_files (P : File -> Prop) a s :
  (∀ f, isImage f = true -> P f) -> Forall P (files s) -> Forall P (files (step a s)).
Proof.
  intros HP Hf.
  assert (Hnew : ∀ fl, Forall P (List.filter isImage fl)).
  { intros fl. apply Forall_forall. intros f Hin.
    apply list_elem_of_In, filter_In in Hin as [_ Hin]. by apply HP. }
  unfold step. destruct (renderThrows s); [done|].
  destruct a as [fl|fl| | |i| | |xhr t|xhr|xhr t|xhr| |t].
  - unfold handleFileChange. destruct fl as [fl|]; [|done].
    destruct (_ <? _); cbn; [done|]. apply Forall_app. auto.
  - unfold handleDrop. destruct fl as [fl|]; [|done]. cbn [files setIsDragging].
    destruct (_ <? _); cbn; [done|]. apply Forall_app. auto.
  - done.
  - done.
  - cbn. by apply Forall_filter_index.
  - cbn. constructor.
  - cbn. constructor.
  - by rewrite handleSubmit_files.
  - by rewrite handleSubmit_cancelled_files.
  - by rewrite regenerateFailedFiles_files.
  - by rewrite regenerateFailedFiles_cancelled_files.
  - unfold cancelUpload. by destruct (xhrRef s).
  - done.
Qed.

(** X21. Whatever is offered to the form, the files it holds in any state
    it can reach, in the selection and among the files kept for a retry,
    all have a type that starts with [image/]; so only such files are ever
    put into a request. *)
Theorem form_holds_only_image_files s :
  reachable s ->
  Forall (fun f => isImage f = true) (files s) ∧
  Forall (fun f => isImage f = true) (failedFiles s).
Proof.
  induction 1 as [|a s _ [IHf IHff]]; [split; constructor|].
  split; [by apply step_files|by apply step_failedFiles].
Qed.

Lemma form_holds_only_image_files_witness :
  let s := step (Drop (Some [gif; {| name := "notes.txt"; type := "text/plain" |}])) initial in
  Forall (fun f => isImage f = true) (files s) ∧
  Forall (fun f => isImage f = true) (failedFiles s).
Proof.
  apply (form_holds_only_image_files
           (step (Drop (Some [gif; {| name := "notes.txt"; type := "text/plain" |}])) initial)).
  apply reachable_step, reachable_initial.
Defined.

(** *** One code path for offered files, and a fresh start *)

(** X22. Dropping files is selecting them after the drag has ended:
    [handleDrop] is [handleFileChange] on the state that [handleDragLeave]
    leaves, for the same filter, the same limit and the same toast. *)
Theorem handleDrop_is_handleFileChange offered s :
  handleDrop offered s = handleFileChange offered (handleDragLeave s) ∧
  files (handleDrop offered s) = files (handleFileChange offered s) ∧
  toasts (handleDrop offered s) = toasts (handleFileChange offered s) ∧
  isDragging (handleDrop offered s) = false.
Proof.
  unfold handleDrop, handleFileChange, handleDragLeave.
  destruct offered as [fl|]; cbn [files setIsDragging]; [|done].
  by destruct (100 <? _).
Qed.

Lemma handleFileUpload_tokens closure isRegeneration xhr t s :
  tokens (handleFileUpload closure isRegeneration xhr t s).1 = tokens s.
Proof.
  unfold handleFileUpload, handleFileUpload_settle, handleFileUpload_catch.
  destruct t as [msg|ev]; [by destruct (negb _)|].
  destruct (uploadPromise ev) as [[response|v]|msg|].
  - by destruct isRegeneration; destruct (failedImages (data response)) as [[|? ?]|].
  - destruct (negb _); destruct isRegeneration; destruct v; done.
  - by destruct (negb _).
  - done.
Qed.

(** X23. No handler of the form writes the tokens: they change only when the
    fetch of the tokens answers. After an upload the form still compares
    the number of files with the tokens it loaded before, whatever
    [remainingTokens] the response reports. *)
Theorem handlers_never_write_tokens a s :
  (∀ t, a ≠ TokensFetched t) ->
  tokens (step a s) = tokens s.
Proof.
  intros Ha. unfold step. destruct (renderThrows s); [done|].
  destruct a as [fl|fl| | |i| | |xhr t|xhr|xhr t|xhr| |t]; try done.
  - unfold handleFileChange. destruct fl as [fl|]; [|done]. by destruct (_ <? _).
  - unfold handleDrop. destruct fl as [fl|]; [|done]. by destruct (_ <? _).
  - unfold handleSubmit, handleSubmit_begin.
    destruct (files s) as [|f0 ff]; [done|].
    destruct (hasInsufficientTokens s); [done|].
    match goal with |- context [handleFileUpload s false xhr t ?s1] =>
      pose proof (handleFileUpload_tokens s false xhr t s1) as H;
      destruct (handleFileUpload s false xhr t s1) as [s2 [r|]] end;
      cbn [fst] in H; [|done].
    unfold handleSubmit_end. by destruct r as [msg|?]; [destruct (negb _)|].
  - unfold handleSubmit_cancelled, handleSubmit_begin.
    destruct (files s) as [|f0 ff]; [done|].
    destruct (hasInsufficientTokens s); [done|].
    cbn. by destruct (xhrRef s).
  - unfold regenerateFailedFiles, regenerateFailedFiles_begin.
    destruct (failedFiles s) as [|f0 ff]; [done|].
    match goal with |- context [handleFileUpload s true xhr t ?s1] =>
      pose proof (handleFileUpload_tokens s true xhr t s1) as H;
      destruct (handleFileUpload s true xhr t s1) as [s2 [r|]] end;
      cbn [fst] in H; [|done].
    unfold regenerateFailedFiles_end. by destruct r as [msg|?]; [destruct (negb _)|].
  - unfold regenerateFailedFiles_cancelled, regenerateFailedFiles_begin.
    destruct (failedFiles s) as [|f0 ff]; [done|]. by cbn.
  - unfold cancelUpload. by destruct (xhrRef s).
  - by destruct (Ha t).
Qed.

Lemma handlers_never_write_tokens_witness :
  tokens (step (Submit 1 (Settled (onload (ok_with first_pass)))) three_files)
  = Some {| availableTokens := 5 |}.
Proof.
  apply (handlers_never_write_tokens
           (Submit 1 (Settled (onload (ok_with first_pass)))) three_files).
  discriminate.
Defined.

(** X24. [handleGenerateMore] starts afresh: no status is shown, the tokens
    are not short, a regeneration does nothing, and a submission is refused
    for want of a file. *)
Theorem generate_more_starts_afresh xhr t s :
  let s' := handleGenerateMore s in
  uploadStatus s' = none ∧
  hasInsufficientTokens s' = false ∧
  regenerateFailedFiles xhr t s' = s' ∧
  handleSubmit xhr t s' =
    toast {| kind := toast_error; text := "Please upload at least one image" |} s'.
Proof.
  cbn zeta. split; [|split; [|split]].
  - reflexivity.
  - unfold hasInsufficientTokens, handleGenerateMore. cbn. by destruct (tokens s).
  - unfold regenerateFailedFiles, regenerateFailedFiles_begin, handleGenerateMore.
    cbn [failedFiles setFailedFiles]. reflexivity.
  - unfold handleSubmit, handleSubmit_begin, handleGenerateMore.
    cbn [files setFiles setShowModal setUploadResponse setProcessedCount setProgress
         setFailedUploads setFailedFiles]. reflexivity.
Qed.

End UploadFormMoreFacts.

(** * The keyword editor *)

Module KeywordsFacts.

Import Keywords.
Local Open Scope N_scope.

Lemma trimStart_app_ws l s : forallb isWhiteSpace l = true -> trimStart (l ++ s) = trimStart s.
Proof.
  induction l as [|c l IH]; cbn; [done|].
  intros [Hc Hl]%andb_prop. rewrite Hc. auto.
Qed.

Lemma trimStart_split s :
  ∃ l, forallb isWhiteSpace l = true ∧ s = l ++ trimStart s ∧
       (∀ c r, trimStart s = c :: r -> isWhiteSpace c = false).
Proof.
  induction s as [|c s (l & Hl & Hs & Hhead)]; cbn.
  - exists []. split; [done|]. split; done.
  - destruct (isWhiteSpace c) eqn:Hc.
    + exists (c :: l). cbn. rewrite Hc, Hl. split; [done|]. split; [by f_equal|done].
    + exists []. split; [done|]. split; [done|]. by intros c' r [= <- _].
Qed.

Lemma trimStart_fixed c s : isWhiteSpace c = false -> trimStart (c :: s) = c :: s.
Proof. intros H. cbn. by rewrite H. Qed.

Lemma trimStart_idem s : trimStart (trimStart s) = trimStart s.
Proof.
  induction s as [|c s IH]; cbn; [done|].
  destruct (isWhiteSpace c) eqn:Hc; [done|]. cbn. by rewrite Hc.
Qed.

Lemma trimStart_suffix s : ∃ l, s = l ++ trimStart s.
Proof. destruct (trimStart_split s) as (l & _ & H & _). eauto. Qed.

Lemma trimStart_nil_or_head s :
  trimStart s = [] ∨ ∃ c r, trimStart s = c :: r ∧ isWhiteSpace c = false.
Proof.
  destruct (trimStart_split s) as (l & _ & _ & H).
  destruct (trimStart s) as [|c r]; [by left|right]. exists c, r. eauto.
Qed.

Lemma trimStart_last l c :
  isWhiteSpace c = false -> ∃ t, trimStart (l ++ [c]) = t ++ [c].
Proof.
  intros Hc. induction l as [|x l IH]; cbn.
  - rewrite Hc. by exists [].
  - destruct (isWhiteSpace x); [done|]. by exists (x :: l).
Qed.

(** Trimming the end keeps a first code unit that is no white space. *)
Lemma trimEnd_head c s :
  isWhiteSpace c = false -> ∃ r, trimEnd (c :: s) = c :: r.
Proof.
  intros Hc. unfold trimEnd. cbn [rev].
  destruct (trimStart_last (rev s) c Hc) as (t & ->).
  rewrite rev_app_distr. cbn. eauto.
Qed.

Lemma trim_nil_or_clean s :
  trim s = [] ∨
  ∃ c r, trim s = c :: r ∧ isWhiteSpace c = false ∧ trimStart (rev (trim s)) = rev (trim s).
Proof.
  unfold trim. destruct (trimStart_nil_or_head s) as [->|(c & r & -> & Hc)]; [by left|].
  right. destruct (trimEnd_head c r Hc) as (r' & Hr'). exists c, r'.
  split; [done|]. split; [done|].
  unfold trimEnd. rewrite rev_involutive. apply trimStart_idem.
Qed.

Lemma trim_idem s : trim (trim s) = trim s.
Proof.
  destruct (trim_nil_or_clean s) as [->|(c & r & Heq & Hc & Hend)]; [done|].
  unfold trim at 1. rewrite Heq at 1. rewrite (trimStart_fixed _ _ Hc), <- Heq.
  unfold trimEnd. by rewrite Hend, rev_involutive.
Qed.

Lemma trimStart_sub c s : c ∈ trimStart s -> c ∈ s.
Proof.
  destruct (trimStart_suffix s) as (l & Hl). intros H. rewrite Hl.
  apply elem_of_app. by right.
Qed.

Lemma trim_sub c s : c ∈ trim s -> c ∈ s.
Proof.
  unfold trim, trimEnd. intros H.
  apply list_elem_of_In, in_rev, list_elem_of_In, trimStart_sub in H.
  apply list_elem_of_In, in_rev, list_elem_of_In in H. by apply trimStart_sub.
Qed.

Lemma split_nonempty sep s : split sep s ≠ [].
Proof.
  destruct s as [|c s]; cbn; [done|].
  destruct (c =? sep); [done|]. by destruct (split sep s).
Qed.

Lemma split_no_sep sep s piece : piece ∈ split sep s -> sep ∉ piece.
Proof.
  revert piece. induction s as [|c s IH]; cbn; intros piece Hin.
  - apply list_elem_of_singleton in Hin as ->. apply not_elem_of_nil.
  - destruct (N.eqb_spec c sep) as [->|Hne].
    + apply elem_of_cons in Hin as [->|Hin]; [apply not_elem_of_nil|by apply IH].
    + destruct (split sep s) as [|p ps] eqn:Hs.
      * apply list_elem_of_singleton in Hin as ->.
        intros [->|H]%elem_of_cons; [done|]. by apply elem_of_nil in H.
      * apply elem_of_cons in Hin as [->|Hin].
        -- intros [->|H]%elem_of_cons; [done|].
           revert H. apply IH. by left.
        -- apply IH. by right.
Qed.

Lemma split_length sep s :
  length (split sep s) = S (length (List.filter (fun c => c =? sep) s)).
Proof.
  induction s as [|c s IH]; cbn; [done|].
  destruct (c =? sep); cbn; [by rewrite IH|].
  destruct (split sep s) as [|p ps] eqn:Hs; [by apply split_nonempty in Hs|].
  cbn in *. done.
Qed.

Lemma split_one sep s : sep ∉ s -> split sep s = [s].
Proof.
  induction s as [|c s IH]; cbn; [done|].
  intros Hnot. destruct (N.eqb_spec c sep) as [->|Hne].
  - exfalso. apply Hnot. by left.
  - rewrite IH; [done|]. intros H. apply Hnot. by right.
Qed.

Lemma split_app sep s rest :
  sep ∉ s -> split sep (s ++ sep :: rest) = s :: split sep rest.
Proof.
  induction s as [|c s IH]; cbn.
  - intros _. by rewrite N.eqb_refl.
  - intros Hnot. destruct (N.eqb_spec c sep) as [->|Hne].
    + exfalso. apply Hnot. by left.
    + rewrite IH; [done|]. intros H. apply Hnot. by right.
Qed.

Lemma keywords_of_clean editValue k : k ∈ keywords_of editValue -> clean k.
Proof.
  unfold keywords_of. intros Hin.
  apply list_elem_of_In, filter_In in Hin as [Hin Hne].
  apply in_map_iff in Hin as (piece & <- & Hpiece).
  apply negb_true_iff, bool_decide_eq_false in Hne.
  split; [done|]. split.
  - intros H. apply trim_sub in H. revert H.
    apply (split_no_sep comma editValue). by apply list_elem_of_In.
  - apply trim_idem.
Qed.

Lemma trim_space_clean k : clean k -> trim (space :: k) = k.
Proof. intros (_ & _ & Hk). unfold trim. cbn. exact Hk. Qed.

Lemma split_join_clean k ks :
  Forall clean (k :: ks) ->
  split comma (join [comma; space] (k :: ks)) = k :: List.map (cons space) ks.
Proof.
  revert k. induction ks as [|k' ks IH]; intros k Hall.
  - cbn. apply split_one. by inversion Hall as [|? ? (_ & H & _) _].
  - inversion Hall as [|? ? (_ & Hk & _) Hrest]; subst.
    change (join [comma; space] (k :: k' :: ks))
      with (k ++ comma :: space :: join [comma; space] (k' :: ks)).
    rewrite split_app by done. f_equal.
    change (split comma (space :: join [comma; space] (k' :: ks)))
      with (match split comma (join [comma; space] (k' :: ks)) with
            | piece :: pieces => (space :: piece) :: pieces
            | [] => [[space]]
            end).
    by rewrite IH.
Qed.

Lemma keywords_of_join ks :
  Forall clean ks -> keywords_of (join [comma; space] ks) = ks.
Proof.
  intros Hall. destruct ks as [|k ks]; [done|].
  unfold keywords_of. rewrite split_join_clean by done.
  inversion Hall as [|? ? Hk Hks]; subst. cbn [List.map List.filter].
  destruct Hk as (Hne & Hc & Ht). rewrite Ht.
  rewrite bool_decide_eq_false_2 by done. cbn. f_equal. clear Hall.
  induction Hks as [|k' ks' Hk' _ IH]; [done|]. cbn [List.map List.filter].
  rewrite (trim_space_clean k' Hk'). destruct Hk' as (Hne' & _).
  rewrite bool_decide_eq_false_2 by done. cbn. f_equal. apply IH.
Qed.

Lemma split_sub sep s piece c : piece ∈ split sep s -> c ∈ piece -> c ∈ s.
Proof.
  revert piece. induction s as [|x s IH]; cbn; intros piece Hin Hc.
  - apply list_elem_of_singleton in Hin as ->. by apply elem_of_nil in Hc.
  - destruct (x =? sep).
    + apply elem_of_cons in Hin as [->|Hin]; [by apply elem_of_nil in Hc|].
      right. by apply (IH piece).
    + destruct (split sep s) as [|p ps] eqn:Hs.
      * apply list_elem_of_singleton in Hin as ->.
        apply list_elem_of_singleton in Hc as ->. by left.
      * apply elem_of_cons in Hin as [->|Hin].
        -- apply elem_of_cons in Hc as [->|Hc]; [by left|right].
           apply (IH p); [by left|done].
        -- right. apply (IH piece); [by right|done].
Qed.

Lemma trim_white s : forallb isWhiteSpace s = true -> trim s = [].
Proof.
  intros H. unfold trim.
  by rewrite <- (app_nil_r s), (trimStart_app_ws s [] H).
Qed.

(** X25. The keywords that [saveEdit] sends are in normal form: every one
    of them is non-empty, contains no comma and has no white space at either
    end; there are at most as many as the text has commas, plus one; and a
    text of nothing but commas and white space gives no keyword at all. *)
Theorem saved_keywords_are_clean editValue :
  Forall clean (keywords_of editValue) ∧
  (length (keywords_of editValue) <=
     S (length (List.filter (fun c => N.eqb c comma) editValue)))%nat ∧
  (Forall (fun c => c = comma ∨ isWhiteSpace c = true) editValue ->
   keywords_of editValue = []).
Proof.
  split; [|split].
  - apply Forall_forall. intros k Hk. by apply (keywords_of_clean editValue).
  - unfold keywords_of. rewrite <- (split_length comma editValue).
    rewrite <- (length_map trim (split comma editValue)).
    generalize (List.map trim (split comma editValue)). intros l.
    induction l as [|x l IH]; cbn; [lia|]. destruct (negb _); cbn; lia.
  - intros Hall. unfold keywords_of.
    assert (Hpieces : Forall (fun piece => trim piece = []) (split comma editValue)).
    { apply Forall_forall. intros piece Hpiece. apply trim_white.
      apply forallb_forall. intros c Hc. apply list_elem_of_In in Hc.
      pose proof (split_no_sep comma editValue piece Hpiece) as Hno.
      pose proof (split_sub comma editValue piece c Hpiece Hc) as Hin.
      rewrite Forall_forall in Hall. destruct (Hall c Hin) as [->|Hw]; done. }
    induction Hpieces as [|piece pieces Hp _ IH]; [done|].
    cbn. by rewrite Hp.
Qed.

Lemma saved_keywords_are_clean_witness :
  keywords_of (units " , ,, ") = [].
Proof.
  destruct (saved_keywords_are_clean (units " , ,, ")) as (_ & _ & H).
  apply H. repeat constructor; first [by left | by right].
Defined.

(** X26. Editing keywords is a round trip: when the keywords shown are in
    normal form, saving the text that [startEditing] puts into the edit box
    ([join] with comma and space) gives the same keywords back; and for any
    text, saving, opening the editor again and saving unchanged gives the
    keywords of the first save. *)
Theorem keywords_edit_round_trip :
  (∀ ks, Forall clean ks ->
         updateData keywords (startEditing (list_of ks)) = list_of ks) ∧
  (∀ editValue,
     updateData keywords (startEditing (updateData keywords editValue))
     = updateData keywords editValue).
Proof.
  split.
  - intros ks Hks. cbn. f_equal. by apply keywords_of_join.
  - intros editValue. cbn. f_equal. apply keywords_of_join.
    apply Forall_forall. intros k Hk. by apply (keywords_of_clean editValue).
Qed.

Lemma keywords_edit_round_trip_witness :
  updateData keywords (startEditing (list_of [units "sunset"; units "red sky"]))
  = list_of [units "sunset"; units "red sky"].
Proof.
  destruct keywords_edit_round_trip as [H _].
  apply (H [units "sunset"; units "red sky"]).
  repeat constructor; try discriminate; try reflexivity;
    intros Hin; repeat (apply elem_of_cons in Hin as [Hin|Hin]; [discriminate|]);
    by apply elem_of_nil in Hin.
Defined.

End KeywordsFacts.

(** * The retries of the dashboard *)

Module DashboardFacts.

Import Dashboard.

(** *** Texts that do not contain [network] *)

Lemma prefix_occurs c rest s : occurs c s = false -> String.prefix (String c rest) s = false.
Proof.
  destruct s as [|a s]; cbn; [done|].
  intros [Ha _]%orb_false_elim.
  destruct (Ascii.ascii_dec c a) as [->|Hne]; [by rewrite Ascii.eqb_refl in Ha|done].
Qed.

Lemma includes_occurs c rest s : occurs c s = false -> includes (String c rest) s = false.
Proof.
  induction s as [|a s IH]; intros H.
  - reflexivity.
  - cbn [includes]. rewrite (prefix_occurs c rest _ H). cbn in H.
    apply orb_false_elim in H as [_ H]. by apply IH.
Qed.

Lemma occurs_app c s1 s2 : occurs c (s1 +:+ s2) = occurs c s1 || occurs c s2.
Proof.
  induction s1 as [|a s1 IH]; [done|].
  change (String a s1 +:+ s2) with (String a (s1 +:+ s2)).
  cbn [occurs]. by rewrite IH, orb_assoc.
Qed.

Lemma occurs_pretty_N_char c d :
  occurs c "0123456789" = false -> Ascii.eqb (pretty_N_char d) c = false.
Proof.
  intros Hc. cbn [occurs] in Hc.
  repeat (apply orb_false_elim in Hc as [? Hc]).
  unfold pretty_N_char. by repeat case_match.
Qed.

Lemma occurs_pretty_N_go c x s :
  occurs c "0123456789" = false -> occurs c (pretty_N_go x s) = occurs c s.
Proof.
  intros Hc. revert s. induction (N.lt_wf_0 x) as [x _ IH]; intros s.
  assert (x = 0 ∨ 0 < x)%N as [->|Hx] by lia.
  - by rewrite pretty_N_go_0.
  - rewrite (pretty_N_go_step x s Hx).
    etrans; [apply (IH (x `div` 10)%N); by apply N.div_lt|].
    cbn [occurs]. by rewrite (occurs_pretty_N_char c _ Hc).
Qed.

Lemma occurs_pretty_Z c (z : Z) :
  occurs c "-0123456789" = false -> occurs c (pretty z) = false.
Proof.
  intros Hc. cbn [occurs] in Hc. apply orb_false_elim in Hc as [Hdash Hc].
  assert (Hdigits : occurs c "0123456789" = false) by exact Hc.
  apply orb_false_elim in Hc as [H0 _].
  assert (HN : ∀ n : N, occurs c (pretty n) = false).
  { intros n. unfold pretty, pretty_N. destruct (decide (n = 0%N)).
    - cbn [occurs]. by rewrite H0.
    - etrans; [by apply occurs_pretty_N_go|done]. }
  unfold pretty, pretty_Z. destruct z as [|p|p].
  - cbn [occurs]. by rewrite H0.
  - apply HN.
  - etrans; [apply occurs_app|]. cbn [occurs]. rewrite Hdash. cbn [orb]. apply HN.
Qed.

Lemma http_error_no_network response :
  instanceof_TypeError (http_error response) = false ∧
  includes "network" (errorMessage (http_error response)) = false.
Proof.
  unfold http_error.
  destruct (_ =? 401)%Z; [done|]. destruct (_ =? 403)%Z; [done|].
  destruct (_ =? 404)%Z; [done|]. destruct (500 <=? _)%Z; [done|].
  split; [done|]. cbn [errorMessage]. apply includes_occurs.
  rewrite (occurs_app _ "Failed to fetch dashboard data (" (pretty (status response) +:+ ")")).
  rewrite (occurs_app _ (pretty (status response)) ")").
  by rewrite occurs_pretty_Z.
Qed.

(** *** The retries *)

Lemma fetchDashboardData_timeouts x retryCount s :
  let r := fetchDashboardData x retryCount s in
  (r.2 = true ∧ retryCount < 3 ∧ timeouts r.1 = timeouts s ++ [retryDelay retryCount]) ∨
  (r.2 = false ∧ timeouts r.1 = timeouts s).
Proof.
  cbn zeta. unfold fetchDashboardData.
  destruct (try_fetch x) as [e|d]; [|by right].
  unfold retries. destruct (Nat.ltb_spec retryCount 3); cbn [andb]; [|by right].
  destruct (_ || _); [left|right]; by cbn.
Qed.

Lemma fetch_chain_timeouts xs retryCount s :
  let r := fetch_chain xs retryCount s in
  ∃ n, n <= 3 - retryCount ∧
       timeouts r.1 = timeouts s ++ List.map retryDelay (seq retryCount n) ∧
       r.2 <= S n.
Proof.
  cbn zeta. revert retryCount s. induction xs as [|x xs IH]; intros retryCount s.
  - exists 0. cbn. rewrite app_nil_r. repeat split; lia.
  - cbn [fetch_chain].
    pose proof (fetchDashboardData_timeouts x retryCount s) as H. cbn zeta in H.
    destruct (fetchDashboardData x retryCount s) as [s' again]. cbn [fst snd] in H.
    destruct H as [(-> & Hlt & Ht)|(-> & Ht)].
    + destruct (IH (S retryCount) s') as (n & Hn & Hts & Hcalls).
      destruct (fetch_chain xs (S retryCount) s') as [s'' calls]. cbn [fst snd] in *.
      exists (S n). split; [lia|]. split; [|lia].
      rewrite Hts, Ht. cbn [seq List.map]. by rewrite <- app_assoc.
    + exists 0. cbn. rewrite app_nil_r. repeat split; [lia|done|lia].
Qed.

(** X27. Whatever the server and the network answer, the timers of one
    call [fetchDashboardData()] lead to at most three further calls, so the
    chain makes at most four calls, and the timers wait 1000, 2000 and
    4000 ms in this order. The bound is reached when the network stays
    down. (The calls that the effect and the [online] handler make start
    chains of their own.) *)
Theorem fetch_retries_at_most_three_times xs s :
  let r := fetch_chain xs 0 s in
  r.2 <= 4 ∧
  (∃ n, n <= 3 ∧ timeouts r.1 = timeouts s ++ take n [1000; 2000; 4000]%Z) ∧
  (fetch_chain (repeat offline 5) 0 s).2 = 4.
Proof.
  cbn zeta. destruct (fetch_chain_timeouts xs 0 s) as (n & Hn & Ht & Hcalls).
  cbn zeta in *. split; [lia|]. split; [|reflexivity].
  exists n. split; [lia|]. rewrite Ht. f_equal.
  destruct n as [|[|[|[|n]]]]; try reflexivity. lia.
Qed.

(** X28. A response that is not [ok] is never retried, whatever its status
    and however few retries were made: none of the messages made for a
    status contains the text [network], and the error is no [TypeError].
    The call shows the message as error and as toast, sets no timer and
    ends the loading state. So is a call without base URL or access
    token. A [fetch] that rejects with a [TypeError] is retried as long as
    fewer than three retries were made. *)
Theorem http_error_is_not_retried x retryCount s baseApi accessToken :
  getBaseApi x = inr baseApi ->
  getAccessToken x = inr accessToken ->
  let r := fetchDashboardData x retryCount s in
  (∀ response,
     fetch x = inr response -> ok response = false ->
     r.2 = false ∧ timeouts r.1 = timeouts s ∧ isLoading r.1 = false ∧
     ∃ m, error r.1 = Some m ∧
          toasts r.1 = toasts s ++ [{| kind := toast_error; text := m |}]) ∧
  (truthy baseApi && truthy accessToken = false -> r.2 = false) ∧
  (∀ m, truthy baseApi && truthy accessToken = true ->
        fetch x = inl (TypeError m) ->
        r.2 = bool_decide (retryCount < 3)).
Proof.
  intros Hb Ha. cbn zeta. unfold fetchDashboardData, try_fetch. rewrite Hb, Ha.
  split; [|split].
  - intros response Hf Hok.
    destruct (http_error_no_network response) as [Hty Hinc].
    destruct (negb (truthy baseApi) || negb (truthy accessToken)).
    + unfold retries. cbn -[includes]. rewrite andb_false_r. cbn. eauto 10.
    + rewrite Hf, Hok. cbn [negb]. unfold retries. rewrite Hty, Hinc, andb_false_r.
      cbn. eauto 10.
  - intros Hauth. apply andb_false_iff in Hauth.
    assert (negb (truthy baseApi) || negb (truthy accessToken) = true) as ->.
    { destruct Hauth as [-> | ->]; cbn; [done|by rewrite orb_true_r]. }
    unfold retries. cbn -[includes]. by rewrite andb_false_r.
  - intros m Hauth Hf. apply andb_true_iff in Hauth as [-> ->]. cbn [negb orb].
    rewrite Hf. unfold retries. cbn [instanceof_TypeError orb].
    rewrite andb_true_r.
    destruct (Nat.ltb_spec retryCount 3).
    + by rewrite bool_decide_eq_true_2.
    + rewrite bool_decide_eq_false_2 by lia. done.
Qed.

Lemma http_error_is_not_retried_witness :
  (fetchDashboardData (answers 503) 0 initial).2 = false.
Proof.
  destruct (http_error_is_not_retried (answers 503) 0 initial
              (Some "https://api.example") (Some "token")) as [H _];
    [reflexivity | reflexivity |].
  destruct (H {| status := 503; json := inl (Error "Unexpected end of JSON input") |})
    as [H' _]; [reflexivity | reflexivity | exact H'].
Defined.

End DashboardFacts.

